(** * swagger-typescript-api-generator: the normalizer, the schema resolver
      and the endpoint synthesizer

    A shallow embedding of [src/generator.ts] and [src/parser.ts], over the
    types of [src/types.ts], together with the properties of the resolver
    and of the tag grouping that the specification states.

    Conventions of the embedding.
    - A JavaScript string is a [string]: the sequence of its code units, each
      below 256.  The character classes of the regular expressions of the
      source ([\w], [\s], [A-Z], [a-z], [0-9]) are exact on these code units.
      The case conversions are the ASCII ones: [toUpperCase] and
      [toLowerCase] follow Unicode in the source, so they agree with the
      model on ASCII text ([Js.isAsciiText]) and not beyond it.  The
      properties of [toPascalCase] and [toCamelCase] are stated for ASCII
      text.
    - The intermediate representation has the types that [src/types.ts]
      declares: the type of a schema is a string, its tags are strings.  A
      document that puts another value there (the type array of OpenAPI 3.1)
      is outside the embedding; the source throws on some of them.
    - A member of an [enum] is any value of the JSON document.  A number is
      carried by the text the runtime prints for it.
    - A [Record<string, T>] received as input is the list of its
      [Object.entries], in that order.  The one record the generator builds
      itself ([endpointsByTag]) is modelled with its insertion order, its
      inherited properties and the key order of [Object.entries].
    - The accumulator [typeDefinitions] is mutated through every call of the
      source; here each function takes it and returns the new one.
    - A thrown [TypeError] is the result [None]. *)

From Stdlib Require Import String Ascii List ZArith Bool Lia Arith Permutation.
From Stdlib Require Import DecimalString.
Import ListNotations.
Open Scope list_scope.
Open Scope string_scope.

(** ** Characters and strings *)

Module Js.

Definition nl : string := String (ascii_of_nat 10) "".
Definition dq : string := String (ascii_of_nat 34) "".

Definition code (c : ascii) : nat := nat_of_ascii c.

Definition between (lo hi : nat) (c : ascii) : bool :=
  ((lo <=? code c) && (code c <=? hi))%nat.

(** [[A-Z]], [[a-z]], [[0-9]] *)
Definition isUpper : ascii -> bool := between 65 90.
Definition isLower : ascii -> bool := between 97 122.
Definition isDigit : ascii -> bool := between 48 57.

(** [\w], the same class as [[a-zA-Z0-9_]] *)
Definition isWord (c : ascii) : bool :=
  isUpper c || isLower c || isDigit c || (code c =? 95)%nat.

(** [\s] on code units below 256: tab, line feed, vertical tab, form feed,
    carriage return, space, no-break space *)
Definition isSpace (c : ascii) : bool :=
  between 9 13 c || (code c =? 32)%nat || (code c =? 160)%nat.

(** a code unit of the ASCII range, and a text of such code units *)
Definition isAscii (c : ascii) : bool := (code c <? 128)%nat.

(** the delimiters of [/[-_\s]/] *)
Definition isDelimiter (c : ascii) : bool :=
  (code c =? 45)%nat || (code c =? 95)%nat || isSpace c.

Definition upperChar (c : ascii) : ascii :=
  if isLower c then ascii_of_nat (code c - 32) else c.

Definition lowerChar (c : ascii) : ascii :=
  if isUpper c then ascii_of_nat (code c + 32) else c.

Fixpoint smap (f : ascii -> ascii) (s : string) : string :=
  match s with
  | EmptyString => EmptyString
  | String c r => String (f c) (smap f r)
  end.

Fixpoint sfilter (p : ascii -> bool) (s : string) : string :=
  match s with
  | EmptyString => EmptyString
  | String c r => if p c then String c (sfilter p r) else sfilter p r
  end.

Fixpoint sexists (p : ascii -> bool) (s : string) : bool :=
  match s with
  | EmptyString => false
  | String c r => p c || sexists p r
  end.

Definition toUpperCase : string -> string := smap upperChar.
Definition toLowerCase : string -> string := smap lowerChar.

(** [str.charAt(0)] and [str.slice(1)] *)
Definition charAt0 (s : string) : string :=
  match s with
  | EmptyString => EmptyString
  | String c _ => String c EmptyString
  end.

Definition slice1 (s : string) : string :=
  match s with
  | EmptyString => EmptyString
  | String _ r => r
  end.

(** a string used as a condition: the empty string is false *)
Definition truthy (s : string) : bool :=
  match s with
  | EmptyString => false
  | String _ _ => true
  end.

(** [str.split(/[-_\s]/)]: every delimiter character ends a piece, and the
    empty string splits into one empty piece *)
Fixpoint split (p : ascii -> bool) (s : string) : list string :=
  match s with
  | EmptyString => [EmptyString]
  | String c r =>
      if p c then EmptyString :: split p r
      else match split p r with
           | [] => [String c EmptyString]
           | w :: ws => String c w :: ws
           end
  end.

(** [pieces.join(sep)] *)
Fixpoint join (sep : string) (l : list string) : string :=
  match l with
  | [] => EmptyString
  | [x] => x
  | x :: r => x ++ sep ++ join sep r
  end.

(** [str.replace(/[^...]/g, '')] keeps the characters of the class *)
Definition keep (p : ascii -> bool) (s : string) : string := sfilter p s.

(** [str.replace(/[^...]/g, '_')] *)
Definition replaceOutside (p : ascii -> bool) (by_ : ascii) (s : string) : string :=
  smap (fun c => if p c then c else by_) s.

(** [/^[A-Z]/.test(str)] *)
Definition startsUpper (s : string) : bool :=
  match s with
  | EmptyString => false
  | String c _ => isUpper c
  end.

(** [/DTO$/.test(str)] *)
Fixpoint endsWith (suffix s : string) : bool :=
  (s =? suffix) ||
  match s with
  | EmptyString => false
  | String _ r => endsWith suffix r
  end.

(** the rest of [s] after its longest prefix in the class, and whether that
    prefix is not empty *)
Fixpoint skipRun (p : ascii -> bool) (seen : bool) (s : string) : bool * string :=
  match s with
  | String c r => if p c then skipRun p true r else (seen, s)
  | EmptyString => (seen, s)
  end.

(** [/[A-Z][a-z]+[A-Z]/.test(str)]: at some position an upper-case letter,
    one or more lower-case letters, an upper-case letter *)
Fixpoint hasHump (s : string) : bool :=
  match s with
  | EmptyString => false
  | String c r =>
      (isUpper c &&
       match skipRun isLower false r with
       | (true, rest) => startsUpper rest
       | (false, _) => false
       end)
      || hasHump r
  end.

(** the decimal text of an integer: what a template literal prints for the
    index of an array *)
Definition ofZ (z : Z) : string := NilEmpty.string_of_int (Z.to_int z).

Definition hexDigit (n : nat) : ascii :=
  if (n <? 10)%nat then ascii_of_nat (48 + n) else ascii_of_nat (87 + n).

(** [JSON.stringify] of one character of a string *)
Definition quoteChar (c : ascii) : string :=
  let n := code c in
  if (n =? 34)%nat then "\" ++ dq
  else if (n =? 92)%nat then "\\"
  else if (n =? 8)%nat then "\b"
  else if (n =? 12)%nat then "\f"
  else if (n =? 10)%nat then "\n"
  else if (n =? 13)%nat then "\r"
  else if (n =? 9)%nat then "\t"
  else if (n <? 32)%nat then
    "\u00" ++ String (hexDigit (n / 16)) (String (hexDigit (n mod 16)) "")
  else String c "".

Fixpoint quoteChars (s : string) : string :=
  match s with
  | EmptyString => EmptyString
  | String c r => quoteChar c ++ quoteChars r
  end.

Definition quote (s : string) : string := dq ++ quoteChars s ++ dq.

Fixpoint isAsciiText (s : string) : bool :=
  match s with
  | EmptyString => true
  | String c r => isAscii c && isAsciiText r
  end.

End Js.

(** ** Naming (generator.ts, lines 596-657) *)

Definition toPascalCase (str : string) : string :=
  let containsUppercase := Js.sexists Js.isUpper str in
  if containsUppercase then
    Js.join ""
      (map (fun word =>
              if Js.startsUpper word then word
              else Js.toUpperCase (Js.charAt0 word) ++ Js.slice1 word)
           (Js.split Js.isDelimiter str))
  else
    Js.join ""
      (map (fun word =>
              Js.toUpperCase (Js.charAt0 word) ++ Js.toLowerCase (Js.slice1 word))
           (Js.split Js.isDelimiter str)).

Definition toCamelCase (str : string) : string :=
  let pascal := toPascalCase str in
  Js.toLowerCase (Js.charAt0 pascal) ++ Js.slice1 pascal.

Definition sanitizeTypeName (name : string) : string :=
  if Js.endsWith "DTO" name || Js.hasHump name then
    Js.keep Js.isWord name
  else if Js.startsUpper name then
    Js.keep Js.isWord name
  else
    let sanitized := Js.keep (fun c => Js.isWord c || Js.isSpace c) name in
    toPascalCase sanitized.

(** ** The intermediate representation and the accumulator (types.ts) *)

(** A member of [enum?: any[]]: a value of the JSON document.  A number is
    given by [text], what [JSON.stringify] prints for it (the decimal or
    exponent form the runtime chooses); an object by its [Object.entries]. *)
#[local] Unset Elimination Schemes.
Inductive JsonValue :=
| JNull
| JBool (b : bool)
| JNumber (text : string)
| JString (s : string)
| JArray (elements : list JsonValue)
| JObject (members : list (string * JsonValue)).
#[local] Set Elimination Schemes.

(** [typeof value === 'string'] *)
Definition isString (value : JsonValue) : bool :=
  match value with
  | JString _ => true
  | _ => false
  end.

(** [String(value)], which a template literal applies as well.  The source
    applies it to strings only (in the loop it runs when every member is
    one); an array prints its elements joined by commas, [null] as nothing,
    and a plain object prints as [[object Object]]. *)
Fixpoint toText (value : JsonValue) : string :=
  match value with
  | JNull => "null"
  | JBool true => "true"
  | JBool false => "false"
  | JNumber text => text
  | JString s => s
  | JArray elements =>
      Js.join ","
        (map (fun element =>
                match element with
                | JNull => ""
                | _ => toText element
                end)
           elements)
  | JObject _ => "[object Object]"
  end.

(** [JSON.stringify(value)] *)
Fixpoint stringify (value : JsonValue) : string :=
  match value with
  | JNull => "null"
  | JBool true => "true"
  | JBool false => "false"
  | JNumber text => text
  | JString s => Js.quote s
  | JArray elements => "[" ++ Js.join "," (map stringify elements) ++ "]"
  | JObject members =>
      "{"
      ++ Js.join ","
           (map (fun member => Js.quote (fst member) ++ ":" ++ stringify (snd member))
              members)
      ++ "}"
  end.

Module Schema.
#[local] Unset Elimination Schemes.
Inductive t : Type := mk {
  name : string;
  type : string;
  format : option string;
  enum : option (list JsonValue);
  nullable : bool;
  properties : list (string * t);
  required : list string;
  items : option t;
  allOf : option (list t);
  oneOf : option (list t);
  anyOf : option (list t);
  reference : option string
}.
#[local] Set Elimination Schemes.
End Schema.
Definition ApiSchema : Type := Schema.t.

Module Decl.
Record t : Type := mk {
  name : string;
  content : string;
  dependencies : list string
}.
End Decl.
Definition TypeDefinition : Type := Decl.t.

Module Defs.
Record t : Type := mk {
  interfaces : list TypeDefinition;
  types : list TypeDefinition;
  enums : list TypeDefinition;
  apiClasses : list TypeDefinition
}.

Definition empty : t := mk [] [] [] [].

(** [typeDefinitions.interfaces.push(d)] and its three siblings *)
Definition pushInterface (d : TypeDefinition) (td : t) : t :=
  mk (interfaces td ++ [d]) (types td) (enums td) (apiClasses td).
Definition pushType (d : TypeDefinition) (td : t) : t :=
  mk (interfaces td) (types td ++ [d]) (enums td) (apiClasses td).
Definition pushEnum (d : TypeDefinition) (td : t) : t :=
  mk (interfaces td) (types td) (enums td ++ [d]) (apiClasses td).
Definition pushApiClass (d : TypeDefinition) (td : t) : t :=
  mk (interfaces td) (types td) (enums td) (apiClasses td ++ [d]).

(** [[...interfaces, ...types, ...enums]] *)
Definition declarations (td : t) : list TypeDefinition :=
  interfaces td ++ types td ++ enums td.
End Defs.
Definition TypeDefinitions : Type := Defs.t.

(** ** Scalars (generator.ts, lines 549-594) *)

(** [format === 'int64'] and its like, on a format that may be [undefined] *)
Definition formatIs (format : option string) (expected : string) : bool :=
  match format with
  | Some f => f =? expected
  | None => false
  end.

(** [type] is [None] for [undefined]; the empty string is as false as it. *)
Definition toTsType (type format : option string) : string :=
  match type with
  | None => "any"
  | Some type =>
      if negb (Js.truthy type) then "any"
      else
        let lowered := Js.toLowerCase type in
        if (lowered =? "integer") || (lowered =? "number") then
          if formatIs format "int64" then "bigint" else "number"
        else if lowered =? "string" then
          if formatIs format "date" || formatIs format "date-time" then "Date"
          else if formatIs format "binary" then "Blob"
          else "string"
        else if lowered =? "boolean" then "boolean"
        else if lowered =? "array" then "any[]"
        else "Record<string, any>"
  end.

Definition basicTypes : list string :=
  ["string"; "number"; "boolean"; "any"; "Date"; "void"; "null"; "undefined"; "Blob"].

Definition includes (l : list string) (x : string) : bool :=
  existsb (String.eqb x) l.

(** [isBasicType] works from the end of the name: while it ends with [[]]
    the two characters are dropped.  [reversed] is the name backwards. *)
Fixpoint isBasicTypeFrom (reversed : list ascii) : bool :=
  match reversed with
  | "]"%char :: "["%char :: shorter => isBasicTypeFrom shorter
  | _ => includes basicTypes (string_of_list_ascii (rev reversed))
  end.

Definition isBasicType (typeName : string) : bool :=
  isBasicTypeFrom (rev (list_ascii_of_string typeName)).

(** ** The schema resolver (generator.ts, lines 85-362) *)

Definition findExistingType (name : string) (typeDefinitions : TypeDefinitions)
  : option string :=
  match find (fun definition => Decl.name definition =? name)
             (Defs.declarations typeDefinitions) with
  | Some definition => Some (Decl.name definition)
  | None => None
  end.

(** [schema.enum && schema.enum.length > 0] and its like for the compositions *)
Definition nonEmpty {A : Type} (o : option (list A)) : bool :=
  match o with
  | Some (_ :: _) => true
  | _ => false
  end.

(** a [string | null] used as a condition: [null] and the empty string are
    false, and in the true branch the value is the string *)
Definition whenTruthy (o : option string) : option string :=
  match o with
  | Some s => if Js.truthy s then Some s else None
  | None => None
  end.

(** an object or [null] used as a condition *)
Definition isSome {A : Type} (o : option A) : bool :=
  match o with
  | Some _ => true
  | None => false
  end.

Definition processEnumSchema (schema : ApiSchema) (typeDefinitions : TypeDefinitions)
  : string * TypeDefinitions :=
  let name := sanitizeTypeName (Schema.name schema) in
  let enumValues := match Schema.enum schema with Some l => l | None => [] end in
  let isStringEnum := forallb isString enumValues in
  let enumContent :=
    if isStringEnum then
      fold_left
        (fun enumContent value =>
           let key := Js.replaceOutside Js.isWord "_"%char (toText value) in
           enumContent ++ "  " ++ key ++ " = " ++ Js.dq ++ toText value ++ Js.dq
                       ++ "," ++ Js.nl)
        enumValues
        ("export enum " ++ name ++ " {" ++ Js.nl)
      ++ "}"
    else
      "export type " ++ name ++ " = " ++ Js.join " | " (map stringify enumValues) ++ ";"
  in
  (name, Defs.pushEnum (Decl.mk name enumContent []) typeDefinitions).

Definition Resolver : Type := ApiSchema -> TypeDefinitions -> string * TypeDefinitions.

Section Shapes.

(** the recursive call of the source *)
Variable processSchema : Resolver.

(** the loop over [Object.entries(schema.properties)] *)
Fixpoint resolveProperties (required : list string)
    (entries : list (string * ApiSchema))
    (interfaceContent : string) (dependencies : list string)
    (typeDefinitions : TypeDefinitions)
  : string * list string * TypeDefinitions :=
  match entries with
  | [] => (interfaceContent, dependencies, typeDefinitions)
  | (propName, propSchema) :: rest =>
      let (propType, typeDefinitions1) := processSchema propSchema typeDefinitions in
      let isRequired := includes required propName in
      let nullable := if Schema.nullable propSchema then " | null" else "" in
      let interfaceContent1 :=
        interfaceContent ++ "  " ++ propName ++ (if isRequired then "" else "?")
                         ++ ": " ++ propType ++ nullable ++ ";" ++ Js.nl in
      let dependencies1 :=
        if isBasicType propType then dependencies
        else (dependencies ++ [propType])%list in
      resolveProperties required rest interfaceContent1 dependencies1 typeDefinitions1
  end.

Definition processObjectSchema_ (schema : ApiSchema) (typeDefinitions : TypeDefinitions)
  : string * TypeDefinitions :=
  let name := sanitizeTypeName (Schema.name schema) in
  let '(interfaceContent, dependencies, typeDefinitions1) :=
    resolveProperties (Schema.required schema) (Schema.properties schema)
      ("export interface " ++ name ++ " {" ++ Js.nl) [] typeDefinitions in
  (name,
   Defs.pushInterface (Decl.mk name (interfaceContent ++ "}") dependencies)
     typeDefinitions1).

Definition processArraySchema_ (schema : ApiSchema) (typeDefinitions : TypeDefinitions)
  : string * TypeDefinitions :=
  match Schema.items schema with
  | None => ("any[]", typeDefinitions)
  | Some items =>
      let (itemType, typeDefinitions1) := processSchema items typeDefinitions in
      let name := sanitizeTypeName (Schema.name schema) in
      let dependencies := if isBasicType itemType then [] else [itemType] in
      let arrayTypeContent := "export type " ++ name ++ " = " ++ itemType ++ "[];" in
      (name,
       Defs.pushType (Decl.mk name arrayTypeContent dependencies) typeDefinitions1)
  end.

(** [components.map((component) => { ... })] of the three compositions: the
    resolved member types, the dependencies pushed on the way, the accumulator *)
Fixpoint resolveComponents (components : list ApiSchema)
    (dependencies : list string) (typeDefinitions : TypeDefinitions)
  : list string * list string * TypeDefinitions :=
  match components with
  | [] => ([], dependencies, typeDefinitions)
  | component :: rest =>
      let (componentType, typeDefinitions1) := processSchema component typeDefinitions in
      let dependencies1 :=
        if isBasicType componentType then dependencies
        else (dependencies ++ [componentType])%list in
      let '(componentTypes, dependencies2, typeDefinitions2) :=
        resolveComponents rest dependencies1 typeDefinitions1 in
      (componentType :: componentTypes, dependencies2, typeDefinitions2)
  end.

Definition processAllOfSchema_ (schema : ApiSchema) (typeDefinitions : TypeDefinitions)
  : string * TypeDefinitions :=
  match Schema.allOf schema with
  | None => ("any", typeDefinitions)
  | Some allOf =>
      let name := sanitizeTypeName (Schema.name schema) in
      let '(componentTypes, dependencies, typeDefinitions1) :=
        resolveComponents allOf [] typeDefinitions in
      let typeContent :=
        "export type " ++ name ++ " = " ++ Js.join " & " componentTypes ++ ";" in
      (name, Defs.pushType (Decl.mk name typeContent dependencies) typeDefinitions1)
  end.

Definition processOneOfSchema_ (schema : ApiSchema) (typeDefinitions : TypeDefinitions)
  : string * TypeDefinitions :=
  match Schema.oneOf schema with
  | None => ("any", typeDefinitions)
  | Some oneOf =>
      let name := sanitizeTypeName (Schema.name schema) in
      let '(componentTypes, dependencies, typeDefinitions1) :=
        resolveComponents oneOf [] typeDefinitions in
      let typeContent :=
        "export type " ++ name ++ " = " ++ Js.join " | " componentTypes ++ ";" in
      (name, Defs.pushType (Decl.mk name typeContent dependencies) typeDefinitions1)
  end.

Definition processAnyOfSchema_ (schema : ApiSchema) (typeDefinitions : TypeDefinitions)
  : string * TypeDefinitions :=
  match Schema.anyOf schema with
  | None => ("any", typeDefinitions)
  | Some anyOf =>
      let name := sanitizeTypeName (Schema.name schema) in
      let '(componentTypes, dependencies, typeDefinitions1) :=
        resolveComponents anyOf [] typeDefinitions in
      let typeContent :=
        "export type " ++ name ++ " = " ++ Js.join " | " componentTypes ++ ";" in
      (name, Defs.pushType (Decl.mk name typeContent dependencies) typeDefinitions1)
  end.

End Shapes.

Fixpoint processSchema (schema : ApiSchema) (typeDefinitions : TypeDefinitions)
    {struct schema} : string * TypeDefinitions :=
  match whenTruthy (Schema.reference schema) with
  | Some reference => (reference, typeDefinitions)
  | None =>
      match whenTruthy (findExistingType (Schema.name schema) typeDefinitions) with
      | Some existingType => (existingType, typeDefinitions)
      | None =>
          if nonEmpty (Schema.enum schema) then
            processEnumSchema schema typeDefinitions
          else if (Schema.type schema =? "object")
                  || (0 <? List.length (Schema.properties schema))%nat then
            processObjectSchema_ processSchema schema typeDefinitions
          else if (Schema.type schema =? "array") && isSome (Schema.items schema) then
            processArraySchema_ processSchema schema typeDefinitions
          else if nonEmpty (Schema.allOf schema) then
            processAllOfSchema_ processSchema schema typeDefinitions
          else if nonEmpty (Schema.oneOf schema) then
            processOneOfSchema_ processSchema schema typeDefinitions
          else if nonEmpty (Schema.anyOf schema) then
            processAnyOfSchema_ processSchema schema typeDefinitions
          else
            (toTsType (Some (Schema.type schema)) (Schema.format schema),
             typeDefinitions)
      end
  end.

Definition processObjectSchema : Resolver := processObjectSchema_ processSchema.
Definition processArraySchema : Resolver := processArraySchema_ processSchema.
Definition processAllOfSchema : Resolver := processAllOfSchema_ processSchema.
Definition processOneOfSchema : Resolver := processOneOfSchema_ processSchema.
Definition processAnyOfSchema : Resolver := processAnyOfSchema_ processSchema.

(** ** Endpoints and the parsed specification (types.ts) *)

Module Param.
Record t : Type := mk {
  name : string;
  in_ : string;
  required : bool;
  description : string;
  schema : option ApiSchema
}.
End Param.
Definition ApiParameter : Type := Param.t.

Module Body.
Record t : Type := mk {
  required : bool;
  contentType : string;
  schema : option ApiSchema
}.
End Body.

Module Response.
Record t : Type := mk {
  description : string;
  schema : option ApiSchema
}.
End Response.
Definition ApiResponse : Type := Response.t.

Module Endpoint.
Record t : Type := mk {
  path : string;
  method : string;
  operationId : string;
  summary : string;
  description : string;
  parameters : list ApiParameter;
  requestBody : option Body.t;
  responses : list (string * ApiResponse);
  tags : list string
}.
End Endpoint.
Definition ApiEndpoint : Type := Endpoint.t.

Module Path.
Record t : Type := mk { endpoints : list ApiEndpoint }.
End Path.
Definition ApiPath : Type := Path.t.

Module Spec.
Record Info : Type := mkInfo { title : string; version : string; description : string }.
Record Server : Type := mkServer { url : string; serverDescription : string }.
Record Components : Type := mkComponents { schemas : list (string * ApiSchema) }.
Record t : Type := mk {
  info : Info;
  servers : list Server;
  basePath : string;
  paths : list (string * ApiPath);
  components : Components
}.
End Spec.
Definition ParsedSpec : Type := Spec.t.

(** ** The endpoint synthesizer (generator.ts, lines 365-541) *)

Definition parameterType (p : ApiParameter) : string :=
  match Param.schema p with
  | Some schema => toTsType (Some (Schema.type schema)) (Schema.format schema)
  | None => "any"
  end.

(** [if (methodParams) methodParams += ', '] *)
Definition thenComma (methodParams : string) : string :=
  if Js.truthy methodParams then methodParams ++ ", " else methodParams.

Definition isEmpty {A : Type} (l : list A) : bool :=
  match l with
  | [] => true
  | _ :: _ => false
  end.

Definition generateEndpointMethod (endpoint : ApiEndpoint) : string :=
  let methodName := Endpoint.operationId endpoint in
  let path := Endpoint.path endpoint in
  let method := Js.toUpperCase (Endpoint.method endpoint) in
  let located place :=
    filter (fun p => Param.in_ p =? place) (Endpoint.parameters endpoint) in
  let queryParams := located "query" in
  let pathParams := located "path" in
  let headerParams := located "header" in
  let hasBody := isSome (Endpoint.requestBody endpoint) in
  let methodParams := "" in
  let methodJsDoc := "  /**" ++ Js.nl in
  let methodJsDoc := methodJsDoc ++ "   * " ++ Endpoint.summary endpoint ++ Js.nl in
  let methodJsDoc :=
    if Js.truthy (Endpoint.description endpoint)
    then methodJsDoc ++ "   * " ++ Endpoint.description endpoint ++ Js.nl
    else methodJsDoc in
  (* path parameters *)
  let methodJsDoc :=
    fold_left
      (fun doc p =>
         doc ++ "   * @param " ++ Param.name p ++ " " ++ Param.description p ++ Js.nl)
      pathParams methodJsDoc in
  let methodParams :=
    if isEmpty pathParams then methodParams
    else methodParams
         ++ Js.join ", " (map (fun p => Param.name p ++ ": " ++ parameterType p) pathParams) in
  (* query parameters *)
  let methodParams := if isEmpty queryParams then methodParams else thenComma methodParams in
  let methodJsDoc :=
    if isEmpty queryParams then methodJsDoc
    else methodJsDoc ++ "   * @param queryParams Query parameters" ++ Js.nl in
  let methodParams :=
    if isEmpty queryParams then methodParams
    else methodParams ++ "queryParams: { "
         ++ Js.join "; "
              (map (fun p => Param.name p ++ (if Param.required p then "" else "?")
                               ++ ": " ++ parameterType p) queryParams)
         ++ " }" in
  (* request body *)
  let methodParams := if hasBody then thenComma methodParams else methodParams in
  let methodJsDoc :=
    if hasBody then methodJsDoc ++ "   * @param data Request body data" ++ Js.nl
    else methodJsDoc in
  let methodParams := if hasBody then methodParams ++ "data: any" else methodParams in
  (* headers *)
  let methodParams := if isEmpty headerParams then methodParams else thenComma methodParams in
  let methodJsDoc :=
    if isEmpty headerParams then methodJsDoc
    else methodJsDoc ++ "   * @param headers Custom headers" ++ Js.nl in
  let methodParams :=
    if isEmpty headerParams then methodParams
    else methodParams ++ "headers?: Record<string, string>" in
  (* options *)
  let methodParams := thenComma methodParams in
  let methodJsDoc := methodJsDoc ++ "   * @param options Request options" ++ Js.nl in
  let methodParams := methodParams ++ "options?: RequestOptions" in
  let methodJsDoc := methodJsDoc ++ "   */" ++ Js.nl in
  (* signature *)
  let methodContent :=
    methodJsDoc ++ "  async " ++ toCamelCase methodName ++ "(" ++ methodParams
                ++ "): Promise<any> {" ++ Js.nl in
  let methodContent :=
    methodContent ++ "    let url = this.baseUrl + '" ++ path ++ "';" ++ Js.nl in
  let methodContent :=
    if isEmpty pathParams then methodContent
    else
      fold_left
        (fun content param =>
           content ++ "    url = url.replace('{" ++ Param.name param
                   ++ "}', encodeURIComponent(String(" ++ Param.name param ++ ")));"
                   ++ Js.nl)
        pathParams
        (methodContent ++ Js.nl ++ "    // Replace path parameters" ++ Js.nl) in
  let methodContent :=
    if isEmpty queryParams then methodContent
    else
      fold_left
        (fun content param =>
           content
             ++ "    if (queryParams." ++ Param.name param ++ " !== undefined) {" ++ Js.nl
             ++ "      searchParams.append('" ++ Param.name param
             ++ "', String(queryParams." ++ Param.name param ++ "));" ++ Js.nl
             ++ "    }" ++ Js.nl)
        queryParams
        (methodContent ++ Js.nl ++ "    // Add query parameters" ++ Js.nl
                       ++ "    const searchParams = new URLSearchParams();" ++ Js.nl)
      ++ "    const queryString = searchParams.toString();" ++ Js.nl
      ++ "    if (queryString) {" ++ Js.nl
      ++ "      url += `?${queryString}`;" ++ Js.nl
      ++ "    }" ++ Js.nl in
  let methodContent :=
    methodContent ++ Js.nl ++ "    // Prepare request options" ++ Js.nl
      ++ "    const fetchOptions: RequestInit = {" ++ Js.nl
      ++ "      method: '" ++ method ++ "'," ++ Js.nl
      ++ "      ...options," ++ Js.nl
      ++ "      headers: {" ++ Js.nl
      ++ "        'Content-Type': 'application/json'," ++ Js.nl in
  let methodContent :=
    fold_left
      (fun content param =>
         if Param.required param then
           content ++ "        '" ++ Param.name param ++ "': headers?.['"
                   ++ Param.name param ++ "'] || ''," ++ Js.nl
         else
           content ++ "        ...(headers?.['" ++ Param.name param ++ "'] ? { '"
                   ++ Param.name param ++ "': headers['" ++ Param.name param
                   ++ "'] } : {})," ++ Js.nl)
      headerParams methodContent in
  let methodContent :=
    methodContent ++ "        ...headers," ++ Js.nl
                  ++ "      }," ++ Js.nl in
  let methodContent :=
    if hasBody then methodContent ++ "      body: JSON.stringify(data)," ++ Js.nl
    else methodContent in
  methodContent
    ++ "    };" ++ Js.nl ++ Js.nl
    ++ "    // Make request" ++ Js.nl
    ++ "    const response = await fetch(url, fetchOptions);" ++ Js.nl
    ++ "    const contentType = response.headers.get('Content-Type') || '';" ++ Js.nl ++ Js.nl
    ++ "    // Handle response" ++ Js.nl
    ++ "    if (!response.ok) {" ++ Js.nl
    ++ "      throw new Error(`API error: ${response.status} ${await response.text()}`);" ++ Js.nl
    ++ "    }" ++ Js.nl ++ Js.nl
    ++ "    // Parse response body" ++ Js.nl
    ++ "    if (contentType.includes('application/json')) {" ++ Js.nl
    ++ "      return await response.json();" ++ Js.nl
    ++ "    } else {" ++ Js.nl
    ++ "      return await response.text();" ++ Js.nl
    ++ "    }" ++ Js.nl
    ++ "  }" ++ Js.nl.

Definition generateApiClass (apiClassName : string) (endpoints : list ApiEndpoint)
  : string :=
  let content := "export class " ++ apiClassName ++ " {" ++ Js.nl in
  let content := content ++ "  private baseUrl: string;" ++ Js.nl ++ Js.nl in
  let content := content ++ "  constructor(baseUrl: string = '') {" ++ Js.nl in
  let content := content ++ "    this.baseUrl = baseUrl;" ++ Js.nl in
  let content := content ++ "  }" ++ Js.nl ++ Js.nl in
  let content :=
    fold_left
      (fun content endpoint => content ++ generateEndpointMethod endpoint ++ Js.nl)
      endpoints content in
  content ++ "}" ++ Js.nl.

(** ** Grouping by tag (generator.ts, lines 52-77) *)

(** [endpointsByTag] starts as [{}]: its own properties in creation order.
    Reading a key that is not its own finds the properties every object
    inherits, all of them truthy and none of them an array. *)
Definition TagRecord : Type := list (string * list ApiEndpoint).

Definition inheritedKeys : list string :=
  ["constructor"; "hasOwnProperty"; "isPrototypeOf"; "propertyIsEnumerable";
   "toLocaleString"; "toString"; "valueOf"; "__proto__";
   "__defineGetter__"; "__defineSetter__"; "__lookupGetter__"; "__lookupSetter__"].

Definition hasOwn (tag : string) (record : TagRecord) : bool :=
  existsb (fun entry => fst entry =? tag) record.

(** [endpointsByTag[tag].push(endpoint)] on an own property *)
Fixpoint pushUnder (tag : string) (endpoint : ApiEndpoint) (record : TagRecord)
  : TagRecord :=
  match record with
  | [] => []
  | (key, endpoints) :: rest =>
      if key =? tag then (key, (endpoints ++ [endpoint])%list) :: rest
      else (key, endpoints) :: pushUnder tag endpoint rest
  end.

(** one turn of the inner loop; [None] is the [TypeError] of calling the
    missing [push] of an inherited property *)
Definition addUnderTag (endpoint : ApiEndpoint) (record : TagRecord) (tag : string)
  : option TagRecord :=
  if hasOwn tag record then Some (pushUnder tag endpoint record)
  else if includes inheritedKeys tag then None
  else Some (record ++ [(tag, [endpoint])])%list.

Fixpoint addUnderTags (endpoint : ApiEndpoint) (tags : list string) (record : TagRecord)
  : option TagRecord :=
  match tags with
  | [] => Some record
  | tag :: rest =>
      match addUnderTag endpoint record tag with
      | Some record1 => addUnderTags endpoint rest record1
      | None => None
      end
  end.

(** [endpoint.tags.length > 0 ? endpoint.tags : ['default']] *)
Definition tagsOf (endpoint : ApiEndpoint) : list string :=
  if isEmpty (Endpoint.tags endpoint) then ["default"] else Endpoint.tags endpoint.

Fixpoint groupAll (allEndpoints : list ApiEndpoint) (record : TagRecord)
  : option TagRecord :=
  match allEndpoints with
  | [] => Some record
  | endpoint :: rest =>
      match addUnderTags endpoint (tagsOf endpoint) record with
      | Some record1 => groupAll rest record1
      | None => None
      end
  end.

Definition allEndpointsOf (parsedSpec : ParsedSpec) : list ApiEndpoint :=
  flat_map (fun entry => Path.endpoints (snd entry)) (Spec.paths parsedSpec).

Definition groupEndpointsByTag (parsedSpec : ParsedSpec) : option TagRecord :=
  groupAll (allEndpointsOf parsedSpec) [].

(** *** The key order of [Object.entries] *)

Fixpoint digitsValue (s : string) (acc : N) : option N :=
  match s with
  | EmptyString => Some acc
  | String c r =>
      if Js.isDigit c
      then digitsValue r (10 * acc + N.of_nat (Js.code c - 48))%N
      else None
  end.

(** an array index: the canonical decimal text of an integer below 2^32 - 1 *)
Definition arrayIndex (key : string) : option N :=
  match key with
  | EmptyString => None
  | String c r =>
      if (Js.code c =? 48)%nat && Js.truthy r then None
      else match digitsValue key 0%N with
           | Some n => if (n <? 4294967295)%N then Some n else None
           | None => None
           end
  end.

Fixpoint insertIndexed {A : Type} (n : N) (entry : string * A)
    (sorted : list (N * (string * A))) : list (N * (string * A)) :=
  match sorted with
  | [] => [(n, entry)]
  | (m, other) :: rest =>
      if (n <=? m)%N then (n, entry) :: sorted
      else (m, other) :: insertIndexed n entry rest
  end.

Fixpoint indexedEntries {A : Type} (record : list (string * A))
  : list (N * (string * A)) :=
  match record with
  | [] => []
  | entry :: rest =>
      match arrayIndex (fst entry) with
      | Some n => insertIndexed n entry (indexedEntries rest)
      | None => indexedEntries rest
      end
  end.

(** array indices first, ascending, then the other keys in creation order *)
Definition entries {A : Type} (record : list (string * A)) : list (string * A) :=
  (map snd (indexedEntries record)
   ++ filter (fun entry => negb (isSome (arrayIndex (fst entry)))) record)%list.

(** ** The generation step (generator.ts, lines 14-45) *)

Definition resolveAll (schemas : list (string * ApiSchema))
    (typeDefinitions : TypeDefinitions) : TypeDefinitions :=
  fold_left (fun typeDefinitions entry => snd (processSchema (snd entry) typeDefinitions))
            schemas typeDefinitions.

Definition apiClassOf (entry : string * list ApiEndpoint) : TypeDefinition :=
  let apiClassName := toPascalCase (fst entry) ++ "Api" in
  Decl.mk apiClassName (generateApiClass apiClassName (snd entry)) [].

Definition generateTypeDefinitions (parsedSpec : ParsedSpec) : option TypeDefinitions :=
  let typeDefinitions :=
    resolveAll (Spec.schemas (Spec.components parsedSpec)) Defs.empty in
  match groupEndpointsByTag parsedSpec with
  | None => None
  | Some endpointsByTag =>
      Some (fold_left
              (fun typeDefinitions entry =>
                 Defs.pushApiClass (apiClassOf entry) typeDefinitions)
              (entries endpointsByTag) typeDefinitions)
  end.

(** ** The normalizer (parser.ts)

    The raw document is [any] in the source.  Here it is a tree with the
    fields the normalizer reads, each of the type the OpenAPI and Swagger
    formats give it; a field that is absent is [None], and an object is the
    list of its [Object.entries], as for the records above. *)

Module RawSchema.
#[local] Unset Elimination Schemes.
Inductive t : Type := mk {
  type : option string;
  format : option string;
  enum : option (list JsonValue);
  nullable : option bool;
  properties : option (list (string * t));
  required : option (list string);
  items : option t;
  allOf : option (list t);
  oneOf : option (list t);
  anyOf : option (list t);
  ref : option string
}.
#[local] Set Elimination Schemes.
End RawSchema.

Module RawParameter.
Record t : Type := mk {
  name : string;
  in_ : string;
  required : option bool;
  description : option string;
  schema : option RawSchema.t
}.
End RawParameter.

Module RawMedia.
Record t : Type := mk { schema : option RawSchema.t }.
End RawMedia.

Module RawBody.
Record t : Type := mk {
  required : option bool;
  content : option (list (string * RawMedia.t))
}.
End RawBody.

Module RawResponse.
Record t : Type := mk {
  description : option string;
  content : option (list (string * RawMedia.t));
  schema : option RawSchema.t
}.
End RawResponse.

Module RawOperation.
Record t : Type := mk {
  operationId : option string;
  summary : option string;
  description : option string;
  parameters : option (list RawParameter.t);
  requestBody : option RawBody.t;
  responses : option (list (string * RawResponse.t));
  tags : option (list string)
}.
End RawOperation.

Module RawSpec.
Record Info : Type := mkInfo {
  title : option string;
  version : option string;
  description : option string
}.
Record Server : Type := mkServer { url : string; serverDescription : option string }.
Record Components : Type := mkComponents {
  schemas : option (list (string * RawSchema.t))
}.
Record t : Type := mk {
  info : option Info;
  servers : option (list Server);
  basePath : option string;
  paths : option (list (string * list (string * RawOperation.t)));
  components : option Components;
  definitions : option (list (string * RawSchema.t))
}.
End RawSpec.

(** [value || fallback] on a string that may be absent *)
Definition orText (value : option string) (fallback : string) : string :=
  match whenTruthy value with
  | Some s => s
  | None => fallback
  end.

(** [value || false] *)
Definition orFalse (value : option bool) : bool :=
  match value with
  | Some b => b
  | None => false
  end.

(** [value || []] *)
Definition orNone {A : Type} (value : option (list A)) : list A :=
  match value with
  | Some l => l
  | None => []
  end.

(** [record[key]] on own properties *)
Fixpoint lookup {A : Type} (key : string) (record : list (string * A)) : option A :=
  match record with
  | [] => None
  | (k, v) :: rest => if k =? key then Some v else lookup key rest
  end.

(** the own properties of [{}] after [record[key] = value] for each entry, the
    values being objects: the key [__proto__] sets the prototype and leaves no
    property *)
Definition assigned {A : Type} (entries : list (string * A)) : list (string * A) :=
  filter (fun entry => negb (fst entry =? "__proto__")) entries.

(** [ref.split('/').pop()] *)
Definition lastSegment (ref : string) : string :=
  last (Js.split (fun c => (Js.code c =? 47)%nat) ref) "".

Definition capitalizeFirstLetter (str : string) : string :=
  Js.toUpperCase (Js.charAt0 str) ++ Js.slice1 str.

(** [list.map((s, index) => f s index)] *)
Fixpoint mapIndexed {A B : Type} (f : A -> nat -> B) (l : list A) (index : nat)
  : list B :=
  match l with
  | [] => []
  | x :: rest => f x index :: mapIndexed f rest (S index)
  end.

Definition indexText (index : nat) : string := Js.ofZ (Z.of_nat index).

Fixpoint parseSchema (schema : RawSchema.t) (name : string) {struct schema}
  : ApiSchema :=
  let type :=
    orText (RawSchema.type schema)
      (if isSome (RawSchema.enum schema) then "enum" else "object") in
  let format := RawSchema.format schema in
  let enum := RawSchema.enum schema in
  let nullable := orFalse (RawSchema.nullable schema) in
  let required := orNone (RawSchema.required schema) in
  match whenTruthy (RawSchema.ref schema) with
  | Some ref =>
      Schema.mk name type format enum nullable [] required None None None None
        (Some (lastSegment ref))
  | None =>
      let properties :=
        match RawSchema.properties schema with
        | Some entries =>
            assigned
              (map (fun entry =>
                      (fst entry,
                       parseSchema (snd entry)
                         (name ++ capitalizeFirstLetter (fst entry))))
                   entries)
        | None => []
        end in
      let items :=
        match RawSchema.items schema with
        | Some items =>
            if formatIs (RawSchema.type schema) "array"
            then Some (parseSchema items (name ++ "Item"))
            else None
        | None => None
        end in
      let members (suffix : string) (list : option (list RawSchema.t)) :=
        match list with
        | Some l =>
            Some (mapIndexed
                    (fun s index => parseSchema s (name ++ suffix ++ indexText index))
                    l 0)
        | None => None
        end in
      Schema.mk name type format enum nullable properties required items
        (members "AllOf" (RawSchema.allOf schema))
        (members "OneOf" (RawSchema.oneOf schema))
        (members "AnyOf" (RawSchema.anyOf schema))
        None
  end.

Definition parseParameter (param : RawParameter.t) : ApiParameter :=
  Param.mk (RawParameter.name param) (RawParameter.in_ param)
    (orFalse (RawParameter.required param))
    (orText (RawParameter.description param) "")
    (match RawParameter.schema param with
     | Some schema => Some (parseSchema schema (RawParameter.name param))
     | None => None
     end).

(** [Object.keys(content)[0]] and [content[contentType]], when the key is truthy *)
Definition firstContent (content : list (string * RawMedia.t))
  : option (string * RawMedia.t) :=
  match content with
  | (contentType, media) :: _ =>
      if Js.truthy contentType then Some (contentType, media) else None
  | [] => None
  end.

Definition parseResponse (operationId : string) (entry : string * RawResponse.t)
  : string * ApiResponse :=
  let statusCode := fst entry in
  let response := snd entry in
  let named schema :=
    parseSchema schema (operationId ++ "Response" ++ statusCode) in
  let schema :=
    match RawResponse.content response with
    | Some content =>
        match firstContent content with
        | Some (_, media) =>
            match RawMedia.schema media with
            | Some schema => Some (named schema)
            | None => None
            end
        | None => None
        end
    | None =>
        match RawResponse.schema response with
        | Some schema => Some (named schema)
        | None => None
        end
    end in
  (statusCode, Response.mk (orText (RawResponse.description response) "") schema).

Definition parseEndpoint (path method : string) (operation : RawOperation.t)
  : ApiEndpoint :=
  let operationId :=
    orText (RawOperation.operationId operation)
      (method ++ Js.keep (fun c => Js.isUpper c || Js.isLower c || Js.isDigit c) path) in
  let parameters :=
    match RawOperation.parameters operation with
    | Some parameters => map parseParameter parameters
    | None => []
    end in
  let requestBody :=
    match RawOperation.requestBody operation with
    | Some requestBody =>
        match RawBody.content requestBody with
        | Some content =>
            match firstContent content with
            | Some (contentType, media) =>
                match RawMedia.schema media with
                | Some schema =>
                    Some (Body.mk (orFalse (RawBody.required requestBody)) contentType
                            (Some (parseSchema schema (operationId ++ "Request"))))
                | None => None
                end
            | None => None
            end
        | None => None
        end
    | None => None
    end in
  let responses :=
    match RawOperation.responses operation with
    | Some responses => assigned (map (parseResponse operationId) responses)
    | None => []
    end in
  Endpoint.mk path method operationId
    (orText (RawOperation.summary operation) "")
    (orText (RawOperation.description operation) "")
    parameters requestBody responses
    (orNone (RawOperation.tags operation)).

Definition methods : list string :=
  ["get"; "post"; "put"; "delete"; "patch"; "options"; "head"].

Definition parsePath (path : string) (pathItem : list (string * RawOperation.t))
  : ApiPath :=
  Path.mk
    (flat_map
       (fun method =>
          match lookup method pathItem with
          | Some operation => [parseEndpoint path method operation]
          | None => []
          end)
       methods).

Definition parseSwaggerSpec (spec : RawSpec.t) : ParsedSpec :=
  let info field fallback :=
    match RawSpec.info spec with
    | Some info => orText (field info) fallback
    | None => fallback
    end in
  let named entries :=
    assigned (map (fun entry => (fst entry, parseSchema (snd entry) (fst entry))) entries) in
  let fromDefinitions :=
    match RawSpec.definitions spec with
    | Some definitions => named definitions
    | None => []
    end in
  Spec.mk
    (Spec.mkInfo (info RawSpec.title "API") (info RawSpec.version "1.0.0")
       (info RawSpec.description ""))
    (map (fun server =>
            Spec.mkServer (RawSpec.url server)
              (orText (RawSpec.serverDescription server) ""))
         (orNone (RawSpec.servers spec)))
    (orText (RawSpec.basePath spec) "")
    (assigned
       (map (fun entry => (fst entry, parsePath (fst entry) (snd entry)))
            (orNone (RawSpec.paths spec))))
    (Spec.mkComponents
       match RawSpec.components spec with
       | Some components =>
           match RawSpec.schemas components with
           | Some schemas => named schemas
           | None => fromDefinitions
           end
       | None => fromDefinitions
       end).

(** ** The nine cases of the resolver, in the words of the specification *)

Inductive Shape : Type :=
| ByReference (reference : string)
| AlreadyDeclared
| Enumerated
| ObjectShaped
| ArrayOfItems
| AllOfComposition
| OneOfComposition
| AnyOfComposition
| ScalarFallback.

Definition declaredNames (typeDefinitions : TypeDefinitions) : list string :=
  map Decl.name (Defs.declarations typeDefinitions).

(** first match, in the order of section 4.2: a reference that is set (one
    that is neither [null] nor the empty string), a declaration of the same
    name, a non-empty [enum], an object shape, an array with items, a
    non-empty [allOf], [oneOf], [anyOf], a scalar *)
Definition shapeOf (schema : ApiSchema) (typeDefinitions : TypeDefinitions) : Shape :=
  match whenTruthy (Schema.reference schema) with
  | Some reference => ByReference reference
  | None =>
      if includes (declaredNames typeDefinitions) (Schema.name schema) then AlreadyDeclared
      else if nonEmpty (Schema.enum schema) then Enumerated
      else if (Schema.type schema =? "object")
              || negb (isEmpty (Schema.properties schema)) then ObjectShaped
      else if (Schema.type schema =? "array") && isSome (Schema.items schema)
      then ArrayOfItems
      else if nonEmpty (Schema.allOf schema) then AllOfComposition
      else if nonEmpty (Schema.oneOf schema) then OneOfComposition
      else if nonEmpty (Schema.anyOf schema) then AnyOfComposition
      else ScalarFallback
  end.

Definition resolveAs (shape : Shape) : Resolver :=
  fun schema typeDefinitions =>
    match shape with
    | ByReference reference => (reference, typeDefinitions)
    | AlreadyDeclared => (Schema.name schema, typeDefinitions)
    | Enumerated => processEnumSchema schema typeDefinitions
    | ObjectShaped => processObjectSchema schema typeDefinitions
    | ArrayOfItems => processArraySchema schema typeDefinitions
    | AllOfComposition => processAllOfSchema schema typeDefinitions
    | OneOfComposition => processOneOfSchema schema typeDefinitions
    | AnyOfComposition => processAnyOfSchema schema typeDefinitions
    | ScalarFallback =>
        (toTsType (Some (Schema.type schema)) (Schema.format schema), typeDefinitions)
    end.

(** ** Sample schemas and specifications *)

Module Sample.

Definition plain (name type : string) : ApiSchema :=
  Schema.mk name type None None false [] [] None None None None None.

Definition object (name : string) (properties : list (string * ApiSchema)) : ApiSchema :=
  Schema.mk name "object" None None false properties [] None None None None None.

Definition enumOf (name : string) (values : list JsonValue) : ApiSchema :=
  Schema.mk name "enum" None (Some values) false [] [] None None None None None.

Definition referenceTo (name reference : string) : ApiSchema :=
  Schema.mk name "object" None None false [] [] None None None None (Some reference).

Definition endpoint (operationId : string) (requestBody : option Body.t)
    (tags : list string) : ApiEndpoint :=
  Endpoint.mk "/pets" "post" operationId "" "" [] requestBody [] tags.

Definition spec (endpoints : list ApiEndpoint) (schemas : list (string * ApiSchema))
  : ParsedSpec :=
  Spec.mk (Spec.mkInfo "API" "1.0.0" "") [] "" [("/pets", Path.mk endpoints)]
    (Spec.mkComponents schemas).

Definition raw (type : option string) : RawSchema.t :=
  RawSchema.mk type None None None None None None None None None None.

Definition rawEnum (values : list JsonValue) : RawSchema.t :=
  RawSchema.mk None None (Some values) None None None None None None None None.

Definition rawObject (properties : list (string * RawSchema.t)) : RawSchema.t :=
  RawSchema.mk (Some "object") None None None (Some properties) None None None None None
    None.

Definition rawReference (ref : string) : RawSchema.t :=
  RawSchema.mk None None None None None None None None None None (Some ref).

(** a Swagger 2.0 document with definitions alone *)
Definition swagger (definitions : list (string * RawSchema.t)) : RawSpec.t :=
  RawSpec.mk None None None None None (Some definitions).

(** an OpenAPI 3 document with one [post] operation on [/pets] *)
Definition openapi (operation : RawOperation.t) (schemas : list (string * RawSchema.t))
  : RawSpec.t :=
  RawSpec.mk None None None (Some [("/pets", [("post", operation)])])
    (Some (RawSpec.mkComponents (Some schemas))) None.

Definition operationWithBody (operationId : string) (schema : RawSchema.t)
  : RawOperation.t :=
  RawOperation.mk (Some operationId) None None None
    (Some (RawBody.mk (Some true)
             (Some [("application/json", RawMedia.mk (Some schema))])))
    None None.

End Sample.

(** ** The declarations of sections 4.2 and 8, in the words of the specification *)

(** the same node as a [oneOf] and as an [anyOf] composition of [members] *)
Definition withOneOf (schema : ApiSchema) (members : list ApiSchema) : ApiSchema :=
  Schema.mk (Schema.name schema) (Schema.type schema) (Schema.format schema)
    (Schema.enum schema) (Schema.nullable schema) (Schema.properties schema)
    (Schema.required schema) (Schema.items schema) (Schema.allOf schema)
    (Some members) None (Schema.reference schema).

Definition withAnyOf (schema : ApiSchema) (members : list ApiSchema) : ApiSchema :=
  Schema.mk (Schema.name schema) (Schema.type schema) (Schema.format schema)
    (Schema.enum schema) (Schema.nullable schema) (Schema.properties schema)
    (Schema.required schema) (Schema.items schema) (Schema.allOf schema)
    None (Some members) (Schema.reference schema).





(** a word character: a digit, a letter or the underscore *)
Definition wordCharacter (c : ascii) : bool :=
  let n := nat_of_ascii c in
  ((48 <=? n) && (n <=? 57) || (65 <=? n) && (n <=? 90)
   || (n =? 95) || (97 <=? n) && (n <=? 122))%nat.

(** the identifier derived from a value: the value, character by character,
    with an underscore in the place of every character that is not a word
    character *)
Fixpoint memberKey (text : string) : string :=
  match text with
  | EmptyString => EmptyString
  | String c rest =>
      String (if wordCharacter c then c else "_"%char) (memberKey rest)
  end.

(** one member of an enumerated declaration: the key, then the value between
    double quotes, as it is *)
Definition enumMember (text : string) : string :=
  "  " ++ memberKey text ++ " = " ++ Js.dq ++ text ++ Js.dq ++ "," ++ Js.nl.

Definition enumDeclaration (name : string) (texts : list string) : TypeDefinition :=
  Decl.mk name
    ("export enum " ++ name ++ " {" ++ Js.nl ++ String.concat "" (map enumMember texts)
                    ++ "}")
    [].

(** the literal of a value is its JSON text.  Inside a text, the double
    quote, the backslash and the control characters are escaped: five of the
    control characters by a letter, the others by their code in four
    hexadecimal digits. *)
Definition hexDigits : list ascii := list_ascii_of_string "0123456789abcdef".

Definition escapes : list (nat * string) :=
  [(8, "\b"); (9, "\t"); (10, "\n"); (12, "\f"); (13, "\r");
   (34, "\" ++ Js.dq); (92, "\\")].

Definition literalCharacter (c : ascii) : string :=
  let n := nat_of_ascii c in
  match find (fun escape => (fst escape =? n)%nat) escapes with
  | Some escape => snd escape
  | None =>
      if (n <? 32)%nat then
        "\u00" ++ String (nth (n / 16) hexDigits "0"%char)
                   (String (nth (n mod 16) hexDigits "0"%char) "")
      else String c ""
  end.

Fixpoint literalText (text : string) : string :=
  match text with
  | EmptyString => EmptyString
  | String c rest => literalCharacter c ++ literalText rest
  end.

Fixpoint literal (value : JsonValue) : string :=
  match value with
  | JNull => "null"
  | JBool b => if b then "true" else "false"
  | JNumber text => text
  | JString text => Js.dq ++ literalText text ++ Js.dq
  | JArray elements => "[" ++ String.concat "," (map literal elements) ++ "]"
  | JObject members =>
      "{"
      ++ String.concat ","
           (map (fun member =>
                   Js.dq ++ literalText (fst member) ++ Js.dq ++ ":"
                         ++ literal (snd member))
              members)
      ++ "}"
  end.

(** the closed union of the literal values *)
Definition literalUnion (name : string) (values : list JsonValue) : TypeDefinition :=
  Decl.mk name
    ("export type " ++ name ++ " = " ++ String.concat " | " (map literal values) ++ ";")
    [].

(** the tags an endpoint is filed under: its own, or the fallback tag
    [default] alone when it has none *)
Definition filedUnder (endpoint : ApiEndpoint) : list string :=
  match Endpoint.tags endpoint with
  | [] => ["default"]
  | tag :: others => tag :: others
  end.

(** the endpoints of the client declaration of [tag]: every endpoint of
    the specification, in order, once for each time [tag] is among the tags
    it is filed under *)
Definition groupOf (tag : string) (allEndpoints : list ApiEndpoint) : list ApiEndpoint :=
  flat_map
    (fun endpoint => repeat endpoint (count_occ string_dec (filedUnder endpoint) tag))
    allEndpoints.

(** the client declaration of a tag: named by the Pascal case of the tag
    followed by [Api], a class with its base address and, in order, the
    method of each endpoint of its group *)
Definition clientDeclaration (tag : string) (endpoints : list ApiEndpoint)
  : TypeDefinition :=
  let name := toPascalCase tag ++ "Api" in
  Decl.mk name
    ("export class " ++ name ++ " {" ++ Js.nl
       ++ "  private baseUrl: string;" ++ Js.nl ++ Js.nl
       ++ "  constructor(baseUrl: string = '') {" ++ Js.nl
       ++ "    this.baseUrl = baseUrl;" ++ Js.nl
       ++ "  }" ++ Js.nl ++ Js.nl
       ++ String.concat ""
            (map (fun endpoint => generateEndpointMethod endpoint ++ Js.nl) endpoints)
       ++ "}" ++ Js.nl)
    [].

(** [part] occurs in [whole] *)
Definition occursIn (part whole : string) : Prop :=
  exists before after, whole = before ++ part ++ after.

(** the head of the method of an endpoint: its name is the camel case of the
    operation id *)
Definition methodHead (endpoint : ApiEndpoint) : string :=
  "  async " ++ toCamelCase (Endpoint.operationId endpoint) ++ "(".

(** the pushes of the grouping loop, in order: one per endpoint and tag *)
Definition pushesOf (allEndpoints : list ApiEndpoint) : list (string * ApiEndpoint) :=
  flat_map (fun endpoint => map (fun tag => (tag, endpoint)) (tagsOf endpoint))
    allEndpoints.

Definition pushedUnder (tag : string) (pushes : list (string * ApiEndpoint))
  : list ApiEndpoint :=
  map snd (filter (fun push => fst push =? tag) pushes).

(** a record of groups that accounts for a sequence of pushes *)
Definition accountsFor (record : TagRecord) (pushes : list (string * ApiEndpoint)) : Prop :=
  NoDup (map fst record)
  /\ (forall tag, In tag (map fst record) <-> In tag (map fst pushes))
  /\ (forall tag endpoints, In (tag, endpoints) record -> endpoints = pushedUnder tag pushes).

(** every node of a schema: itself, then the nodes of its properties, of its
    items and of the members of its three compositions *)
Fixpoint nodes (schema : ApiSchema) : list ApiSchema :=
  schema ::
    (flat_map (fun entry => nodes (snd entry)) (Schema.properties schema)
     ++ match Schema.items schema with
        | Some items => nodes items
        | None => []
        end
     ++ match Schema.allOf schema with
        | Some allOf => flat_map nodes allOf
        | None => []
        end
     ++ match Schema.oneOf schema with
        | Some oneOf => flat_map nodes oneOf
        | None => []
        end
     ++ match Schema.anyOf schema with
        | Some anyOf => flat_map nodes anyOf
        | None => []
        end)%list.

(** the names under which the nodes of a schema can be declared *)
Definition nodeNames (schema : ApiSchema) : list string :=
  map (fun node => sanitizeTypeName (Schema.name node)) (nodes schema).

(** [after] is [before] with more declarations at the end of its three
    sequences, all of them under one of the [allowed] names, and with the same
    client declarations *)
Definition Extends (allowed : list string) (before after : TypeDefinitions) : Prop :=
  exists interfaces types enums,
    Defs.interfaces after = (Defs.interfaces before ++ interfaces)%list
    /\ Defs.types after = (Defs.types before ++ types)%list
    /\ Defs.enums after = (Defs.enums before ++ enums)%list
    /\ Defs.apiClasses after = Defs.apiClasses before
    /\ Forall (fun d => In (Decl.name d) allowed) (interfaces ++ types ++ enums)%list.

(** a result that returns the sanitized name of [schema] with a declaration
    of that name in the accumulator *)
Definition declares (schema : ApiSchema) (result : string * TypeDefinitions) : Prop :=
  fst result = sanitizeTypeName (Schema.name schema)
  /\ In (sanitizeTypeName (Schema.name schema)) (declaredNames (snd result)).

(** resolving [schema] extends every accumulator within the names allowed for it *)
Definition extendsWithin (allowedIn : ApiSchema -> list string) (schema : ApiSchema)
  : Prop :=
  forall typeDefinitions,
    Extends (allowedIn schema) typeDefinitions (snd (processSchema schema typeDefinitions)).

(** ** The names the normalizer gives to the schemas of an endpoint, in the
    words of the specification: [{operationId}Request] and
    [{operationId}Response{statusCode}] *)

Definition requestSchemaName (operationId : string) : string :=
  operationId ++ "Request".

Definition responseSchemaName (operationId statusCode : string) : string :=
  operationId ++ "Response" ++ statusCode.

(** the schemas an endpoint keeps for its request body and its responses *)
Definition optionToList {A : Type} (o : option A) : list A :=
  match o with
  | Some x => [x]
  | None => []
  end.

Definition storedSchemas (endpoint : ApiEndpoint) : list ApiSchema :=
  (match Endpoint.requestBody endpoint with
   | Some body => optionToList (Body.schema body)
   | None => []
   end
   ++ flat_map (fun entry => optionToList (Response.schema (snd entry)))
        (Endpoint.responses endpoint))%list.

Definition storedSchemaNames (parsedSpec : ParsedSpec) : list string :=
  map Schema.name (flat_map storedSchemas (allEndpointsOf parsedSpec)).

(** ** An induction principle for schemas, through their properties, items
    and composition members *)

Section SchemaInduction.

Variable P : ApiSchema -> Prop.

Definition optionally (o : option ApiSchema) : Prop :=
  match o with
  | Some s => P s
  | None => True
  end.

Definition optionallyAll (o : option (list ApiSchema)) : Prop :=
  match o with
  | Some l => Forall P l
  | None => True
  end.

Hypothesis step :
  forall name type format enum nullable properties required items allOf oneOf anyOf
         reference,
    Forall (fun entry => P (snd entry)) properties ->
    optionally items -> optionallyAll allOf -> optionallyAll oneOf ->
    optionallyAll anyOf ->
    P (Schema.mk name type format enum nullable properties required items allOf oneOf
         anyOf reference).

Fixpoint schema_ind (schema : ApiSchema) : P schema :=
  match schema with
  | Schema.mk name type format enum nullable properties required items allOf oneOf anyOf
      reference =>
      let all :=
        fix all (l : list ApiSchema) : Forall P l :=
          match l with
          | [] => Forall_nil P
          | s :: r => Forall_cons s (schema_ind s) (all r)
          end in
      let some (o : option (list ApiSchema)) : optionallyAll o :=
        match o with
        | Some l => all l
        | None => I
        end in
      step name type format enum nullable properties required items allOf oneOf anyOf
        reference
        ((fix entries (l : list (string * ApiSchema))
            : Forall (fun entry => P (snd entry)) l :=
            match l with
            | [] => Forall_nil _
            | e :: r => Forall_cons e (schema_ind (snd e)) (entries r)
            end) properties)
        (match items return optionally items with
         | Some s => schema_ind s
         | None => I
         end)
        (some allOf) (some oneOf) (some anyOf)
  end.

End SchemaInduction.

(** ** An induction principle for the values of a document *)

Section JsonInduction.

Variable P : JsonValue -> Prop.

Hypothesis onNull : P JNull.
Hypothesis onBool : forall b, P (JBool b).
Hypothesis onNumber : forall text, P (JNumber text).
Hypothesis onString : forall s, P (JString s).
Hypothesis onArray : forall elements, Forall P elements -> P (JArray elements).
Hypothesis onObject :
  forall members, Forall (fun member => P (snd member)) members -> P (JObject members).

Fixpoint jsonValue_ind (value : JsonValue) : P value :=
  match value with
  | JNull => onNull
  | JBool b => onBool b
  | JNumber text => onNumber text
  | JString s => onString s
  | JArray elements =>
      onArray elements
        ((fix all (l : list JsonValue) : Forall P l :=
            match l with
            | [] => Forall_nil P
            | v :: r => Forall_cons v (jsonValue_ind v) (all r)
            end) elements)
  | JObject members =>
      onObject members
        ((fix all (l : list (string * JsonValue))
            : Forall (fun member => P (snd member)) l :=
            match l with
            | [] => Forall_nil _
            | m :: r => Forall_cons m (jsonValue_ind (snd m)) (all r)
            end) members)
  end.

End JsonInduction.

(** ** Predicates on strings and names, for the properties of the naming *)

(** every character of [s] is in the class *)
Fixpoint allChars (p : ascii -> bool) (s : string) : bool :=
  match s with
  | EmptyString => true
  | String c r => p c && allChars p r
  end.

(** [s] is empty or begins with a character that upper-casing leaves alone *)
Definition headFixed (s : string) : bool :=
  match s with
  | EmptyString => true
  | String c _ => Ascii.eqb (Js.upperChar c) c
  end.

Definition notDelimiter (c : ascii) : bool := negb (Js.isDelimiter c).

Definition isSlash (c : ascii) : bool := (Js.code c =? 47)%nat.

(** [k] times the two characters [[]] *)
Fixpoint brackets (k : nat) : string :=
  match k with
  | O => ""
  | S k' => brackets k' ++ "[]"
  end.

(** ** Measures and invariants of the accumulator *)

Definition declarationCount (typeDefinitions : TypeDefinitions) : nat :=
  List.length (Defs.declarations typeDefinitions).

(** no dependency of the declaration is a basic type *)
Definition cleanDependencies (d : TypeDefinition) : Prop :=
  Forall (fun dependency => isBasicType dependency = false) (Decl.dependencies d).

Definition allClean (typeDefinitions : TypeDefinitions) : Prop :=
  Forall cleanDependencies (Defs.declarations typeDefinitions).

(** resolving [schema] adds at most one declaration per node *)
Definition bounded (schema : ApiSchema) : Prop :=
  forall typeDefinitions,
    declarationCount (snd (processSchema schema typeDefinitions))
    <= declarationCount typeDefinitions + List.length (nodes schema).

(** resolving [schema] keeps the dependencies of the accumulator clean *)
Definition keepsClean (schema : ApiSchema) : Prop :=
  forall typeDefinitions,
    allClean typeDefinitions -> allClean (snd (processSchema schema typeDefinitions)).

Definition cleanList (dependencies : list string) : Prop :=
  Forall (fun dependency => isBasicType dependency = false) dependencies.

(** [schema] under another name *)
Definition renamed (name : string) (schema : ApiSchema) : ApiSchema :=
  Schema.mk name (Schema.type schema) (Schema.format schema) (Schema.enum schema)
    (Schema.nullable schema) (Schema.properties schema) (Schema.required schema)
    (Schema.items schema) (Schema.allOf schema) (Schema.oneOf schema)
    (Schema.anyOf schema) (Schema.reference schema).

(** the tags of a sequence in the order of their first occurrence *)
Definition firstOccurrences (tags : list string) : list string :=
  fold_left (fun seen tag => if includes seen tag then seen else (seen ++ [tag])%list)
    tags [].

(** no own key of the record names a property every object inherits *)
Definition ownKeysSafe (record : TagRecord) : Prop :=
  forall key, In key (map fst record) -> includes inheritedKeys key = false.

(** ** An induction principle for raw schemas *)

Section RawSchemaInduction.

Variable P : RawSchema.t -> Prop.

Definition rawOptionally (o : option RawSchema.t) : Prop :=
  match o with
  | Some s => P s
  | None => True
  end.

Definition rawOptionallyAll (o : option (list RawSchema.t)) : Prop :=
  match o with
  | Some l => Forall P l
  | None => True
  end.

Definition rawOptionallyEntries (o : option (list (string * RawSchema.t))) : Prop :=
  match o with
  | Some l => Forall (fun entry => P (snd entry)) l
  | None => True
  end.

Hypothesis rawStep :
  forall type format enum nullable properties required items allOf oneOf anyOf ref,
    rawOptionallyEntries properties ->
    rawOptionally items -> rawOptionallyAll allOf -> rawOptionallyAll oneOf ->
    rawOptionallyAll anyOf ->
    P (RawSchema.mk type format enum nullable properties required items allOf oneOf
         anyOf ref).

Fixpoint rawSchema_ind (schema : RawSchema.t) : P schema :=
  match schema with
  | RawSchema.mk type format enum nullable properties required items allOf oneOf anyOf
      ref =>
      let all :=
        fix all (l : list RawSchema.t) : Forall P l :=
          match l with
          | [] => Forall_nil P
          | s :: r => Forall_cons s (rawSchema_ind s) (all r)
          end in
      let some (o : option (list RawSchema.t)) : rawOptionallyAll o :=
        match o with
        | Some l => all l
        | None => I
        end in
      rawStep type format enum nullable properties required items allOf oneOf anyOf ref
        (match properties return rawOptionallyEntries properties with
         | Some l =>
             (fix entries (l : list (string * RawSchema.t))
                : Forall (fun entry => P (snd entry)) l :=
                match l with
                | [] => Forall_nil _
                | e :: r => Forall_cons e (rawSchema_ind (snd e)) (entries r)
                end) l
         | None => I
         end)
        (match items return rawOptionally items with
         | Some s => rawSchema_ind s
         | None => I
         end)
        (some allOf) (some oneOf) (some anyOf)
  end.

End RawSchemaInduction.

(** [s] begins with [start] *)
Fixpoint beginsWith (start s : string) : bool :=
  match start with
  | EmptyString => true
  | String a start' =>
      match s with
      | EmptyString => false
      | String b s' => Ascii.eqb a b && beginsWith start' s'
      end
  end.

(** ** The children of a parsed schema *)

Definition parsedProperties (name : string)
    (properties : option (list (string * RawSchema.t))) : list (string * ApiSchema) :=
  match properties with
  | Some entries =>
      assigned
        (map (fun entry =>
                (fst entry,
                 parseSchema (snd entry) (name ++ capitalizeFirstLetter (fst entry))))
             entries)
  | None => []
  end.

Definition parsedItems (name : string) (type : option string)
    (items : option RawSchema.t) : option ApiSchema :=
  match items with
  | Some items =>
      if formatIs type "array" then Some (parseSchema items (name ++ "Item")) else None
  | None => None
  end.

Definition parsedMembers (name suffix : string) (members : option (list RawSchema.t))
  : option (list ApiSchema) :=
  match members with
  | Some l =>
      Some (mapIndexed
              (fun s index => parseSchema s (name ++ suffix ++ indexText index)) l 0)
  | None => None
  end.

(** * Properties *)

(** ** Strings *)

Ltac each_ascii c :=
  destruct c as [[|] [|] [|] [|] [|] [|] [|] [|]]; vm_compute; reflexivity.

Lemma append_assoc (a b c : string) : (a ++ b) ++ c = a ++ b ++ c.
Proof.
  induction a as [|x a IH]; simpl; [reflexivity|now rewrite IH].
Qed.

Lemma append_empty_r (a : string) : a ++ "" = a.
Proof.
  induction a as [|x a IH]; simpl; [reflexivity|now rewrite IH].
Qed.

Lemma whenTruthy_some (s : string) : s <> "" -> whenTruthy (Some s) = Some s.
Proof.
  destruct s; simpl; congruence.
Qed.

Lemma includes_In (l : list string) (x : string) : includes l x = true <-> In x l.
Proof.
  unfold includes. rewrite existsb_exists. split.
  - intros [y [Hy Heq]]. apply String.eqb_eq in Heq. now subst.
  - intros H. exists x. split; [assumption|apply String.eqb_refl].
Qed.

Lemma join_concat (sep : string) (l : list string) :
  Js.join sep l = String.concat sep l.
Proof.
  induction l as [|x [|y l] IH]; [reflexivity..|].
  change (x ++ sep ++ Js.join sep (y :: l) = x ++ sep ++ String.concat sep (y :: l)).
  now rewrite IH.
Qed.

(** ** The resolver, one step at a time *)

Lemma processSchema_unfold (schema : ApiSchema) (typeDefinitions : TypeDefinitions) :
  processSchema schema typeDefinitions =
  match whenTruthy (Schema.reference schema) with
  | Some reference => (reference, typeDefinitions)
  | None =>
      match whenTruthy (findExistingType (Schema.name schema) typeDefinitions) with
      | Some existingType => (existingType, typeDefinitions)
      | None =>
          if nonEmpty (Schema.enum schema) then
            processEnumSchema schema typeDefinitions
          else if (Schema.type schema =? "object")
                  || (0 <? List.length (Schema.properties schema))%nat then
            processObjectSchema schema typeDefinitions
          else if (Schema.type schema =? "array") && isSome (Schema.items schema) then
            processArraySchema schema typeDefinitions
          else if nonEmpty (Schema.allOf schema) then
            processAllOfSchema schema typeDefinitions
          else if nonEmpty (Schema.oneOf schema) then
            processOneOfSchema schema typeDefinitions
          else if nonEmpty (Schema.anyOf schema) then
            processAnyOfSchema schema typeDefinitions
          else
            (toTsType (Some (Schema.type schema)) (Schema.format schema),
             typeDefinitions)
      end
  end.
Proof.
  destruct schema. reflexivity.
Qed.

Lemma findExistingType_found (name : string) (typeDefinitions : TypeDefinitions) :
  In name (declaredNames typeDefinitions) ->
  findExistingType name typeDefinitions = Some name.
Proof.
  unfold findExistingType, declaredNames.
  induction (Defs.declarations typeDefinitions) as [|d l IH]; simpl.
  - intros [].
  - intros H. destruct (String.eqb_spec (Decl.name d) name) as [Heq|Hne].
    + now rewrite Heq.
    + destruct H as [H|H]; [contradiction|]. now apply IH.
Qed.

Lemma findExistingType_missing (name : string) (typeDefinitions : TypeDefinitions) :
  ~ In name (declaredNames typeDefinitions) ->
  findExistingType name typeDefinitions = None.
Proof.
  unfold findExistingType, declaredNames.
  induction (Defs.declarations typeDefinitions) as [|d l IH]; simpl.
  - reflexivity.
  - intros H. destruct (String.eqb_spec (Decl.name d) name) as [Heq|Hne].
    + exfalso. apply H. now left.
    + apply IH. intros Hin. apply H. now right.
Qed.

Lemma isEmpty_length {A : Type} (l : list A) :
  (0 <? List.length l)%nat = negb (isEmpty l).
Proof.
  destruct l; reflexivity.
Qed.

(** ** Past the two lookups *)

Lemma processSchema_by_shape (schema : ApiSchema) (typeDefinitions : TypeDefinitions) :
  whenTruthy (Schema.reference schema) = None ->
  ~ In (Schema.name schema) (declaredNames typeDefinitions) ->
  processSchema schema typeDefinitions
  = resolveAs (shapeOf schema typeDefinitions) schema typeDefinitions.
Proof.
  intros Eref Hnew. rewrite processSchema_unfold. unfold shapeOf. rewrite Eref.
  rewrite (findExistingType_missing _ _ Hnew). simpl whenTruthy. cbv iota.
  destruct (includes (declaredNames typeDefinitions) (Schema.name schema)) eqn:Edecl.
  { apply includes_In in Edecl. contradiction. }
  rewrite isEmpty_length.
  destruct (nonEmpty (Schema.enum schema)); [reflexivity|].
  destruct ((Schema.type schema =? "object")
            || negb (isEmpty (Schema.properties schema))); [reflexivity|].
  destruct ((Schema.type schema =? "array") && isSome (Schema.items schema));
    [reflexivity|].
  destruct (nonEmpty (Schema.allOf schema)); [reflexivity|].
  destruct (nonEmpty (Schema.oneOf schema)); [reflexivity|].
  destruct (nonEmpty (Schema.anyOf schema)); reflexivity.
Qed.

(** what each shape other than the two lookups tells about the node *)
Lemma shapeOf_past_lookup (schema : ApiSchema) (typeDefinitions : TypeDefinitions) :
  shapeOf schema typeDefinitions <> AlreadyDeclared ->
  (forall reference, shapeOf schema typeDefinitions <> ByReference reference) ->
  whenTruthy (Schema.reference schema) = None
  /\ ~ In (Schema.name schema) (declaredNames typeDefinitions).
Proof.
  unfold shapeOf. intros Hdecl Href.
  destruct (whenTruthy (Schema.reference schema)) as [reference|].
  { exfalso. now apply (Href reference). }
  split; [reflexivity|].
  intros Hin. apply includes_In in Hin. rewrite Hin in Hdecl. now apply Hdecl.
Qed.

Ltac past_lookup schema typeDefinitions Hshape :=
  let H := fresh "Hpast" in
  destruct (shapeOf_past_lookup schema typeDefinitions) as [H ?];
  [ rewrite Hshape; discriminate
  | intros ?; rewrite Hshape; discriminate
  | rewrite (processSchema_by_shape schema typeDefinitions H) by assumption;
    rewrite Hshape ].

Lemma processSchema_resolveAs (schema : ApiSchema) (typeDefinitions : TypeDefinitions) :
  Schema.name schema <> "" ->
  processSchema schema typeDefinitions
  = resolveAs (shapeOf schema typeDefinitions) schema typeDefinitions.
Proof.
  intros Hname.
  destruct (whenTruthy (Schema.reference schema)) as [reference|] eqn:Eref.
  - rewrite processSchema_unfold. unfold shapeOf. rewrite Eref. reflexivity.
  - destruct (includes (declaredNames typeDefinitions) (Schema.name schema)) eqn:Edecl.
    + rewrite processSchema_unfold. unfold shapeOf. rewrite Eref, Edecl.
      apply includes_In in Edecl.
      rewrite (findExistingType_found _ _ Edecl), whenTruthy_some by assumption.
      reflexivity.
    + apply processSchema_by_shape; [assumption|].
      intros Hin. apply includes_In in Hin. congruence.
Qed.

(** ** C2, C3, C4: the lookup is by the raw name, the declaration by the sanitized one *)

(** C2 at the node [{name: "user", type: "object"}]: both calls return
    ["User"], and the second appends a second declaration of that name. *)
Theorem processSchema_twice_lowercase_name :
  let schema := Sample.object "user" [] in
  let first := processSchema schema Defs.empty in
  let second := processSchema schema (snd first) in
  fst first = "User" /\ fst second = "User"
  /\ declaredNames (snd first) = ["User"]
  /\ declaredNames (snd second) = ["User"; "User"].
Proof.
  vm_compute. repeat split.
Qed.

(** C3 at the Swagger document
    [{definitions: {User: {type: "object"}, user: {type: "object"}}}]: the
    run ends with two declarations both named ["User"]. *)
Theorem generateTypeDefinitions_duplicate_names :
  let document :=
    Sample.swagger [("User", Sample.raw (Some "object"));
                    ("user", Sample.raw (Some "object"))] in
  let parsedSpec :=
    Sample.spec [] [("User", Sample.object "User" []); ("user", Sample.object "user" [])] in
  Spec.components (parseSwaggerSpec document) = Spec.components parsedSpec
  /\ exists typeDefinitions,
       generateTypeDefinitions parsedSpec = Some typeDefinitions
       /\ generateTypeDefinitions (parseSwaggerSpec document) = Some typeDefinitions
       /\ declaredNames typeDefinitions = ["User"; "User"]
       /\ ~ NoDup (declaredNames typeDefinitions).
Proof.
  split; [reflexivity|].
  eexists. split; [vm_compute; reflexivity|]. split; [reflexivity|].
  split; [reflexivity|].
  intros H. inversion H as [|x l Hnotin _]; subst. apply Hnotin. now left.
Qed.

(** C4 at the Swagger document
    [{definitions: {User: {type: "object"}, user: {enum: ["a"]}}}]: both names
    sanitize to ["User"], and the run ends with two declarations of that name,
    the interface of the first and the enum of the second. *)
Theorem generateTypeDefinitions_second_not_collapsed :
  let document :=
    Sample.swagger [("User", Sample.raw (Some "object"));
                    ("user", Sample.rawEnum [JString "a"])] in
  let first := Sample.object "User" [] in
  let second := Sample.enumOf "user" [JString "a"] in
  let parsedSpec := Sample.spec [] [("User", first); ("user", second)] in
  Spec.components (parseSwaggerSpec document) = Spec.components parsedSpec
  /\ sanitizeTypeName (Schema.name first) = sanitizeTypeName (Schema.name second)
  /\ exists typeDefinitions,
       generateTypeDefinitions parsedSpec = Some typeDefinitions
       /\ generateTypeDefinitions (parseSwaggerSpec document) = Some typeDefinitions
       /\ map Decl.name (Defs.interfaces typeDefinitions) = ["User"]
       /\ map Decl.name (Defs.enums typeDefinitions) = ["User"]
       /\ List.length (filter (fun d => Decl.name d =? "User")
                         (Defs.declarations typeDefinitions)) = 2.
Proof.
  split; [reflexivity|]. split; [reflexivity|].
  eexists. split; [vm_compute; reflexivity|]. repeat split.
Qed.

(** Where sanitizing leaves the name as it is, the lookup does find the
    declaration of a node resolved before: the second resolution returns what
    the first returned and appends nothing. *)

Lemma declaredNames_pushInterface (d : TypeDefinition) (typeDefinitions : TypeDefinitions) :
  In (Decl.name d) (declaredNames (Defs.pushInterface d typeDefinitions)).
Proof.
  unfold declaredNames, Defs.declarations. simpl.
  rewrite !map_app, !in_app_iff. simpl. tauto.
Qed.

Lemma declaredNames_pushType (d : TypeDefinition) (typeDefinitions : TypeDefinitions) :
  In (Decl.name d) (declaredNames (Defs.pushType d typeDefinitions)).
Proof.
  unfold declaredNames, Defs.declarations. simpl.
  rewrite !map_app, !in_app_iff. simpl. tauto.
Qed.

Lemma declaredNames_pushEnum (d : TypeDefinition) (typeDefinitions : TypeDefinitions) :
  In (Decl.name d) (declaredNames (Defs.pushEnum d typeDefinitions)).
Proof.
  unfold declaredNames, Defs.declarations. simpl.
  rewrite !map_app, !in_app_iff. simpl. tauto.
Qed.

Lemma processEnumSchema_declares (schema : ApiSchema) (typeDefinitions : TypeDefinitions) :
  declares schema (processEnumSchema schema typeDefinitions).
Proof.
  split; [reflexivity|]. unfold processEnumSchema. cbv zeta. cbn [snd].
  match goal with |- In ?n (declaredNames (Defs.pushEnum ?d _)) =>
    change n with (Decl.name d) end.
  apply declaredNames_pushEnum.
Qed.

Lemma processObjectSchema_declares (schema : ApiSchema) (typeDefinitions : TypeDefinitions) :
  declares schema (processObjectSchema schema typeDefinitions).
Proof.
  unfold processObjectSchema, processObjectSchema_.
  destruct (resolveProperties _ _ _ _ _ _) as [[interfaceContent dependencies] td1].
  split; [reflexivity|]. cbn [snd].
  match goal with |- In ?n (declaredNames (Defs.pushInterface ?d _)) =>
    change n with (Decl.name d) end.
  apply declaredNames_pushInterface.
Qed.

Lemma processArraySchema_declares (schema : ApiSchema) (typeDefinitions : TypeDefinitions) :
  isSome (Schema.items schema) = true ->
  declares schema (processArraySchema schema typeDefinitions).
Proof.
  unfold processArraySchema, processArraySchema_.
  destruct (Schema.items schema) as [items|]; [intros _|discriminate].
  destruct (processSchema items typeDefinitions) as [itemType td1].
  split; [reflexivity|]. cbn [snd].
  match goal with |- In ?n (declaredNames (Defs.pushType ?d _)) =>
    change n with (Decl.name d) end.
  apply declaredNames_pushType.
Qed.

Lemma processAllOfSchema_declares (schema : ApiSchema) (typeDefinitions : TypeDefinitions) :
  nonEmpty (Schema.allOf schema) = true ->
  declares schema (processAllOfSchema schema typeDefinitions).
Proof.
  unfold processAllOfSchema, processAllOfSchema_.
  destruct (Schema.allOf schema) as [members|]; [intros _|discriminate].
  destruct (resolveComponents _ _ _ _) as [[componentTypes dependencies] td1].
  split; [reflexivity|]. cbn [snd].
  match goal with |- In ?n (declaredNames (Defs.pushType ?d _)) =>
    change n with (Decl.name d) end.
  apply declaredNames_pushType.
Qed.

Lemma processOneOfSchema_declares (schema : ApiSchema) (typeDefinitions : TypeDefinitions) :
  nonEmpty (Schema.oneOf schema) = true ->
  declares schema (processOneOfSchema schema typeDefinitions).
Proof.
  unfold processOneOfSchema, processOneOfSchema_.
  destruct (Schema.oneOf schema) as [members|]; [intros _|discriminate].
  destruct (resolveComponents _ _ _ _) as [[componentTypes dependencies] td1].
  split; [reflexivity|]. cbn [snd].
  match goal with |- In ?n (declaredNames (Defs.pushType ?d _)) =>
    change n with (Decl.name d) end.
  apply declaredNames_pushType.
Qed.

Lemma processAnyOfSchema_declares (schema : ApiSchema) (typeDefinitions : TypeDefinitions) :
  nonEmpty (Schema.anyOf schema) = true ->
  declares schema (processAnyOfSchema schema typeDefinitions).
Proof.
  unfold processAnyOfSchema, processAnyOfSchema_.
  destruct (Schema.anyOf schema) as [members|]; [intros _|discriminate].
  destruct (resolveComponents _ _ _ _) as [[componentTypes dependencies] td1].
  split; [reflexivity|]. cbn [snd].
  match goal with |- In ?n (declaredNames (Defs.pushType ?d _)) =>
    change n with (Decl.name d) end.
  apply declaredNames_pushType.
Qed.

Lemma processSchema_twice_stable_name (schema : ApiSchema)
    (typeDefinitions : TypeDefinitions) :
  sanitizeTypeName (Schema.name schema) = Schema.name schema ->
  Schema.name schema <> "" ->
  processSchema schema (snd (processSchema schema typeDefinitions))
  = processSchema schema typeDefinitions.
Proof.
  intros Hstable Hname.
  assert (Hagain : forall first,
             declares schema first ->
             whenTruthy (Schema.reference schema) = None ->
             processSchema schema (snd first) = first).
  { intros [resolved typeDefinitions1] [Hfst Hin] Eref. cbn [fst snd] in *.
    rewrite Hstable in Hfst, Hin.
    rewrite processSchema_resolveAs by assumption.
    unfold shapeOf. rewrite Eref.
    apply includes_In in Hin. rewrite Hin. simpl. now rewrite Hfst. }
  rewrite (processSchema_resolveAs schema typeDefinitions Hname).
  unfold shapeOf.
  destruct (whenTruthy (Schema.reference schema)) as [reference|] eqn:Eref.
  { cbn [resolveAs snd]. rewrite processSchema_resolveAs by assumption.
    unfold shapeOf. now rewrite Eref. }
  destruct (includes (declaredNames typeDefinitions) (Schema.name schema)) eqn:Edecl.
  { cbn [resolveAs snd]. rewrite processSchema_resolveAs by assumption.
    unfold shapeOf. now rewrite Eref, Edecl. }
  destruct (nonEmpty (Schema.enum schema)) eqn:Eenum.
  { apply Hagain; [apply processEnumSchema_declares|reflexivity]. }
  destruct ((Schema.type schema =? "object")
            || negb (isEmpty (Schema.properties schema))) eqn:Eobject.
  { apply Hagain; [apply processObjectSchema_declares|reflexivity]. }
  destruct ((Schema.type schema =? "array") && isSome (Schema.items schema)) eqn:Earray.
  { apply andb_true_iff in Earray.
    apply Hagain; [apply processArraySchema_declares; tauto|reflexivity]. }
  destruct (nonEmpty (Schema.allOf schema)) eqn:EallOf.
  { apply Hagain; [now apply processAllOfSchema_declares|reflexivity]. }
  destruct (nonEmpty (Schema.oneOf schema)) eqn:EoneOf.
  { apply Hagain; [now apply processOneOfSchema_declares|reflexivity]. }
  destruct (nonEmpty (Schema.anyOf schema)) eqn:EanyOf.
  { apply Hagain; [now apply processAnyOfSchema_declares|reflexivity]. }
  cbn [resolveAs snd]. rewrite processSchema_resolveAs by assumption.
  unfold shapeOf. now rewrite Eref, Edecl, Eenum, Eobject, Earray, EallOf, EoneOf, EanyOf.
Qed.

(** ** C6: the two renderings of an enum *)

Lemma concat_cons (x : string) (xs : list string) :
  String.concat "" (x :: xs) = x ++ String.concat "" xs.
Proof.
  destruct xs; simpl; [now rewrite append_empty_r|reflexivity].
Qed.

Lemma forallb_isString_texts (texts : list string) :
  forallb isString (map JString texts) = true.
Proof.
  induction texts; simpl; auto.
Qed.

(** when not every member is a text, one of them is not *)
Lemma forallb_isString_mixed (values : list JsonValue) :
  (forall texts, values <> map JString texts) -> forallb isString values = false.
Proof.
  induction values as [|value values IH]; intros Hmixed.
  - exfalso. now apply (Hmixed []).
  - cbn [forallb]. destruct value as [| | |text| |]; try reflexivity.
    cbn [isString andb]. apply IH. intros texts ->. now apply (Hmixed (text :: texts)).
Qed.

Lemma wordCharacter_isWord (c : ascii) : wordCharacter c = Js.isWord c.
Proof. each_ascii c. Qed.

Lemma memberKey_replaceOutside (text : string) :
  Js.replaceOutside Js.isWord "_"%char text = memberKey text.
Proof.
  unfold Js.replaceOutside. induction text as [|c text IH]; [reflexivity|].
  cbn [Js.smap memberKey]. now rewrite IH, wordCharacter_isWord.
Qed.

Lemma literalCharacter_quoteChar (c : ascii) : Js.quoteChar c = literalCharacter c.
Proof. each_ascii c. Qed.

Lemma literalText_quoteChars (text : string) : Js.quoteChars text = literalText text.
Proof.
  induction text as [|c text IH]; [reflexivity|].
  cbn [Js.quoteChars literalText]. now rewrite IH, literalCharacter_quoteChar.
Qed.

Lemma stringify_literal (value : JsonValue) : stringify value = literal value.
Proof.
  induction value as [|b|text|s|elements Helements|members Hmembers] using jsonValue_ind;
    try reflexivity.
  - cbn [stringify literal]. unfold Js.quote. now rewrite literalText_quoteChars.
  - cbn [stringify literal]. rewrite join_concat. do 3 f_equal.
    induction Helements as [|element elements Helement _ IH]; [reflexivity|].
    cbn [map]. now rewrite Helement, IH.
  - cbn [stringify literal]. rewrite join_concat. do 3 f_equal.
    induction Hmembers as [|member members Hmember _ IH]; [reflexivity|].
    cbn [map]. rewrite IH. unfold Js.quote.
    now rewrite Hmember, literalText_quoteChars, !append_assoc.
Qed.

Lemma enum_members_fold (texts : list string) (enumContent : string) :
  fold_left
    (fun enumContent value =>
       let key := Js.replaceOutside Js.isWord "_"%char (toText value) in
       enumContent ++ "  " ++ key ++ " = " ++ Js.dq ++ toText value ++ Js.dq
                   ++ "," ++ Js.nl)
    (map JString texts) enumContent
  = enumContent ++ String.concat "" (map enumMember texts).
Proof.
  revert enumContent. induction texts as [|text texts IH]; intros enumContent.
  - simpl. now rewrite append_empty_r.
  - cbn [map fold_left]. rewrite IH, concat_cons. cbv zeta.
    unfold enumMember. cbn [toText]. rewrite memberKey_replaceOutside.
    rewrite append_assoc. reflexivity.
Qed.

Lemma processEnumSchema_texts (schema : ApiSchema) (texts : list string)
    (typeDefinitions : TypeDefinitions) :
  Schema.enum schema = Some (map JString texts) ->
  processEnumSchema schema typeDefinitions
  = (sanitizeTypeName (Schema.name schema),
     Defs.pushEnum (enumDeclaration (sanitizeTypeName (Schema.name schema)) texts)
       typeDefinitions).
Proof.
  intros Eenum. unfold processEnumSchema. rewrite Eenum. cbv zeta.
  rewrite forallb_isString_texts, enum_members_fold. unfold enumDeclaration.
  rewrite !append_assoc. reflexivity.
Qed.

Lemma processEnumSchema_literals (schema : ApiSchema) (values : list JsonValue)
    (typeDefinitions : TypeDefinitions) :
  Schema.enum schema = Some values ->
  forallb isString values = false ->
  processEnumSchema schema typeDefinitions
  = (sanitizeTypeName (Schema.name schema),
     Defs.pushEnum (literalUnion (sanitizeTypeName (Schema.name schema)) values)
       typeDefinitions).
Proof.
  intros Eenum Emixed. unfold processEnumSchema. rewrite Eenum. cbv zeta.
  rewrite Emixed. unfold literalUnion. rewrite join_concat.
  rewrite (map_ext stringify literal stringify_literal). reflexivity.
Qed.

Lemma processSchema_enum_case (schema : ApiSchema) (typeDefinitions : TypeDefinitions) :
  whenTruthy (Schema.reference schema) = None ->
  (In (Schema.name schema) (declaredNames typeDefinitions) -> Schema.name schema = "") ->
  nonEmpty (Schema.enum schema) = true ->
  processSchema schema typeDefinitions = processEnumSchema schema typeDefinitions.
Proof.
  intros Eref Hnew Henum. rewrite processSchema_unfold, Eref.
  assert (Efind : whenTruthy (findExistingType (Schema.name schema) typeDefinitions)
                  = None).
  { destruct (in_dec string_dec (Schema.name schema) (declaredNames typeDefinitions))
      as [Hin|Hout].
    - rewrite (findExistingType_found _ _ Hin), (Hnew Hin). reflexivity.
    - now rewrite (findExistingType_missing _ _ Hout). }
  now rewrite Efind, Henum.
Qed.

(** C6 (as amended).  For every node that the resolver takes as an enum (no
    reference set, no declaration found under its name, a non-empty [enum]):
    if every member is a text, it appends to the enumerated declarations one
    whose members map the text, with an underscore in the place of every
    character that is not a word character, to the text itself between
    quotes; otherwise it appends, to the enumerated declarations as well, the
    alias of the closed union of the literals of the values.  Either way it
    returns the sanitized name, and the declaration lists no dependency. *)
Theorem processSchema_enum (schema : ApiSchema) (values : list JsonValue)
    (typeDefinitions : TypeDefinitions) :
  whenTruthy (Schema.reference schema) = None ->
  (In (Schema.name schema) (declaredNames typeDefinitions) -> Schema.name schema = "") ->
  Schema.enum schema = Some values ->
  values <> [] ->
  let name := sanitizeTypeName (Schema.name schema) in
  (forall texts,
      values = map JString texts ->
      processSchema schema typeDefinitions
      = (name,
         Defs.pushEnum
           (Decl.mk name
              ("export enum " ++ name ++ " {" ++ Js.nl
                 ++ String.concat "" (map enumMember texts) ++ "}")
              [])
           typeDefinitions))
  /\ ((forall texts, values <> map JString texts) ->
      processSchema schema typeDefinitions
      = (name,
         Defs.pushEnum
           (Decl.mk name
              ("export type " ++ name ++ " = "
                 ++ String.concat " | " (map literal values) ++ ";")
              [])
           typeDefinitions)).
Proof.
  intros Eref Hnew Eenum Hvalues name.
  assert (Hcase : processSchema schema typeDefinitions
                  = processEnumSchema schema typeDefinitions).
  { apply processSchema_enum_case; try assumption.
    rewrite Eenum. destruct values; [contradiction|reflexivity]. }
  rewrite Hcase. split.
  - intros texts ->. now apply processEnumSchema_texts.
  - intros Hmixed. apply processEnumSchema_literals; [assumption|].
    now apply forallb_isString_mixed.
Qed.

Lemma processSchema_enum_witness :
  processSchema (Sample.enumOf "Letter" [JString "A"; JString "B"]) Defs.empty
  = ("Letter",
     Defs.pushEnum
       (Decl.mk "Letter"
          ("export enum Letter {" ++ Js.nl
             ++ "  A = " ++ Js.dq ++ "A" ++ Js.dq ++ "," ++ Js.nl
             ++ "  B = " ++ Js.dq ++ "B" ++ Js.dq ++ "," ++ Js.nl
             ++ "}")
          [])
       Defs.empty)
  /\ processSchema (Sample.enumOf "stock" [JString "in-stock now"]) Defs.empty
     = ("Stock",
        Defs.pushEnum
          (Decl.mk "Stock"
             ("export enum Stock {" ++ Js.nl
                ++ "  in_stock_now = " ++ Js.dq ++ "in-stock now" ++ Js.dq ++ "," ++ Js.nl
                ++ "}")
             [])
          Defs.empty)
  /\ processSchema
       (Sample.enumOf "Digit" [JNumber "1"; JNumber "2"; JNumber "3"]) Defs.empty
     = ("Digit",
        Defs.pushEnum (Decl.mk "Digit" "export type Digit = 1 | 2 | 3;" []) Defs.empty)
  /\ processSchema
       (Sample.enumOf "Mixed"
          [JString "a"; JBool true; JNull; JNumber "1.5"; JArray [JNumber "1"; JNull];
           JObject [("k", JString "v")]])
       Defs.empty
     = ("Mixed",
        Defs.pushEnum
          (Decl.mk "Mixed"
             ("export type Mixed = " ++ Js.dq ++ "a" ++ Js.dq
                ++ " | true | null | 1.5 | [1,null] | {" ++ Js.dq ++ "k" ++ Js.dq ++ ":"
                ++ Js.dq ++ "v" ++ Js.dq ++ "};")
             [])
          Defs.empty).
Proof.
  assert (Hnew : forall name,
             In name (declaredNames Defs.empty) -> name = "") by (intros name []).
  split; [|split; [|split]].
  - destruct (processSchema_enum (Sample.enumOf "Letter" [JString "A"; JString "B"])
                [JString "A"; JString "B"] Defs.empty eq_refl (Hnew _) eq_refl)
      as [Htexts _]; [discriminate|].
    exact (Htexts ["A"; "B"] eq_refl).
  - destruct (processSchema_enum (Sample.enumOf "stock" [JString "in-stock now"])
                [JString "in-stock now"] Defs.empty eq_refl (Hnew _) eq_refl)
      as [Htexts _]; [discriminate|].
    exact (Htexts ["in-stock now"] eq_refl).
  - destruct (processSchema_enum
                (Sample.enumOf "Digit" [JNumber "1"; JNumber "2"; JNumber "3"])
                [JNumber "1"; JNumber "2"; JNumber "3"] Defs.empty eq_refl (Hnew _)
                eq_refl)
      as [_ Hmixed]; [discriminate|].
    apply Hmixed. intros [|text texts]; discriminate.
  - destruct (processSchema_enum
                (Sample.enumOf "Mixed"
                   [JString "a"; JBool true; JNull; JNumber "1.5";
                    JArray [JNumber "1"; JNull]; JObject [("k", JString "v")]])
                [JString "a"; JBool true; JNull; JNumber "1.5";
                 JArray [JNumber "1"; JNull]; JObject [("k", JString "v")]]
                Defs.empty eq_refl (Hnew _) eq_refl)
      as [_ Hmixed]; [discriminate|].
    apply Hmixed. intros [|text [|other texts]]; discriminate.
Defined.

(** C6 (as stated) fails for a schema with a non-empty [enum] that is not
    taken as an enum, and in the sequence that receives the alias.  The
    definition [{enum: ["A"], $ref: "#/definitions/Status"}] is parsed with
    its enum and its reference: the resolver returns [Status] and appends
    nothing.  The property [b] of a definition [A], an enum, is parsed under
    the name [AB]: after a definition [AB] it is answered from the lookup and
    no enum is declared.  And the alias of the enum [[1, 2, 3]] is appended
    to the enumerated declarations, the alias declarations staying empty. *)
Lemma processSchema_enum_not_first_match :
  (let raw :=
     RawSchema.mk None None (Some [JString "A"]) None None None None None None None
       (Some "#/definitions/Status") in
   nonEmpty (Schema.enum (parseSchema raw "Pet")) = true
   /\ processSchema (parseSchema raw "Pet") Defs.empty = ("Status", Defs.empty)
   /\ generateTypeDefinitions (parseSwaggerSpec (Sample.swagger [("Pet", raw)]))
      = Some Defs.empty)
  /\
  (let definitions :=
     [("AB", Sample.rawObject []);
      ("A", Sample.rawObject [("b", Sample.rawEnum [JString "x"])])] in
   exists typeDefinitions,
     generateTypeDefinitions (parseSwaggerSpec (Sample.swagger definitions))
     = Some typeDefinitions
     /\ map Decl.name (Defs.interfaces typeDefinitions) = ["AB"; "A"]
     /\ Defs.enums typeDefinitions = [])
  /\
  (let raw := Sample.rawEnum [JNumber "1"; JNumber "2"; JNumber "3"] in
   exists typeDefinitions,
     generateTypeDefinitions (parseSwaggerSpec (Sample.swagger [("Digit", raw)]))
     = Some typeDefinitions
     /\ Defs.types typeDefinitions = []
     /\ Defs.enums typeDefinitions
        = [Decl.mk "Digit" "export type Digit = 1 | 2 | 3;" []]).
Proof.
  split; [|split].
  - repeat split; reflexivity.
  - eexists. split; [vm_compute; reflexivity|]. split; reflexivity.
  - eexists. split; [vm_compute; reflexivity|]. split; reflexivity.
Qed.

(** the key of a member, on a value with characters outside the word class *)
Example enum_key_replaces_non_word :
  enumMember "in-stock now" =
  "  in_stock_now = " ++ Js.dq ++ "in-stock now" ++ Js.dq ++ "," ++ Js.nl.
Proof.
  reflexivity.
Qed.

(** ** The scalar table, row by row *)

Lemma formatIs_true (format : option string) (expected : string) :
  formatIs format expected = true <-> format = Some expected.
Proof.
  destruct format as [f|]; simpl.
  - rewrite String.eqb_eq. split; congruence.
  - split; discriminate.
Qed.

Lemma formatIs_false (format : option string) (expected : string) :
  formatIs format expected = false <-> format <> Some expected.
Proof.
  rewrite <- formatIs_true. destruct (formatIs format expected); split; congruence.
Qed.

Lemma lowered_truthy (type : string) :
  Js.toLowerCase type <> "" -> Js.truthy type = true.
Proof.
  destruct type; [intros H; exfalso; apply H; reflexivity|reflexivity].
Qed.

Lemma toTsType_lowered (type : string) (format : option string) :
  Js.toLowerCase type <> "" ->
  toTsType (Some type) format =
  let lowered := Js.toLowerCase type in
  if (lowered =? "integer") || (lowered =? "number") then
    if formatIs format "int64" then "bigint" else "number"
  else if lowered =? "string" then
    if formatIs format "date" || formatIs format "date-time" then "Date"
    else if formatIs format "binary" then "Blob"
    else "string"
  else if lowered =? "boolean" then "boolean"
  else if lowered =? "array" then "any[]"
  else "Record<string, any>".
Proof.
  intros H. unfold toTsType. now rewrite (lowered_truthy _ H).
Qed.

Ltac scalar_row H :=
  rewrite toTsType_lowered by (rewrite H; discriminate); cbv zeta; rewrite H;
  cbn [String.eqb Ascii.eqb Bool.eqb orb andb].

(** ** What a resolution adds to the accumulator *)

Lemma Extends_refl (allowed : list string) (typeDefinitions : TypeDefinitions) :
  Extends allowed typeDefinitions typeDefinitions.
Proof.
  exists [], [], []. rewrite !app_nil_r. repeat split. constructor.
Qed.

Lemma Extends_trans (allowed : list string) (a b c : TypeDefinitions) :
  Extends allowed a b -> Extends allowed b c -> Extends allowed a c.
Proof.
  intros (i1 & t1 & e1 & Hi1 & Ht1 & He1 & Ha1 & Hall1)
         (i2 & t2 & e2 & Hi2 & Ht2 & He2 & Ha2 & Hall2).
  exists (i1 ++ i2)%list, (t1 ++ t2)%list, (e1 ++ e2)%list.
  rewrite Hi2, Ht2, He2, Ha2, Hi1, Ht1, He1, Ha1, <- !app_assoc.
  repeat split.
  rewrite !Forall_app in *. tauto.
Qed.

Lemma Extends_incl (allowed wider : list string) (a b : TypeDefinitions) :
  incl allowed wider -> Extends allowed a b -> Extends wider a b.
Proof.
  intros Hincl (i & t & e & Hi & Ht & He & Ha & Hall).
  exists i, t, e. repeat split; try assumption.
  eapply Forall_impl; [|exact Hall]. intros d. apply Hincl.
Qed.

Lemma Extends_pushInterface (allowed : list string) (d : TypeDefinition)
    (typeDefinitions : TypeDefinitions) :
  In (Decl.name d) allowed ->
  Extends allowed typeDefinitions (Defs.pushInterface d typeDefinitions).
Proof.
  intros Hin. exists [d], [], []. rewrite !app_nil_r. repeat split.
  constructor; [assumption|constructor].
Qed.

Lemma Extends_pushType (allowed : list string) (d : TypeDefinition)
    (typeDefinitions : TypeDefinitions) :
  In (Decl.name d) allowed ->
  Extends allowed typeDefinitions (Defs.pushType d typeDefinitions).
Proof.
  intros Hin. exists [], [d], []. rewrite !app_nil_r. repeat split.
  constructor; [assumption|constructor].
Qed.

Lemma Extends_pushEnum (allowed : list string) (d : TypeDefinition)
    (typeDefinitions : TypeDefinitions) :
  In (Decl.name d) allowed ->
  Extends allowed typeDefinitions (Defs.pushEnum d typeDefinitions).
Proof.
  intros Hin. exists [], [], [d]. rewrite !app_nil_r. repeat split.
  constructor; [assumption|constructor].
Qed.

Lemma Extends_declarations (allowed : list string) (before after : TypeDefinitions)
    (d : TypeDefinition) :
  Extends allowed before after ->
  In d (Defs.declarations after) ->
  In d (Defs.declarations before) \/ In (Decl.name d) allowed.
Proof.
  intros (i & t & e & Hi & Ht & He & _ & Hall) Hin.
  unfold Defs.declarations in *. rewrite Hi, Ht, He in Hin.
  rewrite !Forall_app in Hall. destruct Hall as (Hfi & Hft & Hfe).
  rewrite Forall_forall in Hfi, Hft, Hfe.
  rewrite !in_app_iff in *.
  destruct Hin as [[H|H]|[[H|H]|[H|H]]]; auto.
Qed.

Lemma Extends_keeps (allowed : list string) (before after : TypeDefinitions)
    (name : string) :
  Extends allowed before after ->
  In name (declaredNames before) -> In name (declaredNames after).
Proof.
  intros (i & t & e & Hi & Ht & He & _ & _).
  unfold declaredNames, Defs.declarations. rewrite Hi, Ht, He.
  rewrite !map_app, !in_app_iff. tauto.
Qed.

Section ResolvedChildren.

Variable allowedIn : ApiSchema -> list string.

Lemma resolveProperties_extends (required : list string)
    (entries : list (string * ApiSchema)) :
  Forall (fun entry => extendsWithin allowedIn (snd entry)) entries ->
  forall interfaceContent dependencies typeDefinitions,
    Extends (flat_map (fun entry => allowedIn (snd entry)) entries) typeDefinitions
      (snd (resolveProperties processSchema required entries interfaceContent dependencies
              typeDefinitions)).
Proof.
  induction 1 as [|[propName propSchema] rest Hhead _ IH];
    intros interfaceContent dependencies typeDefinitions.
  - apply Extends_refl.
  - cbn [resolveProperties flat_map snd] in *.
    specialize (Hhead typeDefinitions).
    destruct (processSchema propSchema typeDefinitions) as [propType typeDefinitions1].
    eapply Extends_trans.
    + eapply Extends_incl; [|exact Hhead]. apply incl_appl, incl_refl.
    + eapply Extends_incl; [|apply IH]. apply incl_appr, incl_refl.
Qed.

Lemma resolveComponents_extends (components : list ApiSchema) :
  Forall (extendsWithin allowedIn) components ->
  forall dependencies typeDefinitions,
    Extends (flat_map allowedIn components) typeDefinitions
      (snd (resolveComponents processSchema components dependencies typeDefinitions)).
Proof.
  induction 1 as [|component rest Hhead _ IH]; intros dependencies typeDefinitions.
  - apply Extends_refl.
  - cbn [resolveComponents flat_map] in *.
    specialize (Hhead typeDefinitions).
    destruct (processSchema component typeDefinitions) as [componentType typeDefinitions1].
    match goal with
    | |- context [resolveComponents processSchema rest ?deps typeDefinitions1] =>
        specialize (IH deps typeDefinitions1);
        destruct (resolveComponents processSchema rest deps typeDefinitions1)
          as [[componentTypes dependencies2] typeDefinitions2]
    end.
    eapply Extends_trans.
    + eapply Extends_incl; [|exact Hhead]. apply incl_appl, incl_refl.
    + eapply Extends_incl; [|exact IH]. apply incl_appr, incl_refl.
Qed.

End ResolvedChildren.

(** *** The nodes of a schema *)

Lemma nodes_self (schema : ApiSchema) : In schema (nodes schema).
Proof.
  destruct schema. now left.
Qed.

Lemma nodes_children (schema node : ApiSchema) :
  In node (nodes schema) <->
  node = schema
  \/ (exists entry, In entry (Schema.properties schema) /\ In node (nodes (snd entry)))
  \/ (exists items, Schema.items schema = Some items /\ In node (nodes items))
  \/ (exists allOf member,
        Schema.allOf schema = Some allOf /\ In member allOf /\ In node (nodes member))
  \/ (exists oneOf member,
        Schema.oneOf schema = Some oneOf /\ In member oneOf /\ In node (nodes member))
  \/ (exists anyOf member,
        Schema.anyOf schema = Some anyOf /\ In member anyOf /\ In node (nodes member)).
Proof.
  destruct schema as [name type format enum nullable properties required items allOf
                        oneOf anyOf reference].
  cbn [nodes Schema.properties Schema.items Schema.allOf Schema.oneOf Schema.anyOf].
  cbn [In]. rewrite !in_app_iff, in_flat_map.
  split.
  - intros [H|[H|[H|[H|[H|H]]]]].
    + left. now symmetry.
    + right. left. exact H.
    + right. right. left. destruct items as [i|]; [|destruct H]. now exists i.
    + right. right. right. left. destruct allOf as [l|]; [|destruct H].
      apply in_flat_map in H. destruct H as (m & Hm & Hn). now exists l, m.
    + right. right. right. right. left. destruct oneOf as [l|]; [|destruct H].
      apply in_flat_map in H. destruct H as (m & Hm & Hn). now exists l, m.
    + right. right. right. right. right. destruct anyOf as [l|]; [|destruct H].
      apply in_flat_map in H. destruct H as (m & Hm & Hn). now exists l, m.
  - intros [H|[H|[H|[H|[H|H]]]]].
    + left. now symmetry.
    + right. left. exact H.
    + right. right. left. destruct H as (i & -> & Hn). exact Hn.
    + right. right. right. left. destruct H as (l & m & -> & Hm & Hn).
      apply in_flat_map. now exists m.
    + right. right. right. right. left. destruct H as (l & m & -> & Hm & Hn).
      apply in_flat_map. now exists m.
    + right. right. right. right. right. destruct H as (l & m & -> & Hm & Hn).
      apply in_flat_map. now exists m.
Qed.

Lemma nodeNames_self (schema : ApiSchema) :
  In (sanitizeTypeName (Schema.name schema)) (nodeNames schema).
Proof.
  unfold nodeNames. apply in_map_iff. exists schema. split; [reflexivity|apply nodes_self].
Qed.

Lemma nodeNames_properties (schema : ApiSchema) :
  incl (flat_map (fun entry => nodeNames (snd entry)) (Schema.properties schema))
       (nodeNames schema).
Proof.
  intros name Hin. apply in_flat_map in Hin. destruct Hin as (entry & Hentry & Hname).
  unfold nodeNames in *. apply in_map_iff in Hname. destruct Hname as (node & <- & Hnode).
  apply in_map_iff. exists node. split; [reflexivity|].
  apply nodes_children. right. left. now exists entry.
Qed.

Lemma nodeNames_items (schema items : ApiSchema) :
  Schema.items schema = Some items -> incl (nodeNames items) (nodeNames schema).
Proof.
  intros Eitems name Hname.
  unfold nodeNames in *. apply in_map_iff in Hname. destruct Hname as (node & <- & Hnode).
  apply in_map_iff. exists node. split; [reflexivity|].
  apply nodes_children. right. right. left. now exists items.
Qed.

Lemma nodeNames_members (schema : ApiSchema) (members : list ApiSchema) :
  Schema.allOf schema = Some members \/ Schema.oneOf schema = Some members
  \/ Schema.anyOf schema = Some members ->
  incl (flat_map nodeNames members) (nodeNames schema).
Proof.
  intros Hmembers name Hin. apply in_flat_map in Hin.
  destruct Hin as (member & Hmember & Hname).
  unfold nodeNames in *. apply in_map_iff in Hname. destruct Hname as (node & <- & Hnode).
  apply in_map_iff. exists node. split; [reflexivity|].
  apply nodes_children. right. right. right.
  destruct Hmembers as [H|[H|H]].
  - left. now exists members, member.
  - right. left. now exists members, member.
  - right. right. now exists members, member.
Qed.

(** *** Every resolution extends the accumulator, under the names of its nodes *)

Lemma processSchema_extends (schema : ApiSchema) (typeDefinitions : TypeDefinitions) :
  Extends (nodeNames schema) typeDefinitions (snd (processSchema schema typeDefinitions)).
Proof.
  revert typeDefinitions.
  change (extendsWithin nodeNames schema).
  induction schema as [name type format enum nullable properties required items allOf
                         oneOf anyOf reference Hproperties Hitems HallOf HoneOf HanyOf]
    using schema_ind.
  intros typeDefinitions.
  set (schema := Schema.mk name type format enum nullable properties required items allOf
                   oneOf anyOf reference).
  rewrite processSchema_unfold.
  destruct (whenTruthy (Schema.reference schema)); [apply Extends_refl|].
  destruct (whenTruthy (findExistingType (Schema.name schema) typeDefinitions));
    [apply Extends_refl|].
  destruct (nonEmpty (Schema.enum schema)).
  { apply Extends_pushEnum, nodeNames_self. }
  destruct ((Schema.type schema =? "object")
            || (0 <? List.length (Schema.properties schema))%nat).
  { unfold processObjectSchema, processObjectSchema_.
    pose proof (resolveProperties_extends nodeNames (Schema.required schema)
                  (Schema.properties schema) Hproperties
                  ("export interface " ++ sanitizeTypeName (Schema.name schema) ++ " {"
                     ++ Js.nl) [] typeDefinitions) as Hloop.
    destruct (resolveProperties processSchema (Schema.required schema)
                (Schema.properties schema) _ [] typeDefinitions)
      as [[interfaceContent dependencies] typeDefinitions1].
    eapply Extends_trans.
    - eapply Extends_incl; [apply nodeNames_properties|exact Hloop].
    - apply Extends_pushInterface, nodeNames_self. }
  destruct ((Schema.type schema =? "array") && isSome (Schema.items schema)).
  { unfold processArraySchema, processArraySchema_.
    destruct (Schema.items schema) as [child|] eqn:Eitems; [|apply Extends_refl].
    change items with (Schema.items schema) in Hitems. rewrite Eitems in Hitems.
    specialize (Hitems typeDefinitions).
    destruct (processSchema child typeDefinitions) as [itemType typeDefinitions1].
    eapply Extends_trans.
    - eapply Extends_incl; [apply (nodeNames_items schema child Eitems)|exact Hitems].
    - apply Extends_pushType, nodeNames_self. }
  destruct (nonEmpty (Schema.allOf schema)).
  { unfold processAllOfSchema, processAllOfSchema_.
    destruct (Schema.allOf schema) as [members|] eqn:Emembers; [|apply Extends_refl].
    change allOf with (Schema.allOf schema) in HallOf. rewrite Emembers in HallOf.
    pose proof (resolveComponents_extends nodeNames members HallOf [] typeDefinitions)
      as Hloop.
    destruct (resolveComponents processSchema members [] typeDefinitions)
      as [[componentTypes dependencies] typeDefinitions1].
    eapply Extends_trans.
    - eapply Extends_incl; [apply (nodeNames_members schema members); tauto|exact Hloop].
    - apply Extends_pushType, nodeNames_self. }
  destruct (nonEmpty (Schema.oneOf schema)).
  { unfold processOneOfSchema, processOneOfSchema_.
    destruct (Schema.oneOf schema) as [members|] eqn:Emembers; [|apply Extends_refl].
    change oneOf with (Schema.oneOf schema) in HoneOf. rewrite Emembers in HoneOf.
    pose proof (resolveComponents_extends nodeNames members HoneOf [] typeDefinitions)
      as Hloop.
    destruct (resolveComponents processSchema members [] typeDefinitions)
      as [[componentTypes dependencies] typeDefinitions1].
    eapply Extends_trans.
    - eapply Extends_incl; [apply (nodeNames_members schema members); tauto|exact Hloop].
    - apply Extends_pushType, nodeNames_self. }
  destruct (nonEmpty (Schema.anyOf schema)); [|apply Extends_refl].
  unfold processAnyOfSchema, processAnyOfSchema_.
  destruct (Schema.anyOf schema) as [members|] eqn:Emembers; [|apply Extends_refl].
  change anyOf with (Schema.anyOf schema) in HanyOf. rewrite Emembers in HanyOf.
  pose proof (resolveComponents_extends nodeNames members HanyOf [] typeDefinitions)
    as Hloop.
  destruct (resolveComponents processSchema members [] typeDefinitions)
    as [[componentTypes dependencies] typeDefinitions1].
  eapply Extends_trans.
  - eapply Extends_incl; [apply (nodeNames_members schema members); tauto|exact Hloop].
  - apply Extends_pushType, nodeNames_self.
Qed.

Lemma resolveAll_extends (schemas : list (string * ApiSchema))
    (typeDefinitions : TypeDefinitions) :
  Extends (flat_map (fun entry => nodeNames (snd entry)) schemas) typeDefinitions
    (resolveAll schemas typeDefinitions).
Proof.
  revert typeDefinitions. induction schemas as [|entry rest IH]; intros typeDefinitions.
  - apply Extends_refl.
  - cbn [resolveAll fold_left flat_map].
    eapply Extends_trans.
    + eapply Extends_incl; [|apply (processSchema_extends (snd entry))].
      apply incl_appl, incl_refl.
    + eapply Extends_incl; [|apply IH]. apply incl_appr, incl_refl.
Qed.

(** ** C1: the order of the nine cases *)

Lemma declarationCount_push (d : TypeDefinition) (typeDefinitions : TypeDefinitions) :
  declarationCount (Defs.pushInterface d typeDefinitions)
  = S (declarationCount typeDefinitions)
  /\ declarationCount (Defs.pushType d typeDefinitions)
     = S (declarationCount typeDefinitions)
  /\ declarationCount (Defs.pushEnum d typeDefinitions)
     = S (declarationCount typeDefinitions).
Proof.
  unfold declarationCount, Defs.declarations. simpl.
  rewrite !length_app. simpl. repeat split; lia.
Qed.








(** ** The grouping loop *)

Lemma pushedUnder_app (tag : string) (p q : list (string * ApiEndpoint)) :
  pushedUnder tag (p ++ q) = (pushedUnder tag p ++ pushedUnder tag q)%list.
Proof.
  unfold pushedUnder. now rewrite filter_app, map_app.
Qed.

Lemma pushedUnder_absent (tag : string) (pushes : list (string * ApiEndpoint)) :
  ~ In tag (map fst pushes) -> pushedUnder tag pushes = [].
Proof.
  unfold pushedUnder. induction pushes as [|[t e] rest IH]; simpl; intros H.
  - reflexivity.
  - destruct (String.eqb_spec t tag) as [->|_]; [exfalso; apply H; now left|].
    apply IH. intros Hin. apply H. now right.
Qed.

Lemma hasOwn_In (tag : string) (record : TagRecord) :
  hasOwn tag record = true <-> In tag (map fst record).
Proof.
  unfold hasOwn. rewrite existsb_exists, in_map_iff. split.
  - intros (entry & Hin & Heq). apply String.eqb_eq in Heq. now exists entry.
  - intros (entry & Heq & Hin). exists entry. split; [assumption|].
    now apply String.eqb_eq.
Qed.

Lemma pushUnder_keys (tag : string) (endpoint : ApiEndpoint) (record : TagRecord) :
  map fst (pushUnder tag endpoint record) = map fst record.
Proof.
  induction record as [|[key endpoints] rest IH]; simpl; [reflexivity|].
  destruct (key =? tag); simpl; [reflexivity|now rewrite IH].
Qed.

Lemma pushUnder_In (tag : string) (endpoint : ApiEndpoint) (record : TagRecord)
    (key : string) (endpoints : list ApiEndpoint) :
  NoDup (map fst record) ->
  In (key, endpoints) (pushUnder tag endpoint record) ->
  (key <> tag /\ In (key, endpoints) record)
  \/ (key = tag /\ exists before,
        In (tag, before) record /\ endpoints = (before ++ [endpoint])%list).
Proof.
  induction record as [|[k eps] rest IH]; simpl; intros Hnodup Hin; [destruct Hin|].
  inversion Hnodup as [|? ? Hfresh Hrest]; subst.
  destruct (String.eqb_spec k tag) as [->|Hne].
  - destruct Hin as [Hin|Hin].
    + inversion Hin; subst. right. split; [reflexivity|]. exists eps. split; auto.
    + left. split; [|now right].
      intros ->. apply Hfresh. apply in_map_iff. now exists (tag, endpoints).
  - destruct Hin as [Hin|Hin].
    + inversion Hin; subst. left. split; [assumption|now left].
    + destruct (IH Hrest Hin) as [[Hk Hin']|[Hk (before & Hin' & Heq)]].
      * left. split; [assumption|now right].
      * right. split; [assumption|]. exists before. split; [now right|assumption].
Qed.

Lemma addUnderTag_accounts (endpoint : ApiEndpoint) (record record1 : TagRecord)
    (tag : string) (pushes : list (string * ApiEndpoint)) :
  accountsFor record pushes ->
  addUnderTag endpoint record tag = Some record1 ->
  accountsFor record1 (pushes ++ [(tag, endpoint)]).
Proof.
  intros (Hnodup & Hkeys & Hgroups). unfold addUnderTag.
  destruct (hasOwn tag record) eqn:Eown.
  - intros [= <-]. apply hasOwn_In in Eown. repeat split.
    + now rewrite pushUnder_keys.
    + rewrite pushUnder_keys, map_app, in_app_iff. intros H. left. now apply Hkeys.
    + rewrite pushUnder_keys, map_app, in_app_iff. simpl.
      intros [H|[<-|[]]]; [now apply Hkeys|assumption].
    + intros key endpoints Hin. rewrite pushedUnder_app.
      destruct (pushUnder_In _ _ _ _ _ Hnodup Hin)
        as [[Hne Hin']|[-> (before & Hin' & ->)]].
      * rewrite (Hgroups _ _ Hin'). unfold pushedUnder at 3. simpl.
        destruct (String.eqb_spec tag key) as [->|_]; [contradiction|].
        now rewrite app_nil_r.
      * rewrite (Hgroups _ _ Hin'). unfold pushedUnder at 3. simpl.
        now rewrite String.eqb_refl.
  - destruct (includes inheritedKeys tag); [discriminate|].
    intros [= <-].
    assert (Hfresh : ~ In tag (map fst record)).
    { intros H. apply hasOwn_In in H. congruence. }
    repeat split.
    + rewrite map_app. simpl.
      apply Permutation_NoDup with (l := tag :: map fst record).
      * apply Permutation_cons_append.
      * now constructor.
    + rewrite !map_app, !in_app_iff. simpl. rewrite Hkeys. tauto.
    + rewrite !map_app, !in_app_iff. simpl. rewrite Hkeys. tauto.
    + intros key endpoints Hin. rewrite pushedUnder_app.
      apply in_app_iff in Hin. destruct Hin as [Hin|[Hin|[]]].
      * rewrite (Hgroups _ _ Hin). unfold pushedUnder at 3. simpl.
        destruct (String.eqb_spec tag key) as [->|_].
        -- exfalso. apply Hfresh. apply in_map_iff. now exists (key, endpoints).
        -- now rewrite app_nil_r.
      * inversion Hin; subst. rewrite pushedUnder_absent.
        -- unfold pushedUnder. simpl. now rewrite String.eqb_refl.
        -- intros H. apply Hfresh. now apply Hkeys.
Qed.

Lemma addUnderTags_accounts (endpoint : ApiEndpoint) (tags : list string) :
  forall record record1 pushes,
    accountsFor record pushes ->
    addUnderTags endpoint tags record = Some record1 ->
    accountsFor record1 (pushes ++ map (fun tag => (tag, endpoint)) tags).
Proof.
  induction tags as [|tag rest IH]; intros record record1 pushes Hacc; simpl.
  - intros [= <-]. now rewrite app_nil_r.
  - destruct (addUnderTag endpoint record tag) as [record'|] eqn:Estep; [|discriminate].
    intros Hrest.
    replace (pushes ++ (tag, endpoint) :: map (fun tag => (tag, endpoint)) rest)%list
      with ((pushes ++ [(tag, endpoint)]) ++ map (fun tag => (tag, endpoint)) rest)%list
      by now rewrite <- app_assoc.
    eapply IH; [|exact Hrest]. eapply addUnderTag_accounts; eassumption.
Qed.

Lemma groupAll_accounts (allEndpoints : list ApiEndpoint) :
  forall record record1 pushes,
    accountsFor record pushes ->
    groupAll allEndpoints record = Some record1 ->
    accountsFor record1 (pushes ++ pushesOf allEndpoints).
Proof.
  induction allEndpoints as [|endpoint rest IH]; intros record record1 pushes Hacc; simpl.
  - intros [= <-]. now rewrite app_nil_r.
  - destruct (addUnderTags endpoint (tagsOf endpoint) record) as [record'|] eqn:Estep;
      [|discriminate].
    intros Hrest. rewrite app_assoc.
    eapply IH; [|exact Hrest]. eapply addUnderTags_accounts; eassumption.
Qed.

Lemma pushedUnder_one_endpoint (tag : string) (endpoint : ApiEndpoint)
    (tags : list string) :
  pushedUnder tag (map (fun t => (t, endpoint)) tags)
  = repeat endpoint (count_occ string_dec tags tag).
Proof.
  unfold pushedUnder. induction tags as [|t rest IH]; simpl; [reflexivity|].
  destruct (String.eqb_spec t tag) as [->|Hne].
  - destruct (string_dec tag tag) as [_|Hne]; [|contradiction]. simpl. now rewrite IH.
  - destruct (string_dec t tag) as [Heq|_]; [contradiction|]. exact IH.
Qed.

Lemma tagsOf_filedUnder (endpoint : ApiEndpoint) : tagsOf endpoint = filedUnder endpoint.
Proof.
  unfold tagsOf, filedUnder. destruct (Endpoint.tags endpoint); reflexivity.
Qed.

Lemma pushedUnder_groupOf (tag : string) (allEndpoints : list ApiEndpoint) :
  pushedUnder tag (pushesOf allEndpoints) = groupOf tag allEndpoints.
Proof.
  unfold pushesOf, groupOf. induction allEndpoints as [|endpoint rest IH]; simpl.
  - reflexivity.
  - now rewrite pushedUnder_app, pushedUnder_one_endpoint, IH, tagsOf_filedUnder.
Qed.

Lemma pushesOf_tags (tag : string) (allEndpoints : list ApiEndpoint) :
  In tag (map fst (pushesOf allEndpoints)) <->
  exists endpoint, In endpoint allEndpoints /\ In tag (tagsOf endpoint).
Proof.
  unfold pushesOf. rewrite in_map_iff. split.
  - intros ([t e] & Heq & Hin). simpl in Heq. subst t.
    apply in_flat_map in Hin. destruct Hin as (endpoint & Hendpoint & Hpush).
    apply in_map_iff in Hpush. destruct Hpush as (t & Heq & Ht).
    inversion Heq; subst. now exists e.
  - intros (endpoint & Hendpoint & Htag). exists (tag, endpoint). split; [reflexivity|].
    apply in_flat_map. exists endpoint. split; [assumption|].
    apply in_map_iff. now exists tag.
Qed.

Lemma groupOf_In (tag : string) (allEndpoints : list ApiEndpoint)
    (endpoint : ApiEndpoint) :
  In endpoint (groupOf tag allEndpoints) <->
  In endpoint allEndpoints /\ In tag (tagsOf endpoint).
Proof.
  rewrite tagsOf_filedUnder. unfold groupOf. rewrite in_flat_map. split.
  - intros (e & He & Hrepeat). apply repeat_spec in Hrepeat as Heq. subst e.
    split; [assumption|].
    apply (count_occ_In string_dec).
    destruct (count_occ string_dec (filedUnder endpoint) tag); [destruct Hrepeat|lia].
  - intros [Hin Htag]. exists endpoint. split; [assumption|].
    apply (count_occ_In string_dec) in Htag.
    destruct (count_occ string_dec (filedUnder endpoint) tag); [lia|now left].
Qed.

(** *** [Object.entries] reorders the groups and loses none *)

Lemma insertIndexed_permutation {A : Type} (n : N) (entry : string * A)
    (sorted : list (N * (string * A))) :
  Permutation (map snd (insertIndexed n entry sorted)) (entry :: map snd sorted).
Proof.
  induction sorted as [|[m other] rest IH]; simpl; [reflexivity|].
  destruct (n <=? m)%N; simpl; [reflexivity|].
  rewrite IH. apply perm_swap.
Qed.

Lemma filter_partition {A : Type} (p : A -> bool) (l : list A) :
  Permutation (filter p l ++ filter (fun x => negb (p x)) l) l.
Proof.
  induction l as [|x l IH]; simpl; [reflexivity|].
  destruct (p x); simpl.
  - now constructor.
  - rewrite <- Permutation_middle. now constructor.
Qed.

Lemma entries_permutation {A : Type} (record : list (string * A)) :
  Permutation (entries record) record.
Proof.
  unfold entries.
  rewrite <- (filter_partition (fun entry => isSome (arrayIndex (fst entry))) record)
    at 3.
  apply Permutation_app_tail.
  induction record as [|entry rest IH]; simpl; [reflexivity|].
  destruct (arrayIndex (fst entry)) as [n|]; simpl; [|exact IH].
  rewrite insertIndexed_permutation. now constructor.
Qed.

(** ** The generation step *)

Lemma pushApiClasses (groups : list (string * list ApiEndpoint))
    (typeDefinitions : TypeDefinitions) :
  let result :=
    fold_left (fun typeDefinitions entry =>
                 Defs.pushApiClass (apiClassOf entry) typeDefinitions)
      groups typeDefinitions in
  Defs.interfaces result = Defs.interfaces typeDefinitions
  /\ Defs.types result = Defs.types typeDefinitions
  /\ Defs.enums result = Defs.enums typeDefinitions
  /\ Defs.apiClasses result
     = (Defs.apiClasses typeDefinitions ++ map apiClassOf groups)%list.
Proof.
  revert typeDefinitions. induction groups as [|entry rest IH]; intros typeDefinitions.
  - simpl. now rewrite app_nil_r.
  - cbn [fold_left map]. cbv zeta in IH.
    destruct (IH (Defs.pushApiClass (apiClassOf entry) typeDefinitions))
      as (Hi & Ht & He & Ha).
    cbv zeta. rewrite Hi, Ht, He, Ha. simpl. now rewrite <- app_assoc.
Qed.

Lemma generateTypeDefinitions_some (parsedSpec : ParsedSpec)
    (typeDefinitions : TypeDefinitions) :
  generateTypeDefinitions parsedSpec = Some typeDefinitions ->
  let resolved := resolveAll (Spec.schemas (Spec.components parsedSpec)) Defs.empty in
  exists endpointsByTag,
    groupEndpointsByTag parsedSpec = Some endpointsByTag
    /\ Defs.interfaces typeDefinitions = Defs.interfaces resolved
    /\ Defs.types typeDefinitions = Defs.types resolved
    /\ Defs.enums typeDefinitions = Defs.enums resolved
    /\ Defs.apiClasses typeDefinitions = map apiClassOf (entries endpointsByTag).
Proof.
  intros Hrun resolved. unfold generateTypeDefinitions in Hrun.
  fold resolved in Hrun.
  destruct (groupEndpointsByTag parsedSpec) as [endpointsByTag|]; [|discriminate].
  exists endpointsByTag. injection Hrun as <-.
  destruct (pushApiClasses (entries endpointsByTag) resolved) as (Hi & Ht & He & Ha).
  repeat split; try assumption.
  rewrite Ha.
  destruct (resolveAll_extends (Spec.schemas (Spec.components parsedSpec)) Defs.empty)
    as (_ & _ & _ & _ & _ & _ & Hclasses & _).
  fold resolved in Hclasses. now rewrite Hclasses.
Qed.

(** ** C8: one client declaration per tag *)

Lemma occursIn_left (part a b : string) : occursIn part a -> occursIn part (a ++ b).
Proof.
  intros (before & after & ->). exists before, (after ++ b).
  now rewrite !append_assoc.
Qed.

Lemma occursIn_right (part a b : string) : occursIn part b -> occursIn part (a ++ b).
Proof.
  intros (before & after & ->). exists (a ++ before), after.
  now rewrite !append_assoc.
Qed.

Lemma occursIn_here (part before after : string) :
  occursIn part (before ++ part ++ after).
Proof.
  now exists before, after.
Qed.

Lemma occursIn_fold {A : Type} (f : string -> A -> string) (part : string) (l : list A) :
  (forall content x, exists added, f content x = content ++ added) ->
  forall content, occursIn part content -> occursIn part (fold_left f l content).
Proof.
  intros Hf. induction l as [|x l IH]; intros content Hin; [exact Hin|].
  cbn [fold_left]. apply IH. destruct (Hf content x) as (added & ->).
  now apply occursIn_left.
Qed.

Ltac appended :=
  intros;
  repeat match goal with
         | |- context [if ?b then _ else _] => destruct b
         end;
  eexists; reflexivity.

(** the text of a method holds its head *)
Lemma generateEndpointMethod_head (endpoint : ApiEndpoint) :
  occursIn (methodHead endpoint) (generateEndpointMethod endpoint).
Proof.
  unfold generateEndpointMethod, methodHead. cbv zeta.
  repeat first
    [ match goal with
      | |- occursIn (?a ++ ?b ++ ?c) (?before ++ ?a ++ ?b ++ ?c ++ ?after) =>
          exists before, after; now rewrite !append_assoc
      end
    | apply occursIn_left
    | apply occursIn_fold; [appended|]
    | match goal with
      | |- occursIn _ (if ?b then _ else _) => destruct b
      end ].
Qed.

Lemma generateApiClass_text (tag : string) (endpoints : list ApiEndpoint) :
  apiClassOf (tag, endpoints) = clientDeclaration tag endpoints.
Proof.
  unfold apiClassOf, clientDeclaration, generateApiClass. cbn [fst snd]. cbv zeta.
  f_equal.
  match goal with
  | |- fold_left ?f endpoints ?start ++ _ = _ =>
      assert (Hloop : forall content,
                 fold_left f endpoints content
                 = content
                   ++ String.concat ""
                        (map (fun endpoint => generateEndpointMethod endpoint ++ Js.nl)
                           endpoints))
  end.
  { induction endpoints as [|endpoint rest IH]; intros content.
    - cbn. now rewrite append_empty_r.
    - cbn [fold_left map]. rewrite IH, concat_cons. now rewrite !append_assoc. }
  rewrite Hloop. now rewrite !append_assoc.
Qed.

Lemma occursIn_concat (part : string) (f : ApiEndpoint -> string)
    (endpoints : list ApiEndpoint) (endpoint : ApiEndpoint) :
  In endpoint endpoints ->
  occursIn part (f endpoint) ->
  occursIn part (String.concat "" (map f endpoints)).
Proof.
  intros Hin Hpart. induction endpoints as [|first rest IH]; [destruct Hin|].
  cbn [map]. rewrite concat_cons. destruct Hin as [->|Hin].
  - now apply occursIn_left.
  - apply occursIn_right. now apply IH.
Qed.

(** C8 (as amended).  For every parsed specification on which the generation
    returns: the client declarations are those of the groups, one per tag,
    each named [toPascalCase tag ++ "Api"], a class that holds in order the
    method of each endpoint of its group and so the head of each, and without
    dependencies; the tags of the groups are pairwise distinct and are
    exactly the tags the endpoints are filed under, [default] alone for an
    endpoint that has none; and the group of a tag holds every endpoint of
    the specification, in order, once for each occurrence of the tag among
    the tags it is filed under, so that an endpoint is in the group of a tag
    exactly when it is filed under the tag. *)
Theorem tag_replication (parsedSpec : ParsedSpec) (typeDefinitions : TypeDefinitions) :
  generateTypeDefinitions parsedSpec = Some typeDefinitions ->
  exists endpointsByTag,
    groupEndpointsByTag parsedSpec = Some endpointsByTag
    /\ Defs.apiClasses typeDefinitions
       = map (fun entry => clientDeclaration (fst entry) (snd entry))
           (entries endpointsByTag)
    /\ Permutation (entries endpointsByTag) endpointsByTag
    /\ NoDup (map fst endpointsByTag)
    /\ (forall tag,
          In tag (map fst endpointsByTag) <->
          exists endpoint,
            In endpoint (allEndpointsOf parsedSpec) /\ In tag (filedUnder endpoint))
    /\ (forall tag endpoints,
          In (tag, endpoints) endpointsByTag ->
          endpoints = groupOf tag (allEndpointsOf parsedSpec)
          /\ (forall endpoint,
                In endpoint endpoints <->
                In endpoint (allEndpointsOf parsedSpec)
                /\ In tag (filedUnder endpoint))
          /\ (forall endpoint,
                In endpoint endpoints ->
                occursIn (methodHead endpoint)
                  (Decl.content (clientDeclaration tag endpoints)))).
Proof.
  intros Hrun.
  destruct (generateTypeDefinitions_some _ _ Hrun)
    as (endpointsByTag & Hgroups & _ & _ & _ & Hclasses).
  exists endpointsByTag.
  assert (Hempty : accountsFor [] []).
  { repeat split; simpl; try tauto. constructor. }
  destruct (groupAll_accounts _ _ _ _ Hempty Hgroups) as (Hnodup & Hkeys & Hgroup).
  simpl in Hkeys, Hgroup.
  split; [assumption|]. split.
  { rewrite Hclasses. apply map_ext. intros [tag endpoints].
    apply generateApiClass_text. }
  split; [apply entries_permutation|]. split; [assumption|]. split.
  - intros tag. rewrite Hkeys, pushesOf_tags. split.
    + intros (endpoint & Hin & Htag). exists endpoint.
      now rewrite <- tagsOf_filedUnder.
    + intros (endpoint & Hin & Htag). exists endpoint.
      now rewrite tagsOf_filedUnder.
  - intros tag endpoints Hin.
    rewrite (Hgroup _ _ Hin), pushedUnder_groupOf.
    split; [reflexivity|]. split.
    + intros endpoint. rewrite <- tagsOf_filedUnder. apply groupOf_In.
    + intros endpoint Hendpoint. unfold clientDeclaration. cbv zeta.
      cbn [Decl.content].
      do 14 apply occursIn_right.
      apply occursIn_left.
      apply (occursIn_concat _ _ _ endpoint Hendpoint).
      apply occursIn_left, generateEndpointMethod_head.
Qed.

Lemma tag_replication_witness :
  let endpoint := Sample.endpoint "getPet" None ["A"; "B"] in
  let untagged := Sample.endpoint "listPets" None [] in
  let parsedSpec := Sample.spec [endpoint; untagged] [] in
  let groups := [("A", [endpoint]); ("B", [endpoint]); ("default", [untagged])] in
  let typeDefinitions :=
    Defs.mk [] [] []
      (map (fun entry => clientDeclaration (fst entry) (snd entry)) groups) in
  generateTypeDefinitions parsedSpec = Some typeDefinitions
  /\ map Decl.name (Defs.apiClasses typeDefinitions) = ["AApi"; "BApi"; "DefaultApi"]
  /\ exists endpointsByTag,
       groupEndpointsByTag parsedSpec = Some endpointsByTag
       /\ Defs.apiClasses typeDefinitions
          = map (fun entry => clientDeclaration (fst entry) (snd entry))
              (entries endpointsByTag)
       /\ Permutation (entries endpointsByTag) endpointsByTag
       /\ NoDup (map fst endpointsByTag)
       /\ (forall tag,
             In tag (map fst endpointsByTag) <->
             exists endpoint,
               In endpoint (allEndpointsOf parsedSpec) /\ In tag (filedUnder endpoint))
       /\ (forall tag endpoints,
             In (tag, endpoints) endpointsByTag ->
             endpoints = groupOf tag (allEndpointsOf parsedSpec)
             /\ (forall endpoint,
                   In endpoint endpoints <->
                   In endpoint (allEndpointsOf parsedSpec)
                   /\ In tag (filedUnder endpoint))
             /\ (forall endpoint,
                   In endpoint endpoints ->
                   occursIn (methodHead endpoint)
                     (Decl.content (clientDeclaration tag endpoints)))).
Proof.
  intros endpoint untagged parsedSpec groups typeDefinitions.
  split; [vm_compute; reflexivity|]. split; [reflexivity|].
  apply (tag_replication parsedSpec typeDefinitions). vm_compute. reflexivity.
Defined.

(** C8 (as stated) fails when a tag is repeated.  An endpoint tagged
    [["A", "A"]] has two tags, and there is one client declaration, [AApi],
    in whose group it is twice.  The name of a declaration is the Pascal
    case of the tag, not the tag with a capital: the tag [pet-store] gives
    [PetStoreApi].  And on a tag that names an inherited property the
    generation returns no declaration at all. *)
Lemma tag_replication_repeated_tag :
  (let endpoint := Sample.endpoint "getPet" None ["A"; "A"] in
   List.length (Endpoint.tags endpoint) = 2
   /\ groupEndpointsByTag (Sample.spec [endpoint] [])
      = Some [("A", [endpoint; endpoint])]
   /\ exists typeDefinitions,
        generateTypeDefinitions (Sample.spec [endpoint] []) = Some typeDefinitions
        /\ map Decl.name (Defs.apiClasses typeDefinitions) = ["AApi"]
        /\ List.length (Defs.apiClasses typeDefinitions) <> 2)
  /\ (exists typeDefinitions,
        generateTypeDefinitions
          (Sample.spec [Sample.endpoint "getPet" None ["pet-store"]] [])
        = Some typeDefinitions
        /\ map Decl.name (Defs.apiClasses typeDefinitions) = ["PetStoreApi"])
  /\ generateTypeDefinitions
       (Sample.spec [Sample.endpoint "getPet" None ["constructor"]] [])
     = None.
Proof.
  split; [|split].
  - split; [reflexivity|]. split; [reflexivity|].
    eexists. split; [vm_compute; reflexivity|]. split; [reflexivity|].
    simpl. discriminate.
  - eexists. split; [vm_compute; reflexivity|]. reflexivity.
  - reflexivity.
Qed.

(** a tag that names a property every object inherits ends the run *)
Example generateTypeDefinitions_inherited_key :
  generateTypeDefinitions (Sample.spec [Sample.endpoint "getPet" None ["constructor"]] [])
  = None.
Proof.
  reflexivity.
Qed.

(** ** The normalizer *)

Lemma parseSchema_name (schema : RawSchema.t) (name : string) :
  Schema.name (parseSchema schema name) = name.
Proof.
  destruct schema as [type format enum nullable properties required items allOf oneOf
                        anyOf ref].
  cbn [parseSchema RawSchema.ref]. destruct (whenTruthy ref); reflexivity.
Qed.

(** a parsed schema always has a type: the scalar fallback never returns
    [any] for it *)
Lemma parseSchema_type (schema : RawSchema.t) (name : string) :
  Js.truthy (Schema.type (parseSchema schema name)) = true.
Proof.
  destruct schema as [type format enum nullable properties required items allOf oneOf
                        anyOf ref].
  assert (Htype : Js.truthy
                    (orText type (if isSome enum then "enum" else "object")) = true).
  { unfold orText, whenTruthy. destruct type as [[|c t]|]; simpl;
      try reflexivity; destruct enum; reflexivity. }
  cbn [parseSchema RawSchema.ref RawSchema.type RawSchema.enum].
  destruct (whenTruthy ref); exact Htype.
Qed.

Lemma parseSchema_reference (schema : RawSchema.t) (name ref : string) :
  whenTruthy (RawSchema.ref schema) = Some ref ->
  parseSchema schema name
  = Schema.mk name
      (orText (RawSchema.type schema)
         (if isSome (RawSchema.enum schema) then "enum" else "object"))
      (RawSchema.format schema) (RawSchema.enum schema)
      (orFalse (RawSchema.nullable schema)) [] (orNone (RawSchema.required schema))
      None None None None (Some (lastSegment ref)).
Proof.
  intros Eref. destruct schema. cbn [parseSchema RawSchema.ref] in *.
  now rewrite Eref.
Qed.

(** ** C7: the scalar table *)

(** C7.  For every type and format, with the type name compared in lower
    case: [integer] and [number] give [number], or [bigint] when the format
    is [int64]; [string] gives [Date] for the formats [date] and
    [date-time], [Blob] for [binary], [string] otherwise; [boolean] gives
    [boolean]; [array] gives [any[]]; [object] and every other type name give
    [Record<string, any>], and so does a schema whose type the document
    leaves unspecified, which the normalizer parses with the type [object]
    or [enum].  The type of a parsed schema is never empty.  The table is
    what the resolver returns, with the accumulator unchanged, for every node
    that reaches the scalar case. *)
Theorem scalar_mapping_table (type : string) (format : option string) :
  let lowered := Js.toLowerCase type in
  (lowered = "integer" \/ lowered = "number" ->
   (format = Some "int64" -> toTsType (Some type) format = "bigint")
   /\ (format <> Some "int64" -> toTsType (Some type) format = "number"))
  /\ (lowered = "string" ->
      (format = Some "date" \/ format = Some "date-time" ->
       toTsType (Some type) format = "Date")
      /\ (format = Some "binary" -> toTsType (Some type) format = "Blob")
      /\ (format <> Some "date" -> format <> Some "date-time" ->
          format <> Some "binary" -> toTsType (Some type) format = "string"))
  /\ (lowered = "boolean" -> toTsType (Some type) format = "boolean")
  /\ (lowered = "array" -> toTsType (Some type) format = "any[]")
  /\ (lowered = "object" -> toTsType (Some type) format = "Record<string, any>")
  /\ (type <> "" ->
      ~ In lowered ["integer"; "number"; "string"; "boolean"; "array"] ->
      toTsType (Some type) format = "Record<string, any>")
  /\ (forall schema name,
        whenTruthy (RawSchema.type schema) = None ->
        toTsType (Some (Schema.type (parseSchema schema name)))
          (Schema.format (parseSchema schema name))
        = "Record<string, any>")
  /\ (forall param schema,
        RawParameter.schema param = Some schema ->
        whenTruthy (RawSchema.type schema) = None ->
        parameterType (parseParameter param) = "Record<string, any>")
  /\ (forall schema name, Schema.type (parseSchema schema name) <> "")
  /\ (forall schema typeDefinitions,
        shapeOf schema typeDefinitions = ScalarFallback ->
        processSchema schema typeDefinitions
        = (toTsType (Some (Schema.type schema)) (Schema.format schema), typeDefinitions)).
Proof.
  intros lowered. subst lowered.
  split; [intros H; split; intros Eformat|].
  { apply formatIs_true in Eformat.
    destruct H as [H|H]; scalar_row H; now rewrite Eformat. }
  { apply formatIs_false in Eformat.
    destruct H as [H|H]; scalar_row H; now rewrite Eformat. }
  split; [intros H; split; [|split]|].
  { intros [Eformat|Eformat]; apply formatIs_true in Eformat; scalar_row H;
      rewrite Eformat; [reflexivity|now rewrite orb_true_r]. }
  { intros Eformat. scalar_row H. subst format. reflexivity. }
  { intros E1 E2 E3. apply formatIs_false in E1, E2, E3. scalar_row H.
    now rewrite E1, E2, E3. }
  split; [intros H; scalar_row H; reflexivity|].
  split; [intros H; scalar_row H; reflexivity|].
  split; [intros H; scalar_row H; reflexivity|].
  split.
  { intros Htype Hother. unfold toTsType.
    assert (Htruthy : Js.truthy type = true) by (destruct type; simpl; congruence).
    rewrite Htruthy. cbn [negb]. cbv zeta.
    repeat match goal with
           | |- context [(Js.toLowerCase type =? ?s)] =>
               destruct (String.eqb_spec (Js.toLowerCase type) s) as [E|_];
               [exfalso; apply Hother; rewrite E; simpl; tauto|]
           end.
    reflexivity. }
  assert (Hunspecified : forall schema name,
             whenTruthy (RawSchema.type schema) = None ->
             toTsType (Some (Schema.type (parseSchema schema name)))
               (Schema.format (parseSchema schema name))
             = "Record<string, any>").
  { intros schema name Etype.
    assert (Hparsed : Schema.type (parseSchema schema name)
                      = if isSome (RawSchema.enum schema) then "enum" else "object").
    { destruct schema as [rawType rawFormat enum nullable properties required items
                            allOf oneOf anyOf ref].
      cbn [RawSchema.type RawSchema.enum] in *.
      cbn [parseSchema RawSchema.ref RawSchema.type RawSchema.enum].
      unfold orText. rewrite Etype. destruct (whenTruthy ref); reflexivity. }
    rewrite Hparsed. destruct (isSome (RawSchema.enum schema)); reflexivity. }
  split; [exact Hunspecified|].
  split.
  { intros param schema Eschema Etype. unfold parameterType, parseParameter.
    cbn [Param.schema]. rewrite Eschema. now apply Hunspecified. }
  split.
  { intros schema name Etype. pose proof (parseSchema_type schema name) as Htruthy.
    rewrite Etype in Htruthy. discriminate. }
  intros schema typeDefinitions Hshape.
  past_lookup schema typeDefinitions Hshape. reflexivity.
Qed.

Lemma scalar_mapping_table_witness :
  toTsType (Some "integer") (Some "int64") = "bigint"
  /\ toTsType (Some "number") None = "number"
  /\ toTsType (Some "string") (Some "date-time") = "Date"
  /\ toTsType (Some "string") (Some "binary") = "Blob"
  /\ toTsType (Some "String") (Some "uuid") = "string"
  /\ toTsType (Some "boolean") None = "boolean"
  /\ toTsType (Some "array") None = "any[]"
  /\ toTsType (Some "object") None = "Record<string, any>"
  /\ toTsType (Some "file") None = "Record<string, any>"
  /\ (let unspecified := parseSchema (Sample.raw None) "Anything" in
      toTsType (Some (Schema.type unspecified)) (Schema.format unspecified)
      = "Record<string, any>")
  /\ processSchema (Sample.plain "Age" "integer") Defs.empty = ("number", Defs.empty).
Proof.
  split.
  { destruct (scalar_mapping_table "integer" (Some "int64")) as (Hrow & _).
    apply Hrow; [now left|reflexivity]. }
  split.
  { destruct (scalar_mapping_table "number" None) as (Hrow & _).
    apply Hrow; [now right|discriminate]. }
  split.
  { destruct (scalar_mapping_table "string" (Some "date-time")) as (_ & Hrow & _).
    apply Hrow; [reflexivity|now right]. }
  split.
  { destruct (scalar_mapping_table "string" (Some "binary")) as (_ & Hrow & _).
    apply Hrow; reflexivity. }
  split.
  { destruct (scalar_mapping_table "String" (Some "uuid")) as (_ & Hrow & _).
    apply Hrow; [reflexivity|discriminate..]. }
  split.
  { destruct (scalar_mapping_table "boolean" None) as (_ & _ & Hrow & _).
    apply Hrow; reflexivity. }
  split.
  { destruct (scalar_mapping_table "array" None) as (_ & _ & _ & Hrow & _).
    apply Hrow; reflexivity. }
  split.
  { destruct (scalar_mapping_table "object" None) as (_ & _ & _ & _ & Hrow & _).
    apply Hrow; reflexivity. }
  split.
  { destruct (scalar_mapping_table "file" None) as (_ & _ & _ & _ & _ & Hrow & _).
    apply Hrow; [discriminate|].
    simpl. intros H. repeat (destruct H as [H|H]; [discriminate|]). exact H. }
  split.
  { destruct (scalar_mapping_table "object" None) as (_ & _ & _ & _ & _ & _ & Hrow & _).
    apply (Hrow (Sample.raw None) "Anything"). reflexivity. }
  destruct (scalar_mapping_table "integer" None)
    as (_ & _ & _ & _ & _ & _ & _ & _ & _ & Hrow).
  apply (Hrow (Sample.plain "Age" "integer") Defs.empty). reflexivity.
Defined.

(** ** C5: [oneOf] and [anyOf] over the same members *)

Lemma processOneOf_processAnyOf (schema : ApiSchema) (members : list ApiSchema)
    (typeDefinitions : TypeDefinitions) :
  processOneOfSchema (withOneOf schema members) typeDefinitions
  = processAnyOfSchema (withAnyOf schema members) typeDefinitions.
Proof.
  reflexivity.
Qed.









(** through the normalizer, with members that are references *)
Example oneOf_anyOf_of_references :
  let members := [Sample.rawReference "#/definitions/Cat";
                  Sample.rawReference "#/definitions/Dog"] in
  let oneOf :=
    RawSchema.mk (Some "string") None None None None None None None (Some members) None
      None in
  let anyOf :=
    RawSchema.mk (Some "string") None None None None None None None None (Some members)
      None in
  processSchema (parseSchema oneOf "Pet") Defs.empty
  = processSchema (parseSchema anyOf "Pet") Defs.empty
  /\ map Decl.content (Defs.types (snd (processSchema (parseSchema oneOf "Pet") Defs.empty)))
     = ["export type Pet = Cat | Dog;"].
Proof.
  split; reflexivity.
Qed.

(** the text both compositions of the sample emit *)
Example oneOf_anyOf_sample_text :
  let members := [Sample.object "Cat" []; Sample.referenceTo "PetDog" "Dog"] in
  map Decl.content
    (Defs.types (snd (processSchema (withAnyOf (Sample.plain "Pet" "string") members)
                        Defs.empty)))
  = ["export type Pet = Cat | Dog;"].
Proof.
  reflexivity.
Qed.

Lemma parseEndpoint_stored_names (path method : string) (operation : RawOperation.t) :
  let endpoint := parseEndpoint path method operation in
  (forall body schema,
      Endpoint.requestBody endpoint = Some body ->
      Body.schema body = Some schema ->
      Schema.name schema = requestSchemaName (Endpoint.operationId endpoint))
  /\ (forall statusCode response schema,
        In (statusCode, response) (Endpoint.responses endpoint) ->
        Response.schema response = Some schema ->
        Schema.name schema
        = responseSchemaName (Endpoint.operationId endpoint) statusCode).
Proof.
  intros endpoint. subst endpoint. unfold parseEndpoint. cbv zeta.
  cbn [Endpoint.requestBody Endpoint.operationId Endpoint.responses].
  split.
  - intros body schema Hbody Hschema.
    destruct (RawOperation.requestBody operation) as [requestBody|]; [|discriminate].
    destruct (RawBody.content requestBody) as [content|]; [|discriminate].
    destruct (firstContent content) as [[contentType media]|]; [|discriminate].
    destruct (RawMedia.schema media) as [raw|]; [|discriminate].
    injection Hbody as <-. cbn [Body.schema] in Hschema. injection Hschema as <-.
    apply parseSchema_name.
  - intros statusCode response schema Hin Hschema.
    destruct (RawOperation.responses operation) as [responses|]; [|destruct Hin].
    unfold assigned in Hin. apply filter_In in Hin. destruct Hin as [Hin _].
    apply in_map_iff in Hin. destruct Hin as ([status raw] & Heq & _).
    unfold parseResponse in Heq. cbv zeta in Heq. cbn [fst snd] in Heq.
    injection Heq as <- <-. cbn [Response.schema] in Hschema.
    destruct (RawResponse.content raw) as [content|].
    + destruct (firstContent content) as [[contentType media]|]; [|discriminate].
      destruct (RawMedia.schema media) as [rawSchema|]; [|discriminate].
      injection Hschema as <-. apply parseSchema_name.
    + destruct (RawResponse.schema raw) as [rawSchema|]; [|discriminate].
      injection Hschema as <-. apply parseSchema_name.
Qed.

(** ** C9: the declarations come from the component schemas alone *)

(** C9 (as amended).  The normalizer stores the schema of a request body in
    the endpoint under the name [{operationId}Request] and the schema of a
    response under [{operationId}Response{statusCode}].  For every parsed
    specification on which the generation returns, the structural, alias and
    enumerated declarations are those of resolving the component schemas in
    order from the empty accumulator: they are the same for every
    specification with the same component schemas, whatever its paths,
    request bodies and responses; and each of them bears the sanitized name
    of a node of a component schema. *)
Theorem declarations_from_components :
  (forall path method operation,
      Forall (fun schema =>
                exists statusCode,
                  Schema.name schema
                  = requestSchemaName
                      (Endpoint.operationId (parseEndpoint path method operation))
                  \/ Schema.name schema
                     = responseSchemaName
                         (Endpoint.operationId (parseEndpoint path method operation))
                         statusCode)
        (storedSchemas (parseEndpoint path method operation)))
  /\ (forall parsedSpec typeDefinitions,
        generateTypeDefinitions parsedSpec = Some typeDefinitions ->
        Defs.declarations typeDefinitions
        = Defs.declarations
            (resolveAll (Spec.schemas (Spec.components parsedSpec)) Defs.empty)
        /\ (forall otherSpec otherDefinitions,
              Spec.components otherSpec = Spec.components parsedSpec ->
              generateTypeDefinitions otherSpec = Some otherDefinitions ->
              Defs.interfaces otherDefinitions = Defs.interfaces typeDefinitions
              /\ Defs.types otherDefinitions = Defs.types typeDefinitions
              /\ Defs.enums otherDefinitions = Defs.enums typeDefinitions)
        /\ (forall declaration,
              In declaration (Defs.declarations typeDefinitions) ->
              exists entry node,
                In entry (Spec.schemas (Spec.components parsedSpec))
                /\ In node (nodes (snd entry))
                /\ Decl.name declaration = sanitizeTypeName (Schema.name node))).
Proof.
  split.
  { intros path method operation.
    destruct (parseEndpoint_stored_names path method operation) as [Hrequest Hresponse].
    unfold storedSchemas. apply Forall_app. split.
    - destruct (Endpoint.requestBody _) as [body|] eqn:Ebody; [|constructor].
      destruct (Body.schema body) as [schema|] eqn:Eschema; [|constructor].
      constructor; [|constructor]. exists "". left. now apply (Hrequest body).
    - apply Forall_forall. intros schema Hin. apply in_flat_map in Hin.
      destruct Hin as ([statusCode response] & Hin & Hschema). cbn [snd] in Hschema.
      destruct (Response.schema response) as [stored|] eqn:Estored; [|destruct Hschema].
      destruct Hschema as [<-|[]]. exists statusCode. right.
      now apply (Hresponse statusCode response). }
  intros parsedSpec typeDefinitions Hrun.
  destruct (generateTypeDefinitions_some _ _ Hrun) as (_ & _ & Hi & Ht & He & _).
  assert (Hsame : Defs.declarations typeDefinitions
                  = Defs.declarations
                      (resolveAll (Spec.schemas (Spec.components parsedSpec)) Defs.empty)).
  { unfold Defs.declarations. now rewrite Hi, Ht, He. }
  split; [exact Hsame|]. split.
  - intros otherSpec otherDefinitions Hcomponents Hother.
    destruct (generateTypeDefinitions_some _ _ Hother) as (_ & _ & Hi' & Ht' & He' & _).
    rewrite Hcomponents in Hi', Ht', He'. now rewrite Hi, Ht, He, Hi', Ht', He'.
  - intros declaration Hin. rewrite Hsame in Hin.
    destruct (Extends_declarations _ _ _ declaration
                (resolveAll_extends (Spec.schemas (Spec.components parsedSpec)) Defs.empty)
                Hin) as [Hnone|Hname].
    + destruct Hnone.
    + apply in_flat_map in Hname. destruct Hname as (entry & Hentry & Hname).
      unfold nodeNames in Hname. apply in_map_iff in Hname.
      destruct Hname as (node & Heq & Hnode).
      exists entry, node. repeat split; [assumption..|now symmetry].
Qed.

Lemma declarations_from_components_witness :
  let document :=
    Sample.openapi (Sample.operationWithBody "addPet" (Sample.raw (Some "object")))
      [("Pet", Sample.rawObject [("id", Sample.raw (Some "integer"))])] in
  let parsedSpec := parseSwaggerSpec document in
  let typeDefinitions :=
    Defs.mk (Defs.interfaces
               (resolveAll (Spec.schemas (Spec.components parsedSpec)) Defs.empty))
      [] [] (map apiClassOf [("default", allEndpointsOf parsedSpec)]) in
  generateTypeDefinitions parsedSpec = Some typeDefinitions
  /\ storedSchemaNames parsedSpec = ["addPetRequest"]
  /\ declaredNames typeDefinitions = ["Pet"]
  /\ (forall declaration,
        In declaration (Defs.declarations typeDefinitions) ->
        exists entry node,
          In entry (Spec.schemas (Spec.components parsedSpec))
          /\ In node (nodes (snd entry))
          /\ Decl.name declaration = sanitizeTypeName (Schema.name node)).
Proof.
  intros document parsedSpec typeDefinitions.
  split; [reflexivity|]. split; [reflexivity|]. split; [reflexivity|].
  destruct declarations_from_components as [_ Hgenerated].
  apply (Hgenerated parsedSpec typeDefinitions). reflexivity.
Defined.

(** C9 (as stated) fails when a component schema bears the name the
    normalizer gives to a request body.  In the document with the operation
    [getPet], whose request body schema is stored as [getPetRequest], and
    the component schema [getPetRequest], a declaration of that name is
    emitted. *)
Lemma declarations_from_components_same_name :
  let document :=
    Sample.openapi (Sample.operationWithBody "getPet" (Sample.raw (Some "object")))
      [("getPetRequest", Sample.raw (Some "object"))] in
  let parsedSpec := parseSwaggerSpec document in
  storedSchemaNames parsedSpec = ["getPetRequest"]
  /\ exists typeDefinitions,
       generateTypeDefinitions parsedSpec = Some typeDefinitions
       /\ ~ (forall name,
               In name (storedSchemaNames parsedSpec) ->
               ~ In name (declaredNames typeDefinitions)).
Proof.
  split; [reflexivity|].
  eexists. split; [vm_compute; reflexivity|].
  intros Hnever. apply (Hnever "getPetRequest"); now left.
Qed.

(** ** C10: a client declaration lists no dependency *)

(** C10.  For every parsed specification on which the generation returns,
    every client declaration has an empty sequence of dependencies. *)
Theorem apiClasses_no_dependencies (parsedSpec : ParsedSpec)
    (typeDefinitions : TypeDefinitions) :
  generateTypeDefinitions parsedSpec = Some typeDefinitions ->
  Forall (fun apiClass => Decl.dependencies apiClass = [])
    (Defs.apiClasses typeDefinitions).
Proof.
  intros Hrun.
  destruct (generateTypeDefinitions_some _ _ Hrun)
    as (endpointsByTag & _ & _ & _ & _ & Hclasses).
  rewrite Hclasses. apply Forall_map, Forall_forall. reflexivity.
Qed.

Lemma apiClasses_no_dependencies_witness :
  let parameter :=
    Param.mk "pet" "query" true "" (Some (Sample.referenceTo "pet" "Pet")) in
  let body := Body.mk true "application/json" (Some (Sample.referenceTo "body" "Pet")) in
  let endpoint :=
    Endpoint.mk "/pets" "post" "addPet" "" "" [parameter] (Some body)
      [("200", Response.mk "" (Some (Sample.referenceTo "addPetResponse200" "Pet")))]
      ["pet"] in
  let parsedSpec :=
    Spec.mk (Spec.mkInfo "API" "1.0.0" "") [] "" [("/pets", Path.mk [endpoint])]
      (Spec.mkComponents []) in
  let typeDefinitions := Defs.mk [] [] [] [apiClassOf ("pet", [endpoint])] in
  generateTypeDefinitions parsedSpec = Some typeDefinitions
  /\ Forall (fun apiClass => Decl.dependencies apiClass = [])
       (Defs.apiClasses typeDefinitions).
Proof.
  intros parameter body endpoint parsedSpec typeDefinitions.
  split; [reflexivity|].
  apply (apiClasses_no_dependencies parsedSpec typeDefinitions). reflexivity.
Defined.

(** * Further properties of the code *)

(** ** Characters *)

Lemma upperChar_twice (c : ascii) : Js.upperChar (Js.upperChar c) = Js.upperChar c.
Proof. each_ascii c. Qed.

Lemma upperChar_of_upper (c : ascii) :
  implb (Js.isUpper c) (Ascii.eqb (Js.upperChar c) c) = true.
Proof. each_ascii c. Qed.

Lemma lowerChar_not_upper (c : ascii) : Js.isUpper (Js.lowerChar c) = false.
Proof. each_ascii c. Qed.

Lemma lowerChar_of_other (c : ascii) :
  implb (negb (Js.isUpper c)) (Ascii.eqb (Js.lowerChar c) c) = true.
Proof. each_ascii c. Qed.

Lemma upperChar_notDelimiter (c : ascii) :
  implb (notDelimiter c) (notDelimiter (Js.upperChar c)) = true.
Proof. each_ascii c. Qed.

Lemma lowerChar_notDelimiter (c : ascii) :
  implb (notDelimiter c) (notDelimiter (Js.lowerChar c)) = true.
Proof. each_ascii c. Qed.

Lemma upperChar_word (c : ascii) :
  implb (Js.isWord c) (Js.isWord (Js.upperChar c)) = true.
Proof. each_ascii c. Qed.

Lemma lowerChar_word (c : ascii) :
  implb (Js.isWord c) (Js.isWord (Js.lowerChar c)) = true.
Proof. each_ascii c. Qed.

Lemma word_or_space_not_delimiter (c : ascii) :
  implb ((Js.isWord c || Js.isSpace c) && notDelimiter c) (Js.isWord c) = true.
Proof. each_ascii c. Qed.

Lemma upper_is_word (c : ascii) : implb (Js.isUpper c) (Js.isWord c) = true.
Proof. each_ascii c. Qed.

Lemma lower_is_word (c : ascii) : implb (Js.isLower c) (Js.isWord c) = true.
Proof. each_ascii c. Qed.

Lemma upper_not_lower (c : ascii) : implb (Js.isUpper c) (negb (Js.isLower c)) = true.
Proof. each_ascii c. Qed.

Lemma implb_elim (a b : bool) : implb a b = true -> a = true -> b = true.
Proof. destruct a, b; simpl; congruence. Qed.

(** ** Strings, character by character *)

Lemma allChars_append (p : ascii -> bool) (a b : string) :
  allChars p (a ++ b) = allChars p a && allChars p b.
Proof.
  induction a as [|c a IH]; simpl; [reflexivity|]. now rewrite IH, andb_assoc.
Qed.

Lemma allChars_impl (p q : ascii -> bool) (s : string) :
  (forall c, p c = true -> q c = true) -> allChars p s = true -> allChars q s = true.
Proof.
  intros Hpq. induction s as [|c s IH]; simpl; [reflexivity|].
  rewrite !andb_true_iff. intros [Hc Hs]. split; [now apply Hpq|now apply IH].
Qed.

Lemma allChars_smap (p q : ascii -> bool) (f : ascii -> ascii) (s : string) :
  (forall c, p c = true -> q (f c) = true) ->
  allChars p s = true -> allChars q (Js.smap f s) = true.
Proof.
  intros Hf. induction s as [|c s IH]; simpl; [reflexivity|].
  rewrite !andb_true_iff. intros [Hc Hs]. split; [now apply Hf|now apply IH].
Qed.

Lemma allChars_sfilter (p : ascii -> bool) (s : string) :
  allChars p (Js.sfilter p s) = true.
Proof.
  induction s as [|c s IH]; simpl; [reflexivity|].
  destruct (p c) eqn:E; simpl; [now rewrite E|assumption].
Qed.

Lemma sfilter_all (p : ascii -> bool) (s : string) :
  allChars p s = true -> Js.sfilter p s = s.
Proof.
  induction s as [|c s IH]; simpl; [reflexivity|].
  rewrite andb_true_iff. intros [Hc Hs]. now rewrite Hc, IH.
Qed.

Lemma smap_fixed (f : ascii -> ascii) (p : ascii -> bool) (s : string) :
  (forall c, p c = true -> f c = c) -> allChars p s = true -> Js.smap f s = s.
Proof.
  intros Hf. induction s as [|c s IH]; simpl; [reflexivity|].
  rewrite andb_true_iff. intros [Hc Hs]. now rewrite (Hf c Hc), IH.
Qed.

Lemma sexists_allChars (p : ascii -> bool) (s : string) :
  Js.sexists p s = negb (allChars (fun c => negb (p c)) s).
Proof.
  induction s as [|c s IH]; simpl; [reflexivity|].
  rewrite IH. destruct (p c); reflexivity.
Qed.

Lemma join_empty_cons (x : string) (l : list string) :
  Js.join "" (x :: l) = x ++ Js.join "" l.
Proof.
  destruct l; simpl; [now rewrite append_empty_r|reflexivity].
Qed.

Lemma allChars_join (p : ascii -> bool) (l : list string) :
  Forall (fun w => allChars p w = true) l -> allChars p (Js.join "" l) = true.
Proof.
  induction 1 as [|w l Hw _ IH]; [reflexivity|].
  rewrite join_empty_cons, allChars_append, Hw, IH. reflexivity.
Qed.

(** the pieces of a split keep the characters of the string and hold no
    separator *)
Lemma split_pieces (q p : ascii -> bool) (s : string) :
  allChars q s = true ->
  Forall (fun w => allChars (fun c => q c && negb (p c)) w = true) (Js.split p s).
Proof.
  induction s as [|c s IH]; simpl.
  - intros _. constructor; [reflexivity|constructor].
  - rewrite andb_true_iff. intros [Hc Hs]. specialize (IH Hs).
    destruct (p c) eqn:Ep.
    + constructor; [reflexivity|assumption].
    + destruct (Js.split p s) as [|w ws]; [constructor; [|constructor]|].
      * simpl. now rewrite Hc, Ep.
      * inversion IH as [|? ? Hw Hws]; subst. constructor; [|assumption].
        simpl. now rewrite Hc, Ep, Hw.
Qed.

Lemma split_whole (p : ascii -> bool) (s : string) :
  allChars (fun c => negb (p c)) s = true -> Js.split p s = [s].
Proof.
  induction s as [|c s IH]; simpl; [reflexivity|].
  rewrite andb_true_iff, negb_true_iff. intros [Hc Hs]. now rewrite Hc, IH.
Qed.

(** ** Naming: [toPascalCase], [toCamelCase], [sanitizeTypeName] *)

Lemma capitalized_chars (q : ascii -> bool) (w : string) :
  (forall c, q c = true -> q (Js.upperChar c) = true) ->
  allChars q w = true ->
  allChars q (Js.toUpperCase (Js.charAt0 w) ++ Js.slice1 w) = true.
Proof.
  intros Hup. destruct w as [|c w]; simpl; [reflexivity|].
  rewrite andb_true_iff. intros [Hc Hw]. now rewrite (Hup c Hc), Hw.
Qed.

Lemma capitalized_lowered_chars (q : ascii -> bool) (w : string) :
  (forall c, q c = true -> q (Js.upperChar c) = true) ->
  (forall c, q c = true -> q (Js.lowerChar c) = true) ->
  allChars q w = true ->
  allChars q (Js.toUpperCase (Js.charAt0 w) ++ Js.toLowerCase (Js.slice1 w)) = true.
Proof.
  intros Hup Hlow. destruct w as [|c w]; simpl; [reflexivity|].
  rewrite andb_true_iff. intros [Hc Hw]. rewrite (Hup c Hc). simpl.
  now apply (allChars_smap q q).
Qed.

Lemma toPascalCase_chars (q0 : ascii -> bool) (str : string) :
  let q := fun c => q0 c && negb (Js.isDelimiter c) in
  (forall c, q c = true -> q (Js.upperChar c) = true) ->
  (forall c, q c = true -> q (Js.lowerChar c) = true) ->
  allChars q0 str = true ->
  allChars q (toPascalCase str) = true.
Proof.
  intros q Hup Hlow Hstr. unfold toPascalCase.
  pose proof (split_pieces q0 Js.isDelimiter str Hstr) as Hpieces.
  destruct (Js.sexists Js.isUpper str); apply allChars_join, Forall_map;
    (eapply Forall_impl; [|exact Hpieces]); intros w Hw; cbv beta in *.
  - destruct (Js.startsUpper w); [assumption|]. now apply capitalized_chars.
  - now apply capitalized_lowered_chars.
Qed.

Lemma allChars_true (s : string) : allChars (fun _ => true) s = true.
Proof.
  induction s; simpl; auto.
Qed.

Lemma toPascalCase_notDelimiter (str : string) :
  allChars notDelimiter (toPascalCase str) = true.
Proof.
  apply (toPascalCase_chars (fun _ => true) str).
  - intros c Hc. apply (implb_elim _ _ (upperChar_notDelimiter c)). exact Hc.
  - intros c Hc. apply (implb_elim _ _ (lowerChar_notDelimiter c)). exact Hc.
  - apply allChars_true.
Qed.

Lemma headFixed_append (a b : string) :
  headFixed a = true -> headFixed b = true -> headFixed (a ++ b) = true.
Proof.
  destruct a; simpl; auto.
Qed.

Lemma headFixed_join (l : list string) :
  Forall (fun w => headFixed w = true) l -> headFixed (Js.join "" l) = true.
Proof.
  induction 1 as [|w l Hw _ IH]; [reflexivity|].
  rewrite join_empty_cons. now apply headFixed_append.
Qed.

Lemma toPascalCase_headFixed (str : string) : headFixed (toPascalCase str) = true.
Proof.
  unfold toPascalCase.
  destruct (Js.sexists Js.isUpper str); apply headFixed_join, Forall_map, Forall_forall;
    intros w _.
  - destruct w as [|c w]; [reflexivity|]. simpl.
    destruct (Js.isUpper c) eqn:Eup.
    + simpl. apply (implb_elim _ _ (upperChar_of_upper c) Eup).
    + simpl. rewrite upperChar_twice. apply Ascii.eqb_refl.
  - destruct w as [|c w]; [reflexivity|]. simpl.
    rewrite upperChar_twice. apply Ascii.eqb_refl.
Qed.

Lemma capitalize_headFixed (s : string) :
  headFixed s = true -> Js.toUpperCase (Js.charAt0 s) ++ Js.slice1 s = s.
Proof.
  destruct s as [|c s]; simpl; [reflexivity|].
  intros H. apply Ascii.eqb_eq in H. now rewrite H.
Qed.

Lemma toLowerCase_without_upper (s : string) :
  Js.sexists Js.isUpper s = false -> Js.toLowerCase s = s.
Proof.
  rewrite sexists_allChars, negb_false_iff. intros H.
  apply (smap_fixed _ (fun c => negb (Js.isUpper c))); [|assumption].
  intros c Hc. apply Ascii.eqb_eq. apply (implb_elim _ _ (lowerChar_of_other c) Hc).
Qed.

(** a string without delimiters that upper-casing its first character leaves
    alone is its own Pascal case *)
Lemma toPascalCase_fixed (s : string) :
  allChars notDelimiter s = true -> headFixed s = true -> toPascalCase s = s.
Proof.
  intros Hplain Hhead. unfold toPascalCase. rewrite (split_whole _ _ Hplain).
  cbn [map Js.join].
  destruct (Js.sexists Js.isUpper s) eqn:Eupper.
  - destruct (Js.startsUpper s); [reflexivity|now apply capitalize_headFixed].
  - assert (Hrest : Js.sexists Js.isUpper (Js.slice1 s) = false).
    { destruct s as [|c s]; [reflexivity|]. simpl in Eupper.
      apply orb_false_iff in Eupper. tauto. }
    rewrite (toLowerCase_without_upper _ Hrest). now apply capitalize_headFixed.
Qed.

Lemma isAsciiText_allChars (s : string) : Js.isAsciiText s = allChars Js.isAscii s.
Proof.
  induction s as [|c s IH]; [reflexivity|]. cbn [Js.isAsciiText allChars]. now rewrite IH.
Qed.

Lemma upperChar_ascii (c : ascii) :
  implb (Js.isAscii c && negb (Js.isDelimiter c))
    (Js.isAscii (Js.upperChar c) && negb (Js.isDelimiter (Js.upperChar c))) = true.
Proof. each_ascii c. Qed.

Lemma lowerChar_ascii (c : ascii) :
  implb (Js.isAscii c && negb (Js.isDelimiter c))
    (Js.isAscii (Js.lowerChar c) && negb (Js.isDelimiter (Js.lowerChar c))) = true.
Proof. each_ascii c. Qed.

Lemma lowerChar_keeps_ascii (c : ascii) :
  implb (Js.isAscii c) (Js.isAscii (Js.lowerChar c)) = true.
Proof. each_ascii c. Qed.

Lemma toPascalCase_ascii (str : string) :
  Js.isAsciiText str = true -> Js.isAsciiText (toPascalCase str) = true.
Proof.
  rewrite !isAsciiText_allChars. intros Hascii.
  apply (allChars_impl (fun c => Js.isAscii c && negb (Js.isDelimiter c))).
  { intros c Hc. apply andb_true_iff in Hc. tauto. }
  apply (toPascalCase_chars Js.isAscii str).
  - intros c Hc. apply (implb_elim _ _ (upperChar_ascii c) Hc).
  - intros c Hc. apply (implb_elim _ _ (lowerChar_ascii c) Hc).
  - exact Hascii.
Qed.

(** X1.  On ASCII text, where the case conversions of the source are those
    of the embedding, [toPascalCase] gives ASCII text without hyphen,
    underscore or white space, and applying it to its own result changes
    nothing. *)
Theorem toPascalCase_idempotent (str : string) :
  Js.isAsciiText str = true ->
  Js.isAsciiText (toPascalCase str) = true
  /\ allChars notDelimiter (toPascalCase str) = true
  /\ toPascalCase (toPascalCase str) = toPascalCase str.
Proof.
  intros Hascii. split; [now apply toPascalCase_ascii|].
  split; [apply toPascalCase_notDelimiter|].
  apply toPascalCase_fixed; [apply toPascalCase_notDelimiter|apply toPascalCase_headFixed].
Qed.

Lemma toPascalCase_idempotent_witness :
  Js.isAsciiText "pet-store_API v2" = true
  /\ toPascalCase "pet-store_API v2" = "PetStoreAPIV2"
  /\ toPascalCase (toPascalCase "pet-store_API v2") = toPascalCase "pet-store_API v2".
Proof.
  split; [reflexivity|]. split; [reflexivity|].
  apply (toPascalCase_idempotent "pet-store_API v2"). reflexivity.
Defined.

(** X2.  On ASCII text, [toCamelCase] gives ASCII text that never starts
    with an upper-case letter, holds no hyphen, underscore or white space,
    and differs from [toPascalCase] in the first character at most. *)
Theorem toCamelCase_shape (str : string) :
  Js.isAsciiText str = true ->
  Js.isAsciiText (toCamelCase str) = true
  /\ Js.startsUpper (toCamelCase str) = false
  /\ allChars notDelimiter (toCamelCase str) = true
  /\ Js.slice1 (toCamelCase str) = Js.slice1 (toPascalCase str)
  /\ String.length (toCamelCase str) = String.length (toPascalCase str).
Proof.
  intros Hascii. apply toPascalCase_ascii in Hascii.
  unfold toCamelCase. cbv zeta.
  pose proof (toPascalCase_notDelimiter str) as Hplain.
  destruct (toPascalCase str) as [|c pascal]; [repeat split|].
  simpl in *. apply andb_true_iff in Hplain. destruct Hplain as [Hc Hrest].
  apply andb_true_iff in Hascii. destruct Hascii as [Hfirst Hothers].
  split.
  { rewrite Hothers, andb_true_r. apply (implb_elim _ _ (lowerChar_keeps_ascii c) Hfirst). }
  split; [apply lowerChar_not_upper|]. split; [|split; reflexivity].
  rewrite Hrest, andb_true_r.
  apply (implb_elim _ _ (lowerChar_notDelimiter c) Hc).
Qed.

Lemma toCamelCase_shape_witness :
  Js.isAsciiText "Get_pet-ById" = true
  /\ toCamelCase "Get_pet-ById" = "getPetById"
  /\ toPascalCase "Get_pet-ById" = "GetPetById"
  /\ Js.slice1 (toCamelCase "Get_pet-ById") = Js.slice1 (toPascalCase "Get_pet-ById").
Proof.
  split; [reflexivity|]. split; [reflexivity|]. split; [reflexivity|].
  apply (toCamelCase_shape "Get_pet-ById"). reflexivity.
Defined.

Lemma sanitized_words (name : string) :
  allChars Js.isWord
    (toPascalCase (Js.keep (fun c => Js.isWord c || Js.isSpace c) name)) = true.
Proof.
  apply (allChars_impl (fun c => (Js.isWord c || Js.isSpace c) && negb (Js.isDelimiter c))).
  { intros c Hc. apply (implb_elim _ _ (word_or_space_not_delimiter c) Hc). }
  apply (toPascalCase_chars (fun c => Js.isWord c || Js.isSpace c)).
  - intros c Hc.
    pose proof (implb_elim _ _ (word_or_space_not_delimiter c) Hc) as Hword.
    apply andb_true_iff in Hc. destruct Hc as [_ Hplain].
    rewrite (implb_elim _ _ (upperChar_word c) Hword). simpl.
    apply (implb_elim _ _ (upperChar_notDelimiter c) Hplain).
  - intros c Hc.
    pose proof (implb_elim _ _ (word_or_space_not_delimiter c) Hc) as Hword.
    apply andb_true_iff in Hc. destruct Hc as [_ Hplain].
    rewrite (implb_elim _ _ (lowerChar_word c) Hword). simpl.
    apply (implb_elim _ _ (lowerChar_notDelimiter c) Hplain).
  - apply allChars_sfilter.
Qed.

Lemma sanitizeTypeName_words (name : string) :
  allChars Js.isWord (sanitizeTypeName name) = true.
Proof.
  unfold sanitizeTypeName.
  destruct (Js.endsWith "DTO" name || Js.hasHump name); [apply allChars_sfilter|].
  destruct (Js.startsUpper name); [apply allChars_sfilter|apply sanitized_words].
Qed.

Lemma endsWith_sfilter (p : ascii -> bool) (suffix s : string) :
  allChars p suffix = true ->
  Js.endsWith suffix s = true -> Js.endsWith suffix (Js.sfilter p s) = true.
Proof.
  intros Hsuffix. induction s as [|c s IH]; cbn [Js.endsWith Js.sfilter].
  - rewrite orb_false_r. intros H. apply String.eqb_eq in H. subst suffix.
    reflexivity.
  - intros H. apply orb_true_iff in H. destruct H as [H|H].
    + apply String.eqb_eq in H. subst suffix.
      change (Js.endsWith (String c s) (Js.sfilter p (String c s)) = true).
      rewrite (sfilter_all _ _ Hsuffix). cbn [Js.endsWith].
      now rewrite String.eqb_refl.
    + specialize (IH H). destruct (p c); [|assumption].
      cbn [Js.endsWith]. rewrite IH. apply orb_true_r.
Qed.

Lemma startsUpper_sfilter (s : string) :
  Js.startsUpper s = true -> Js.startsUpper (Js.sfilter Js.isWord s) = true.
Proof.
  destruct s as [|c s]; simpl; [discriminate|].
  intros H. now rewrite (implb_elim _ _ (upper_is_word c) H).
Qed.

Lemma skipRun_sfilter (s rest : string) (seen found : bool) :
  Js.skipRun Js.isLower seen s = (found, rest) ->
  Js.startsUpper rest = true ->
  Js.skipRun Js.isLower seen (Js.sfilter Js.isWord s)
  = (found, Js.sfilter Js.isWord rest).
Proof.
  revert seen. induction s as [|c s IH]; intros seen; simpl.
  - intros [= <- <-]. discriminate.
  - destruct (Js.isLower c) eqn:Elower.
    + rewrite (implb_elim _ _ (lower_is_word c) Elower). simpl. rewrite Elower.
      apply IH.
    + intros [= <- <-] Hupper. simpl in Hupper.
      rewrite (implb_elim _ _ (upper_is_word c) Hupper). simpl.
      now rewrite Elower, (implb_elim _ _ (upper_is_word c) Hupper).
Qed.

Lemma hasHump_sfilter (s : string) :
  Js.hasHump s = true -> Js.hasHump (Js.sfilter Js.isWord s) = true.
Proof.
  induction s as [|c s IH]; simpl; [discriminate|].
  intros H. apply orb_true_iff in H. destruct H as [H|H].
  - apply andb_true_iff in H. destruct H as [Hupper Hrun].
    rewrite (implb_elim _ _ (upper_is_word c) Hupper). simpl. rewrite Hupper. simpl.
    destruct (Js.skipRun Js.isLower false s) as [[|] rest] eqn:Erun; [|discriminate].
    rewrite (skipRun_sfilter _ _ _ _ Erun Hrun).
    now rewrite (startsUpper_sfilter _ Hrun).
  - specialize (IH H). destruct (Js.isWord c); [|assumption].
    simpl. rewrite IH. apply orb_true_r.
Qed.

Lemma sanitizeTypeName_twice (name : string) :
  sanitizeTypeName (sanitizeTypeName name) = sanitizeTypeName name.
Proof.
  assert (Hkept : forall s, allChars Js.isWord s = true ->
                    (Js.endsWith "DTO" s || Js.hasHump s) || Js.startsUpper s = true ->
                    sanitizeTypeName s = s).
  { intros s Hwords Hcase. unfold sanitizeTypeName.
    destruct (Js.endsWith "DTO" s || Js.hasHump s); [now apply sfilter_all|].
    simpl in Hcase. rewrite Hcase. now apply sfilter_all. }
  unfold sanitizeTypeName at 2 3.
  destruct (Js.endsWith "DTO" name || Js.hasHump name) eqn:Efirst.
  { apply Hkept; [apply allChars_sfilter|]. unfold Js.keep.
    apply orb_true_iff in Efirst. destruct Efirst as [H|H].
    - now rewrite (endsWith_sfilter Js.isWord "DTO" name eq_refl H).
    - rewrite (hasHump_sfilter _ H). now rewrite orb_true_r. }
  destruct (Js.startsUpper name) eqn:Esecond.
  { apply Hkept; [apply allChars_sfilter|]. unfold Js.keep.
    rewrite (startsUpper_sfilter _ Esecond). apply orb_true_r. }
  set (pascal := toPascalCase (Js.keep (fun c => Js.isWord c || Js.isSpace c) name)).
  pose proof (sanitized_words name) as Hwords. fold pascal in Hwords.
  destruct ((Js.endsWith "DTO" pascal || Js.hasHump pascal) || Js.startsUpper pascal)
    eqn:Ecase; [now apply Hkept|].
  apply orb_false_iff in Ecase. destruct Ecase as [Ecase1 Ecase2].
  unfold sanitizeTypeName. rewrite Ecase1, Ecase2.
  unfold Js.keep.
  rewrite (sfilter_all (fun c => Js.isWord c || Js.isSpace c) pascal).
  - subst pascal.
    apply toPascalCase_fixed; [apply toPascalCase_notDelimiter|apply toPascalCase_headFixed].
  - eapply allChars_impl; [|exact Hwords]. intros c Hc. now rewrite Hc.
Qed.

(** X3.  A sanitized type name holds word characters only, and sanitizing it
    again changes nothing. *)
Theorem sanitizeTypeName_idempotent (name : string) :
  allChars Js.isWord (sanitizeTypeName name) = true
  /\ sanitizeTypeName (sanitizeTypeName name) = sanitizeTypeName name.
Proof.
  split; [apply sanitizeTypeName_words|apply sanitizeTypeName_twice].
Qed.

(** ** Basic types *)

Lemma list_ascii_of_string_app (a b : string) :
  list_ascii_of_string (a ++ b)
  = (list_ascii_of_string a ++ list_ascii_of_string b)%list.
Proof.
  induction a as [|c a IH]; simpl; [reflexivity|now rewrite IH].
Qed.

Lemma string_of_list_ascii_app (a b : list ascii) :
  string_of_list_ascii (a ++ b) = string_of_list_ascii a ++ string_of_list_ascii b.
Proof.
  induction a as [|c a IH]; simpl; [reflexivity|now rewrite IH].
Qed.

Lemma isBasicTypeFrom_other (reversed : list ascii) :
  (forall shorter, reversed <> "]"%char :: "["%char :: shorter) ->
  isBasicTypeFrom reversed = includes basicTypes (string_of_list_ascii (rev reversed)).
Proof.
  intros Hother.
  destruct reversed as [|c1 rest]; [reflexivity|].
  destruct (Ascii.eqb_spec c1 "]"%char) as [->|Hc1].
  - destruct rest as [|c2 rest]; [reflexivity|].
    destruct (Ascii.eqb_spec c2 "["%char) as [->|Hc2].
    + exfalso. now apply (Hother rest).
    + destruct c2 as [[|] [|] [|] [|] [|] [|] [|] [|]];
        try reflexivity; exfalso; now apply Hc2.
  - destruct c1 as [[|] [|] [|] [|] [|] [|] [|] [|]];
      try reflexivity; exfalso; now apply Hc1.
Qed.

Lemma isBasicType_array (typeName : string) :
  isBasicType (typeName ++ "[]") = isBasicType typeName.
Proof.
  unfold isBasicType. rewrite list_ascii_of_string_app, rev_app_distr. reflexivity.
Qed.

Lemma isBasicTypeFrom_names (n : nat) :
  forall reversed,
    List.length reversed <= n ->
    isBasicTypeFrom reversed = true ->
    exists basic k,
      In basic basicTypes
      /\ string_of_list_ascii (rev reversed) = basic ++ brackets k.
Proof.
  induction n as [|n IH]; intros reversed Hlen Hbasic.
  - destruct reversed; [|simpl in Hlen; lia].
    exists "", 0. vm_compute in Hbasic. discriminate.
  - assert (Hplain : (forall shorter, reversed <> "]"%char :: "["%char :: shorter) ->
                     exists basic k,
                       In basic basicTypes
                       /\ string_of_list_ascii (rev reversed) = basic ++ brackets k).
    { intros Hother. rewrite (isBasicTypeFrom_other _ Hother) in Hbasic.
      apply includes_In in Hbasic.
      exists (string_of_list_ascii (rev reversed)), 0.
      split; [assumption|]. simpl. now rewrite append_empty_r. }
    destruct reversed as [|c1 [|c2 shorter]];
      [apply Hplain; discriminate..|].
    destruct (Ascii.eqb_spec c1 "]"%char) as [->|Hc1];
      [|apply Hplain; intros ? [= ? ?]; contradiction].
    destruct (Ascii.eqb_spec c2 "["%char) as [->|Hc2];
      [|apply Hplain; intros ? [= ? ?]; contradiction].
    destruct (IH shorter) as (basic & k & Hin & Heq).
    + simpl in Hlen. lia.
    + exact Hbasic.
    + exists basic, (S k). split; [assumption|].
      cbn [rev]. rewrite <- app_assoc, string_of_list_ascii_app, Heq.
      cbn [brackets]. now rewrite append_assoc.
Qed.

(** X4.  [isBasicType] accepts exactly the nine basic names, each followed by
    any number of [[]]: an array type is basic when its element type is. *)
Theorem isBasicType_names (typeName : string) :
  isBasicType typeName = true <->
  exists basic k, In basic basicTypes /\ typeName = basic ++ brackets k.
Proof.
  split.
  - intros Hbasic. unfold isBasicType in Hbasic.
    destruct (isBasicTypeFrom_names _ _ (Nat.le_refl _) Hbasic)
      as (basic & k & Hin & Heq).
    exists basic, k. split; [assumption|].
    now rewrite rev_involutive, string_of_list_ascii_of_string in Heq.
  - intros (basic & k & Hin & ->). induction k as [|k IH].
    + simpl. rewrite append_empty_r. simpl in Hin.
      repeat (destruct Hin as [<-|Hin]; [reflexivity|]). destruct Hin.
    + cbn [brackets]. now rewrite <- append_assoc, isBasicType_array.
Qed.

(** ** The resolver: what one call does to the accumulator *)

(** the five ways a call ends: nothing appended, an enum, an interface after
    the properties, an alias after the items, an alias after the members *)
Lemma processSchema_step (schema : ApiSchema) (typeDefinitions : TypeDefinitions) :
  let name := sanitizeTypeName (Schema.name schema) in
  let after := snd (processSchema schema typeDefinitions) in
  after = typeDefinitions
  \/ (exists content, after = Defs.pushEnum (Decl.mk name content []) typeDefinitions)
  \/ (exists start content dependencies typeDefinitions1,
        resolveProperties processSchema (Schema.required schema)
          (Schema.properties schema) start [] typeDefinitions
        = (content, dependencies, typeDefinitions1)
        /\ after
           = Defs.pushInterface (Decl.mk name (content ++ "}") dependencies)
               typeDefinitions1)
  \/ (exists items itemType typeDefinitions1 content,
        Schema.items schema = Some items
        /\ processSchema items typeDefinitions = (itemType, typeDefinitions1)
        /\ after
           = Defs.pushType
               (Decl.mk name content (if isBasicType itemType then [] else [itemType]))
               typeDefinitions1)
  \/ (exists members componentTypes dependencies typeDefinitions1 content,
        (Schema.allOf schema = Some members \/ Schema.oneOf schema = Some members
         \/ Schema.anyOf schema = Some members)
        /\ resolveComponents processSchema members [] typeDefinitions
           = (componentTypes, dependencies, typeDefinitions1)
        /\ after
           = Defs.pushType (Decl.mk name content dependencies) typeDefinitions1).
Proof.
  intros name after. subst name after. rewrite processSchema_unfold.
  destruct (whenTruthy (Schema.reference schema)); [now left|].
  destruct (whenTruthy (findExistingType (Schema.name schema) typeDefinitions));
    [now left|].
  destruct (nonEmpty (Schema.enum schema)).
  { right. left. unfold processEnumSchema. cbv zeta. cbn [snd]. eexists. reflexivity. }
  destruct ((Schema.type schema =? "object")
            || (0 <? List.length (Schema.properties schema))%nat).
  { right. right. left. unfold processObjectSchema, processObjectSchema_.
    match goal with
    | |- context [resolveProperties processSchema ?r ?e ?start [] typeDefinitions] =>
        destruct (resolveProperties processSchema r e start [] typeDefinitions)
          as [[content dependencies] typeDefinitions1] eqn:Eloop;
        exists start, content, dependencies, typeDefinitions1
    end.
    split; [exact Eloop|reflexivity]. }
  destruct ((Schema.type schema =? "array") && isSome (Schema.items schema)).
  { unfold processArraySchema, processArraySchema_.
    destruct (Schema.items schema) as [items|]; [|now left].
    right. right. right. left.
    destruct (processSchema items typeDefinitions) as [itemType typeDefinitions1] eqn:Eitem.
    exists items, itemType, typeDefinitions1. eexists.
    split; [reflexivity|]. split; [exact Eitem|]. reflexivity. }
  destruct (nonEmpty (Schema.allOf schema)).
  { unfold processAllOfSchema, processAllOfSchema_.
    destruct (Schema.allOf schema) as [members|]; [|now left].
    right. right. right. right.
    destruct (resolveComponents processSchema members [] typeDefinitions)
      as [[componentTypes dependencies] typeDefinitions1] eqn:Eloop.
    exists members, componentTypes, dependencies, typeDefinitions1. eexists.
    split; [now left|]. split; [exact Eloop|reflexivity]. }
  destruct (nonEmpty (Schema.oneOf schema)).
  { unfold processOneOfSchema, processOneOfSchema_.
    destruct (Schema.oneOf schema) as [members|]; [|now left].
    right. right. right. right.
    destruct (resolveComponents processSchema members [] typeDefinitions)
      as [[componentTypes dependencies] typeDefinitions1] eqn:Eloop.
    exists members, componentTypes, dependencies, typeDefinitions1. eexists.
    split; [right; now left|]. split; [exact Eloop|reflexivity]. }
  destruct (nonEmpty (Schema.anyOf schema)); [|now left].
  unfold processAnyOfSchema, processAnyOfSchema_.
  destruct (Schema.anyOf schema) as [members|]; [|now left].
  right. right. right. right.
  destruct (resolveComponents processSchema members [] typeDefinitions)
    as [[componentTypes dependencies] typeDefinitions1] eqn:Eloop.
  exists members, componentTypes, dependencies, typeDefinitions1. eexists.
  split; [right; now right|]. split; [exact Eloop|reflexivity].
Qed.

Lemma nodes_length (schema : ApiSchema) :
  List.length (nodes schema)
  = 1 + List.length (flat_map (fun entry => nodes (snd entry)) (Schema.properties schema))
    + match Schema.items schema with
      | Some items => List.length (nodes items)
      | None => 0
      end
    + match Schema.allOf schema with
      | Some members => List.length (flat_map nodes members)
      | None => 0
      end
    + match Schema.oneOf schema with
      | Some members => List.length (flat_map nodes members)
      | None => 0
      end
    + match Schema.anyOf schema with
      | Some members => List.length (flat_map nodes members)
      | None => 0
      end.
Proof.
  destruct schema as [name type format enum nullable properties required items allOf
                        oneOf anyOf reference].
  cbn [nodes Schema.properties Schema.items Schema.allOf Schema.oneOf Schema.anyOf
       List.length].
  rewrite !length_app.
  destruct items, allOf, oneOf, anyOf; simpl; lia.
Qed.

Lemma resolveProperties_count (required : list string)
    (entries : list (string * ApiSchema)) :
  Forall (fun entry => bounded (snd entry)) entries ->
  forall interfaceContent dependencies typeDefinitions,
    declarationCount
      (snd (resolveProperties processSchema required entries interfaceContent
              dependencies typeDefinitions))
    <= declarationCount typeDefinitions
       + List.length (flat_map (fun entry => nodes (snd entry)) entries).
Proof.
  induction 1 as [|[propName propSchema] rest Hhead _ IH];
    intros interfaceContent dependencies typeDefinitions.
  - simpl. lia.
  - cbn [resolveProperties flat_map snd] in *. rewrite length_app.
    specialize (Hhead typeDefinitions).
    destruct (processSchema propSchema typeDefinitions) as [propType typeDefinitions1].
    cbn [snd] in Hhead.
    match goal with
    | |- context [resolveProperties processSchema required rest ?c ?d typeDefinitions1] =>
        specialize (IH c d typeDefinitions1)
    end.
    lia.
Qed.

Lemma resolveComponents_count (components : list ApiSchema) :
  Forall bounded components ->
  forall dependencies typeDefinitions,
    declarationCount
      (snd (resolveComponents processSchema components dependencies typeDefinitions))
    <= declarationCount typeDefinitions + List.length (flat_map nodes components).
Proof.
  induction 1 as [|component rest Hhead _ IH]; intros dependencies typeDefinitions.
  - simpl. lia.
  - cbn [resolveComponents flat_map] in *. rewrite length_app.
    specialize (Hhead typeDefinitions).
    destruct (processSchema component typeDefinitions) as [componentType typeDefinitions1].
    cbn [snd] in Hhead.
    match goal with
    | |- context [resolveComponents processSchema rest ?d typeDefinitions1] =>
        specialize (IH d typeDefinitions1);
        destruct (resolveComponents processSchema rest d typeDefinitions1)
          as [[componentTypes dependencies2] typeDefinitions2]
    end.
    cbn [snd] in *. lia.
Qed.

Lemma processSchema_count (schema : ApiSchema) : bounded schema.
Proof.
  induction schema as [name type format enum nullable properties required items allOf
                         oneOf anyOf reference Hproperties Hitems HallOf HoneOf HanyOf]
    using schema_ind.
  intros typeDefinitions.
  set (schema := Schema.mk name type format enum nullable properties required items allOf
                   oneOf anyOf reference).
  rewrite (nodes_length schema).
  destruct (processSchema_step schema typeDefinitions)
    as [Hsame|[(content & Henum)
       |[(start & content & dependencies & typeDefinitions1 & Hloop & Hobject)
       |[(child & itemType & typeDefinitions1 & content & Echild & Hchild & Harray)
       |(members & componentTypes & dependencies & typeDefinitions1 & content
         & Emembers & Hloop & Halias)]]]].
  - rewrite Hsame. lia.
  - rewrite Henum. rewrite (proj2 (proj2 (declarationCount_push _ _))). lia.
  - rewrite Hobject. rewrite (proj1 (declarationCount_push _ _)).
    pose proof (resolveProperties_count (Schema.required schema)
                  (Schema.properties schema) Hproperties start [] typeDefinitions)
      as Hbound.
    rewrite Hloop in Hbound. cbn [snd] in Hbound. lia.
  - rewrite Harray. rewrite (proj1 (proj2 (declarationCount_push _ _))).
    rewrite Echild. change items with (Schema.items schema) in Hitems.
    rewrite Echild in Hitems. specialize (Hitems typeDefinitions).
    rewrite Hchild in Hitems. cbn [snd] in Hitems. lia.
  - rewrite Halias. rewrite (proj1 (proj2 (declarationCount_push _ _))).
    assert (Hbound : declarationCount typeDefinitions1
                     <= declarationCount typeDefinitions
                        + List.length (flat_map nodes members)).
    { assert (Hall : Forall bounded members).
      { destruct Emembers as [E|[E|E]].
        - change allOf with (Schema.allOf schema) in HallOf. now rewrite E in HallOf.
        - change oneOf with (Schema.oneOf schema) in HoneOf. now rewrite E in HoneOf.
        - change anyOf with (Schema.anyOf schema) in HanyOf. now rewrite E in HanyOf. }
      pose proof (resolveComponents_count members Hall [] typeDefinitions) as H.
      now rewrite Hloop in H. }
    destruct Emembers as [E|[E|E]]; rewrite E;
      destruct (Schema.items schema), (Schema.allOf schema), (Schema.oneOf schema),
        (Schema.anyOf schema); lia.
Qed.

(** X5.  One call of the resolver only appends: the three sequences of the
    accumulator keep what they held, in order, the client declarations are
    untouched, every declaration added bears the sanitized name of a node of
    the schema, and there is at most one of them per node. *)
Theorem processSchema_only_appends (schema : ApiSchema)
    (typeDefinitions : TypeDefinitions) :
  let after := snd (processSchema schema typeDefinitions) in
  exists interfaces types enums,
    Defs.interfaces after = (Defs.interfaces typeDefinitions ++ interfaces)%list
    /\ Defs.types after = (Defs.types typeDefinitions ++ types)%list
    /\ Defs.enums after = (Defs.enums typeDefinitions ++ enums)%list
    /\ Defs.apiClasses after = Defs.apiClasses typeDefinitions
    /\ Forall (fun d =>
                 exists node,
                   In node (nodes schema)
                   /\ Decl.name d = sanitizeTypeName (Schema.name node))
         (interfaces ++ types ++ enums)%list
    /\ List.length (interfaces ++ types ++ enums)%list <= List.length (nodes schema).
Proof.
  intros after. subst after.
  destruct (processSchema_extends schema typeDefinitions)
    as (interfaces & types & enums & Hi & Ht & He & Ha & Hnames).
  exists interfaces, types, enums. repeat split; try assumption.
  - eapply Forall_impl; [|exact Hnames]. intros d Hd. unfold nodeNames in Hd.
    apply in_map_iff in Hd. destruct Hd as (node & Heq & Hnode). now exists node.
  - pose proof (processSchema_count schema typeDefinitions) as Hcount.
    unfold declarationCount, Defs.declarations in Hcount.
    rewrite Hi, Ht, He in Hcount. rewrite !length_app in *. lia.
Qed.

(** ** Dependencies *)

Lemma allClean_push (d : TypeDefinition) (typeDefinitions : TypeDefinitions) :
  cleanDependencies d -> allClean typeDefinitions ->
  allClean (Defs.pushInterface d typeDefinitions)
  /\ allClean (Defs.pushType d typeDefinitions)
  /\ allClean (Defs.pushEnum d typeDefinitions).
Proof.
  unfold allClean, Defs.declarations. simpl. intros Hd Hall.
  rewrite !Forall_app in *. destruct Hall as (Hi & Ht & He).
  assert (Hone : Forall cleanDependencies [d]) by (constructor; [assumption|constructor]).
  repeat split; assumption.
Qed.

Lemma cleanList_push (dependencies : list string) (type : string) :
  cleanList dependencies ->
  cleanList (if isBasicType type then dependencies else (dependencies ++ [type])%list).
Proof.
  intros Hclean. destruct (isBasicType type) eqn:E; [assumption|].
  apply Forall_app. split; [assumption|]. constructor; [assumption|constructor].
Qed.

Lemma resolveProperties_clean (required : list string)
    (entries : list (string * ApiSchema)) :
  Forall (fun entry => keepsClean (snd entry)) entries ->
  forall interfaceContent dependencies typeDefinitions,
    cleanList dependencies -> allClean typeDefinitions ->
    let result :=
      resolveProperties processSchema required entries interfaceContent dependencies
        typeDefinitions in
    cleanList (snd (fst result)) /\ allClean (snd result).
Proof.
  induction 1 as [|[propName propSchema] rest Hhead _ IH];
    intros interfaceContent dependencies typeDefinitions Hdeps Hall.
  - now split.
  - cbn [resolveProperties snd] in *.
    specialize (Hhead typeDefinitions Hall).
    destruct (processSchema propSchema typeDefinitions) as [propType typeDefinitions1].
    apply IH; [now apply cleanList_push|exact Hhead].
Qed.

Lemma resolveComponents_clean (components : list ApiSchema) :
  Forall keepsClean components ->
  forall dependencies typeDefinitions,
    cleanList dependencies -> allClean typeDefinitions ->
    let result :=
      resolveComponents processSchema components dependencies typeDefinitions in
    cleanList (snd (fst result)) /\ allClean (snd result).
Proof.
  induction 1 as [|component rest Hhead _ IH];
    intros dependencies typeDefinitions Hdeps Hall.
  - now split.
  - cbn [resolveComponents] in *.
    specialize (Hhead typeDefinitions Hall).
    destruct (processSchema component typeDefinitions) as [componentType typeDefinitions1].
    cbn [snd] in Hhead.
    match goal with
    | |- context [resolveComponents processSchema rest ?d typeDefinitions1] =>
        specialize (IH d typeDefinitions1 (cleanList_push _ _ Hdeps) Hhead);
        destruct (resolveComponents processSchema rest d typeDefinitions1)
          as [[componentTypes dependencies2] typeDefinitions2]
    end.
    exact IH.
Qed.

Lemma processSchema_clean (schema : ApiSchema) : keepsClean schema.
Proof.
  induction schema as [name type format enum nullable properties required items allOf
                         oneOf anyOf reference Hproperties Hitems HallOf HoneOf HanyOf]
    using schema_ind.
  intros typeDefinitions Hall.
  set (schema := Schema.mk name type format enum nullable properties required items allOf
                   oneOf anyOf reference).
  destruct (processSchema_step schema typeDefinitions)
    as [Hsame|[(content & Henum)
       |[(start & content & dependencies & typeDefinitions1 & Hloop & Hobject)
       |[(child & itemType & typeDefinitions1 & content & Echild & Hchild & Harray)
       |(members & componentTypes & dependencies & typeDefinitions1 & content
         & Emembers & Hloop & Halias)]]]].
  - now rewrite Hsame.
  - rewrite Henum. apply allClean_push; [constructor|assumption].
  - rewrite Hobject.
    pose proof (resolveProperties_clean (Schema.required schema)
                  (Schema.properties schema) Hproperties start [] typeDefinitions
                  (Forall_nil _) Hall) as Hclean.
    cbv zeta in Hclean. rewrite Hloop in Hclean. cbn [fst snd] in Hclean.
    apply allClean_push; tauto.
  - rewrite Harray. change items with (Schema.items schema) in Hitems.
    rewrite Echild in Hitems. specialize (Hitems typeDefinitions Hall).
    rewrite Hchild in Hitems. cbn [snd] in Hitems.
    apply allClean_push; [|assumption].
    apply (cleanList_push [] itemType). constructor.
  - rewrite Halias.
    assert (Hmembers : Forall keepsClean members).
    { destruct Emembers as [E|[E|E]].
      - change allOf with (Schema.allOf schema) in HallOf. now rewrite E in HallOf.
      - change oneOf with (Schema.oneOf schema) in HoneOf. now rewrite E in HoneOf.
      - change anyOf with (Schema.anyOf schema) in HanyOf. now rewrite E in HanyOf. }
    pose proof (resolveComponents_clean members Hmembers [] typeDefinitions
                  (Forall_nil _) Hall) as Hclean.
    cbv zeta in Hclean. rewrite Hloop in Hclean. cbn [fst snd] in Hclean.
    apply allClean_push; tauto.
Qed.

Lemma resolveAll_clean (schemas : list (string * ApiSchema))
    (typeDefinitions : TypeDefinitions) :
  allClean typeDefinitions -> allClean (resolveAll schemas typeDefinitions).
Proof.
  revert typeDefinitions. induction schemas as [|entry rest IH]; intros typeDefinitions.
  - auto.
  - intros Hall. cbn [resolveAll fold_left]. apply IH. now apply processSchema_clean.
Qed.

(** X6.  The resolver never records a basic type as a dependency: if no
    declaration of the accumulator lists one, none does after a call; and none
    of the declarations a generation returns lists one.  ([bigint] and
    [Record<string, any>] are not basic and are recorded.) *)
Theorem dependencies_never_basic :
  (forall schema typeDefinitions,
      allClean typeDefinitions ->
      allClean (snd (processSchema schema typeDefinitions)))
  /\ (forall parsedSpec typeDefinitions,
        generateTypeDefinitions parsedSpec = Some typeDefinitions ->
        forall declaration dependency,
          In declaration
            (Defs.declarations typeDefinitions ++ Defs.apiClasses typeDefinitions) ->
          In dependency (Decl.dependencies declaration) ->
          isBasicType dependency = false).
Proof.
  split; [exact processSchema_clean|].
  intros parsedSpec typeDefinitions Hrun declaration dependency Hin Hdep.
  destruct (generateTypeDefinitions_some _ _ Hrun)
    as (endpointsByTag & _ & Hi & Ht & He & Hclasses).
  apply in_app_iff in Hin. destruct Hin as [Hin|Hin].
  - assert (Hclean : allClean (resolveAll (Spec.schemas (Spec.components parsedSpec))
                                 Defs.empty)).
    { apply resolveAll_clean. constructor. }
    unfold allClean, Defs.declarations in Hclean. rewrite <- Hi, <- Ht, <- He in Hclean.
    rewrite Forall_forall in Hclean. specialize (Hclean declaration Hin).
    unfold cleanDependencies in Hclean. rewrite Forall_forall in Hclean.
    now apply Hclean.
  - rewrite Hclasses in Hin. apply in_map_iff in Hin.
    destruct Hin as (entry & <- & _). destruct Hdep.
Qed.

Lemma dependencies_never_basic_witness :
  let order :=
    Sample.object "Order"
      [("id", Schema.mk "OrderId" "integer" (Some "int64") None false [] [] None None None
                None None);
       ("note", Sample.plain "OrderNote" "string");
       ("pet", Sample.referenceTo "OrderPet" "Pet")] in
  let parsedSpec := Sample.spec [] [("Order", order)] in
  let typeDefinitions := resolveAll [("Order", order)] Defs.empty in
  generateTypeDefinitions parsedSpec = Some typeDefinitions
  /\ map Decl.dependencies (Defs.interfaces typeDefinitions) = [["bigint"; "Pet"]]
  /\ forall declaration dependency,
       In declaration
         (Defs.declarations typeDefinitions ++ Defs.apiClasses typeDefinitions) ->
       In dependency (Decl.dependencies declaration) ->
       isBasicType dependency = false.
Proof.
  intros order parsedSpec typeDefinitions.
  split; [reflexivity|]. split; [reflexivity|].
  destruct dependencies_never_basic as [_ Hgenerated].
  apply (Hgenerated parsedSpec typeDefinitions). reflexivity.
Defined.

(** ** The memoization, where it works *)

(** X7.  A node whose name is a non-empty sanitized name is resolved once:
    resolving it again, after the first resolution, returns the same name and
    leaves the accumulator as the first call left it.  So is every node
    renamed to the sanitized form of its name. *)
Theorem resolution_idempotent_on_sanitized_names (schema : ApiSchema)
    (typeDefinitions : TypeDefinitions) :
  (Schema.name schema <> "" ->
   sanitizeTypeName (Schema.name schema) = Schema.name schema ->
   processSchema schema (snd (processSchema schema typeDefinitions))
   = processSchema schema typeDefinitions)
  /\ (sanitizeTypeName (Schema.name schema) <> "" ->
      let stable := renamed (sanitizeTypeName (Schema.name schema)) schema in
      processSchema stable (snd (processSchema stable typeDefinitions))
      = processSchema stable typeDefinitions).
Proof.
  split.
  - intros Hname Hstable. now apply processSchema_twice_stable_name.
  - intros Hname stable. apply processSchema_twice_stable_name.
    + apply sanitizeTypeName_twice.
    + exact Hname.
Qed.

Lemma resolution_idempotent_on_sanitized_names_witness :
  let schema := Sample.object "user" [("pet", Sample.object "userPet" [])] in
  let stable := renamed "User" schema in
  fst (processSchema stable Defs.empty) = "User"
  /\ declaredNames (snd (processSchema stable Defs.empty)) = ["UserPet"; "User"]
  /\ processSchema stable (snd (processSchema stable Defs.empty))
     = processSchema stable Defs.empty.
Proof.
  intros schema stable. split; [reflexivity|]. split; [reflexivity|].
  apply (resolution_idempotent_on_sanitized_names schema Defs.empty). discriminate.
Defined.

(** ** The grouping: when it throws, and the order of its groups *)

Lemma hasOwn_includes (tag : string) (record : TagRecord) :
  hasOwn tag record = includes (map fst record) tag.
Proof.
  unfold hasOwn, includes. induction record as [|[key endpoints] rest IH]; simpl.
  - reflexivity.
  - now rewrite IH, (String.eqb_sym tag key).
Qed.

Lemma addUnderTag_keys (endpoint : ApiEndpoint) (record record1 : TagRecord)
    (tag : string) :
  addUnderTag endpoint record tag = Some record1 ->
  map fst record1
  = if includes (map fst record) tag then map fst record
    else (map fst record ++ [tag])%list.
Proof.
  unfold addUnderTag. rewrite hasOwn_includes.
  destruct (includes (map fst record) tag).
  - intros [= <-]. apply pushUnder_keys.
  - destruct (includes inheritedKeys tag); [discriminate|].
    intros [= <-]. now rewrite map_app.
Qed.

Lemma addUnderTag_safe (endpoint : ApiEndpoint) (record : TagRecord) (tag : string) :
  ownKeysSafe record ->
  match addUnderTag endpoint record tag with
  | Some record1 => ownKeysSafe record1 /\ includes inheritedKeys tag = false
  | None => includes inheritedKeys tag = true
  end.
Proof.
  intros Hsafe.
  destruct (addUnderTag endpoint record tag) as [record1|] eqn:Estep.
  - pose proof (addUnderTag_keys _ _ _ _ Estep) as Hkeys.
    unfold addUnderTag in Estep. rewrite hasOwn_includes in Estep.
    destruct (includes (map fst record) tag) eqn:Eown.
    + split.
      * intros key Hkey. rewrite Hkeys in Hkey. now apply Hsafe.
      * apply Hsafe. now apply includes_In.
    + destruct (includes inheritedKeys tag) eqn:Einherited; [discriminate|].
      split; [|reflexivity].
      intros key Hkey. rewrite Hkeys in Hkey. apply in_app_iff in Hkey.
      destruct Hkey as [Hkey|[<-|[]]]; [now apply Hsafe|assumption].
  - unfold addUnderTag in Estep. rewrite hasOwn_includes in Estep.
    destruct (includes (map fst record) tag); [discriminate|].
    destruct (includes inheritedKeys tag); [reflexivity|discriminate].
Qed.

Lemma addUnderTags_safe (endpoint : ApiEndpoint) (tags : list string) :
  forall record,
    ownKeysSafe record ->
    match addUnderTags endpoint tags record with
    | Some record1 =>
        ownKeysSafe record1
        /\ Forall (fun tag => includes inheritedKeys tag = false) tags
    | None => Exists (fun tag => includes inheritedKeys tag = true) tags
    end.
Proof.
  induction tags as [|tag rest IH]; intros record Hsafe; simpl.
  - split; [assumption|constructor].
  - pose proof (addUnderTag_safe endpoint record tag Hsafe) as Hstep.
    destruct (addUnderTag endpoint record tag) as [record1|].
    + destruct Hstep as [Hsafe1 Htag]. specialize (IH record1 Hsafe1).
      destruct (addUnderTags endpoint rest record1).
      * destruct IH as [Hsafe2 Hrest]. split; [assumption|now constructor].
      * now apply Exists_cons_tl.
    + now apply Exists_cons_hd.
Qed.

Lemma groupAll_safe (allEndpoints : list ApiEndpoint) :
  forall record,
    ownKeysSafe record ->
    match groupAll allEndpoints record with
    | Some record1 =>
        ownKeysSafe record1
        /\ Forall (fun endpoint =>
                     Forall (fun tag => includes inheritedKeys tag = false)
                       (tagsOf endpoint)) allEndpoints
    | None =>
        Exists (fun endpoint =>
                  Exists (fun tag => includes inheritedKeys tag = true) (tagsOf endpoint))
          allEndpoints
    end.
Proof.
  induction allEndpoints as [|endpoint rest IH]; intros record Hsafe; simpl.
  - split; [assumption|constructor].
  - pose proof (addUnderTags_safe endpoint (tagsOf endpoint) record Hsafe) as Hstep.
    destruct (addUnderTags endpoint (tagsOf endpoint) record) as [record1|].
    + destruct Hstep as [Hsafe1 Htags]. specialize (IH record1 Hsafe1).
      destruct (groupAll rest record1).
      * destruct IH as [Hsafe2 Hrest]. split; [assumption|now constructor].
      * now apply Exists_cons_tl.
    + now apply Exists_cons_hd.
Qed.

(** X8.  The generation throws whenever some endpoint bears a tag that
    names a property every object inherits ([constructor], [toString],
    [__proto__], ...), whatever the schemas and the other endpoints are: the
    grouping reads the inherited value as the group of the tag and calls
    its missing [push]. *)
Theorem generateTypeDefinitions_throws (parsedSpec : ParsedSpec)
    (endpoint : ApiEndpoint) (tag : string) :
  In endpoint (allEndpointsOf parsedSpec) ->
  In tag (Endpoint.tags endpoint) ->
  In tag inheritedKeys ->
  generateTypeDefinitions parsedSpec = None.
Proof.
  intros Hendpoint Htag Hinherited.
  unfold generateTypeDefinitions, groupEndpointsByTag.
  assert (Hempty : ownKeysSafe []) by (intros key []).
  pose proof (groupAll_safe (allEndpointsOf parsedSpec) [] Hempty) as Hloop.
  destruct (groupAll (allEndpointsOf parsedSpec) []) as [record|]; [|reflexivity].
  exfalso. destruct Hloop as [_ Hall]. rewrite Forall_forall in Hall.
  specialize (Hall endpoint Hendpoint). rewrite Forall_forall in Hall.
  assert (Hin : In tag (tagsOf endpoint)).
  { unfold tagsOf. destruct (Endpoint.tags endpoint); [destruct Htag|exact Htag]. }
  specialize (Hall tag Hin). apply includes_In in Hinherited. congruence.
Qed.

Lemma generateTypeDefinitions_throws_witness :
  let listed := Sample.endpoint "listPets" None ["pets"] in
  let built := Sample.endpoint "buildPet" None ["pets"; "constructor"] in
  generateTypeDefinitions (Sample.spec [listed] [("Pet", Sample.object "Pet" [])])
  <> None
  /\ generateTypeDefinitions
       (Sample.spec [listed; built] [("Pet", Sample.object "Pet" [])])
     = None.
Proof.
  intros listed built. split; [vm_compute; discriminate|].
  apply (generateTypeDefinitions_throws
           (Sample.spec [listed; built] [("Pet", Sample.object "Pet" [])])
           built "constructor").
  - simpl. tauto.
  - simpl. tauto.
  - simpl. tauto.
Defined.

Lemma addUnderTags_keys (endpoint : ApiEndpoint) (tags : list string) :
  forall record record1,
    addUnderTags endpoint tags record = Some record1 ->
    map fst record1
    = fold_left (fun seen tag => if includes seen tag then seen else (seen ++ [tag])%list)
        tags (map fst record).
Proof.
  induction tags as [|tag rest IH]; intros record record1; simpl.
  - now intros [= <-].
  - destruct (addUnderTag endpoint record tag) as [record'|] eqn:Estep; [|discriminate].
    intros Hrest. rewrite (IH _ _ Hrest), (addUnderTag_keys _ _ _ _ Estep).
    reflexivity.
Qed.

Lemma groupAll_keys (allEndpoints : list ApiEndpoint) :
  forall record record1,
    groupAll allEndpoints record = Some record1 ->
    map fst record1
    = fold_left (fun seen tag => if includes seen tag then seen else (seen ++ [tag])%list)
        (flat_map tagsOf allEndpoints) (map fst record).
Proof.
  induction allEndpoints as [|endpoint rest IH]; intros record record1; simpl.
  - now intros [= <-].
  - destruct (addUnderTags endpoint (tagsOf endpoint) record) as [record'|] eqn:Estep;
      [|discriminate].
    intros Hrest. rewrite fold_left_app, (IH _ _ Hrest).
    now rewrite (addUnderTags_keys _ _ _ _ Estep).
Qed.

Lemma indexedEntries_plain {A : Type} (record : list (string * A)) :
  Forall (fun entry => arrayIndex (fst entry) = None) record ->
  indexedEntries record = [].
Proof.
  induction 1 as [|entry rest Hentry _ IH]; [reflexivity|].
  simpl. now rewrite Hentry.
Qed.

Lemma entries_plain {A : Type} (record : list (string * A)) :
  Forall (fun entry => arrayIndex (fst entry) = None) record ->
  entries record = record.
Proof.
  intros Hplain. unfold entries. rewrite (indexedEntries_plain _ Hplain). simpl.
  induction Hplain as [|entry rest Hentry _ IH]; [reflexivity|].
  simpl. rewrite Hentry. simpl. now rewrite IH.
Qed.

(** X9.  When no tag is an array index (the decimal text of an integer below
    2^32 - 1), the client declarations come in the order in which their tags
    first occur, going through the endpoints in order and through the tags of
    each in order; their names are the Pascal case of the tag followed by
    [Api]. *)
Theorem apiClasses_in_order_of_first_tag (parsedSpec : ParsedSpec)
    (typeDefinitions : TypeDefinitions) :
  generateTypeDefinitions parsedSpec = Some typeDefinitions ->
  (forall endpoint tag,
      In endpoint (allEndpointsOf parsedSpec) -> In tag (tagsOf endpoint) ->
      arrayIndex tag = None) ->
  map Decl.name (Defs.apiClasses typeDefinitions)
  = map (fun tag => toPascalCase tag ++ "Api")
      (firstOccurrences (flat_map tagsOf (allEndpointsOf parsedSpec))).
Proof.
  intros Hrun Hplain.
  destruct (generateTypeDefinitions_some _ _ Hrun)
    as (endpointsByTag & Hgroups & _ & _ & _ & Hclasses).
  pose proof (groupAll_keys _ _ _ Hgroups) as Hkeys. simpl in Hkeys.
  fold (firstOccurrences (flat_map tagsOf (allEndpointsOf parsedSpec))) in Hkeys.
  assert (Hempty : accountsFor [] []).
  { repeat split; simpl; try tauto. constructor. }
  destruct (groupAll_accounts _ _ _ _ Hempty Hgroups) as (_ & Htags & _).
  simpl in Htags.
  rewrite Hclasses, entries_plain.
  - rewrite <- Hkeys, !map_map. reflexivity.
  - apply Forall_forall. intros [tag endpoints] Hin. cbn [fst].
    assert (Hkey : In tag (map fst endpointsByTag)).
    { apply in_map_iff. now exists (tag, endpoints). }
    apply Htags, pushesOf_tags in Hkey. destruct Hkey as (endpoint & Hendpoint & Htag).
    now apply (Hplain endpoint).
Qed.

Lemma apiClasses_in_order_of_first_tag_witness :
  let first := Sample.endpoint "listPets" None ["pet"; "store"] in
  let second := Sample.endpoint "listUsers" None [] in
  let third := Sample.endpoint "buyPet" None ["store"; "admin-area"; "pet"] in
  let parsedSpec := Sample.spec [first; second; third] [] in
  let typeDefinitions :=
    Defs.mk [] [] []
      (map apiClassOf
         [("pet", [first; third]); ("store", [first; third]); ("default", [second]);
          ("admin-area", [third])]) in
  generateTypeDefinitions parsedSpec = Some typeDefinitions
  /\ firstOccurrences (flat_map tagsOf (allEndpointsOf parsedSpec))
     = ["pet"; "store"; "default"; "admin-area"]
  /\ map Decl.name (Defs.apiClasses typeDefinitions)
     = map (fun tag => toPascalCase tag ++ "Api")
         (firstOccurrences (flat_map tagsOf (allEndpointsOf parsedSpec))).
Proof.
  intros first second third parsedSpec typeDefinitions.
  split; [reflexivity|]. split; [reflexivity|].
  apply (apiClasses_in_order_of_first_tag parsedSpec typeDefinitions); [reflexivity|].
  intros endpoint tag Hendpoint Htag.
  simpl in Hendpoint.
  destruct Hendpoint as [<-|[<-|[<-|[]]]]; simpl in Htag;
    repeat (destruct Htag as [<-|Htag]; [reflexivity|]); destruct Htag.
Defined.

(** ** The method of an endpoint *)

Lemma filter_located (place : string) (wanted : list string)
    (parameters : list ApiParameter) :
  In place wanted ->
  filter (fun p => Param.in_ p =? place)
    (filter (fun p => includes wanted (Param.in_ p)) parameters)
  = filter (fun p => Param.in_ p =? place) parameters.
Proof.
  intros Hplace. induction parameters as [|p rest IH]; simpl; [reflexivity|].
  destruct (String.eqb_spec (Param.in_ p) place) as [Heq|Hne].
  - assert (Hin : includes wanted (Param.in_ p) = true).
    { apply includes_In. now rewrite Heq. }
    rewrite Hin. simpl. rewrite Heq, String.eqb_refl. now rewrite IH.
  - destruct (includes wanted (Param.in_ p)); simpl; [|exact IH].
    destruct (String.eqb_spec (Param.in_ p) place); [contradiction|exact IH].
Qed.

Lemma generateEndpointMethod_ext (a b : ApiEndpoint) :
  Endpoint.path a = Endpoint.path b ->
  Endpoint.method a = Endpoint.method b ->
  Endpoint.operationId a = Endpoint.operationId b ->
  Endpoint.summary a = Endpoint.summary b ->
  Endpoint.description a = Endpoint.description b ->
  (forall place,
      In place ["query"; "path"; "header"] ->
      filter (fun p => Param.in_ p =? place) (Endpoint.parameters a)
      = filter (fun p => Param.in_ p =? place) (Endpoint.parameters b)) ->
  isSome (Endpoint.requestBody a) = isSome (Endpoint.requestBody b) ->
  generateEndpointMethod a = generateEndpointMethod b.
Proof.
  intros Hpath Hmethod Hid Hsummary Hdescription Hparameters Hbody.
  unfold generateEndpointMethod.
  rewrite Hpath, Hmethod, Hid, Hsummary, Hdescription, Hbody.
  rewrite (Hparameters "query"), (Hparameters "path"), (Hparameters "header");
    [reflexivity|simpl; tauto..].
Qed.

(** X10.  The text of a method depends on the path, the method, the operation
    id, the summary, the description, the path, query and header parameters
    and on whether there is a request body, and on nothing else: the
    responses, the tags, the content of the request body and the parameters
    of any other location never show in it. *)
Theorem generateEndpointMethod_ignores (endpoint : ApiEndpoint)
    (requestBody : option Body.t) (responses : list (string * ApiResponse))
    (tags : list string) :
  isSome requestBody = isSome (Endpoint.requestBody endpoint) ->
  generateEndpointMethod
    (Endpoint.mk (Endpoint.path endpoint) (Endpoint.method endpoint)
       (Endpoint.operationId endpoint) (Endpoint.summary endpoint)
       (Endpoint.description endpoint)
       (filter (fun p => includes ["query"; "path"; "header"] (Param.in_ p))
          (Endpoint.parameters endpoint))
       requestBody responses tags)
  = generateEndpointMethod endpoint.
Proof.
  intros Hbody. apply generateEndpointMethod_ext; try reflexivity.
  - intros place Hplace. cbn [Endpoint.parameters]. now apply filter_located.
  - exact Hbody.
Qed.

Lemma generateEndpointMethod_ignores_witness :
  let body schema := Some (Body.mk true "application/json" (Some schema)) in
  let endpoint :=
    Endpoint.mk "/pets/{id}" "put" "updatePet" "Update a pet" ""
      [Param.mk "id" "path" true "" (Some (Sample.plain "id" "integer"));
       Param.mk "pet" "body" true "" (Some (Sample.referenceTo "pet" "Pet"));
       Param.mk "session" "cookie" false "" None]
      (body (Sample.referenceTo "updatePetRequest" "Pet"))
      [("200", Response.mk "" (Some (Sample.referenceTo "updatePetResponse200" "Pet")))]
      ["pet"] in
  generateEndpointMethod
    (Endpoint.mk "/pets/{id}" "put" "updatePet" "Update a pet" ""
       [Param.mk "id" "path" true "" (Some (Sample.plain "id" "integer"))]
       (body (Sample.plain "other" "string")) [] [])
  = generateEndpointMethod endpoint.
Proof.
  intros body endpoint.
  apply (generateEndpointMethod_ignores endpoint (body (Sample.plain "other" "string"))
           [] []).
  reflexivity.
Defined.

(** ** The normalizer: references *)

Lemma split_ends_with (p : ascii -> bool) (c : ascii) (a b : string) :
  p c = true ->
  allChars (fun x => negb (p x)) b = true ->
  exists first middle, Js.split p (a ++ String c b) = first :: (middle ++ [b])%list.
Proof.
  intros Hc Hb. induction a as [|x a IH]; simpl.
  - rewrite Hc, (split_whole _ _ Hb). now exists "", [].
  - destruct IH as (first & middle & Heq). rewrite Heq.
    destruct (p x).
    + now exists "", (first :: middle).
    + now exists (String x first), middle.
Qed.

Lemma last_pieces (p : ascii -> bool) (s : string) :
  allChars (fun x => negb (p x)) (last (Js.split p s) "") = true.
Proof.
  pose proof (split_pieces (fun _ => true) p s (allChars_true s)) as Hpieces.
  assert (Hlast : forall l : list string,
             Forall (fun w => allChars (fun c => true && negb (p c)) w = true) l ->
             allChars (fun c => true && negb (p c)) (last l "") = true).
  { induction 1 as [|w l Hw Hl IH]; [reflexivity|].
    destruct l; [exact Hw|exact IH]. }
  exact (Hlast _ Hpieces).
Qed.

(** X11.  The name a reference resolves to, [ref.split('/').pop()], is what
    follows the last slash: it holds no slash, it is the whole reference when
    there is none, and it is [name] for [prefix/name] when [name] holds no
    slash. *)
Theorem lastSegment_after_last_slash :
  (forall ref, allChars (fun c => negb (isSlash c)) (lastSegment ref) = true)
  /\ (forall ref,
        allChars (fun c => negb (isSlash c)) ref = true -> lastSegment ref = ref)
  /\ (forall prefix name,
        allChars (fun c => negb (isSlash c)) name = true ->
        lastSegment (prefix ++ "/" ++ name) = name).
Proof.
  split; [|split].
  - intros ref. apply (last_pieces isSlash).
  - intros ref Hplain. unfold lastSegment.
    change (fun c => (Js.code c =? 47)%nat) with isSlash.
    now rewrite (split_whole _ _ Hplain).
  - intros prefix name Hplain. unfold lastSegment.
    change (fun c => (Js.code c =? 47)%nat) with isSlash.
    destruct (split_ends_with isSlash "/"%char prefix name eq_refl Hplain)
      as (first & middle & Heq).
    change (prefix ++ "/" ++ name) with (prefix ++ String "/"%char name).
    rewrite Heq. change (first :: (middle ++ [name])%list)
      with ((first :: middle) ++ [name])%list.
    apply last_last.
Qed.

Lemma lastSegment_after_last_slash_witness :
  lastSegment "#/components/schemas/Pet" = "Pet"
  /\ lastSegment "Pet" = "Pet".
Proof.
  destruct lastSegment_after_last_slash as (_ & Hwhole & Hlast).
  split.
  - apply (Hlast "#/components/schemas" "Pet"). reflexivity.
  - apply (Hwhole "Pet"). reflexivity.
Defined.

(** X12.  A raw schema with a [$ref] is not parsed further, whatever else it
    holds: its node has no child, and resolving it returns the last segment
    of the reference (when that is not empty) and appends nothing. *)
Theorem reference_resolves_to_last_segment (schema : RawSchema.t) (name ref : string)
    (typeDefinitions : TypeDefinitions) :
  whenTruthy (RawSchema.ref schema) = Some ref ->
  nodes (parseSchema schema name) = [parseSchema schema name]
  /\ (lastSegment ref <> "" ->
      processSchema (parseSchema schema name) typeDefinitions
      = (lastSegment ref, typeDefinitions)).
Proof.
  intros Eref. rewrite (parseSchema_reference schema name ref Eref).
  split; [reflexivity|].
  intros Hsegment. rewrite processSchema_unfold. cbn [Schema.reference].
  now rewrite whenTruthy_some.
Qed.

Lemma reference_resolves_to_last_segment_witness :
  let schema :=
    RawSchema.mk (Some "object") None None None
      (Some [("id", Sample.raw (Some "integer"))]) None None None None None
      (Some "#/definitions/Pet") in
  nodes (parseSchema schema "OrderPet") = [parseSchema schema "OrderPet"]
  /\ processSchema (parseSchema schema "OrderPet") Defs.empty = ("Pet", Defs.empty).
Proof.
  intros schema.
  destruct (reference_resolves_to_last_segment schema "OrderPet" "#/definitions/Pet"
              Defs.empty eq_refl) as [Hnodes Hresolved].
  split; [exact Hnodes|]. apply Hresolved. discriminate.
Defined.

(** ** The normalizer: schemas without a reference *)

Lemma parseSchema_plain (schema : RawSchema.t) (name : string) :
  whenTruthy (RawSchema.ref schema) = None ->
  parseSchema schema name
  = Schema.mk name
      (orText (RawSchema.type schema)
         (if isSome (RawSchema.enum schema) then "enum" else "object"))
      (RawSchema.format schema) (RawSchema.enum schema)
      (orFalse (RawSchema.nullable schema))
      (parsedProperties name (RawSchema.properties schema))
      (orNone (RawSchema.required schema))
      (parsedItems name (RawSchema.type schema) (RawSchema.items schema))
      (parsedMembers name "AllOf" (RawSchema.allOf schema))
      (parsedMembers name "OneOf" (RawSchema.oneOf schema))
      (parsedMembers name "AnyOf" (RawSchema.anyOf schema))
      None.
Proof.
  intros Eref. destruct schema. cbn [parseSchema RawSchema.ref] in *.
  now rewrite Eref.
Qed.

(** X13.  A raw schema that gives no type, no enum and no reference is parsed
    with the type [object], so the resolver takes it as an object whatever
    compositions it holds: it declares an interface, and when the schema has
    no properties the interface is empty and nothing else is appended, the
    members of [allOf], [oneOf] and [anyOf] being left unresolved. *)
Theorem untyped_schema_becomes_interface (schema : RawSchema.t) (name : string)
    (typeDefinitions : TypeDefinitions) :
  whenTruthy (RawSchema.type schema) = None ->
  RawSchema.enum schema = None ->
  whenTruthy (RawSchema.ref schema) = None ->
  ~ In name (declaredNames typeDefinitions) ->
  processSchema (parseSchema schema name) typeDefinitions
  = processObjectSchema (parseSchema schema name) typeDefinitions
  /\ (RawSchema.properties schema = None ->
      processSchema (parseSchema schema name) typeDefinitions
      = (sanitizeTypeName name,
         Defs.pushInterface
           (Decl.mk (sanitizeTypeName name)
              ("export interface " ++ sanitizeTypeName name ++ " {" ++ Js.nl ++ "}") [])
           typeDefinitions)).
Proof.
  intros Etype Eenum Eref Hnew.
  assert (Hobject : processSchema (parseSchema schema name) typeDefinitions
                    = processObjectSchema (parseSchema schema name) typeDefinitions).
  { rewrite processSchema_by_shape.
    - unfold shapeOf. rewrite (parseSchema_plain _ _ Eref).
      cbn [Schema.reference Schema.name Schema.enum Schema.type whenTruthy].
      destruct (includes (declaredNames typeDefinitions) name) eqn:Edeclared.
      { apply includes_In in Edeclared. contradiction. }
      rewrite Eenum. unfold orText. rewrite Etype. reflexivity.
    - now rewrite (parseSchema_plain _ _ Eref).
    - now rewrite parseSchema_name. }
  split; [exact Hobject|].
  intros Eproperties. rewrite Hobject, (parseSchema_plain _ _ Eref).
  unfold processObjectSchema, processObjectSchema_.
  cbn [Schema.properties Schema.required Schema.name]. rewrite Eproperties.
  cbn [parsedProperties resolveProperties]. now rewrite <- !append_assoc.
Qed.

Lemma untyped_schema_becomes_interface_witness :
  let schema :=
    RawSchema.mk None None None None None None None None
      (Some [Sample.rawObject []; Sample.rawReference "#/definitions/Dog"]) None None in
  processSchema (parseSchema schema "Pet") Defs.empty
  = ("Pet",
     Defs.pushInterface
       (Decl.mk "Pet" ("export interface Pet {" ++ Js.nl ++ "}") []) Defs.empty).
Proof.
  intros schema.
  apply (untyped_schema_becomes_interface schema "Pet" Defs.empty);
    try reflexivity.
  intros [].
Defined.

(** ** The normalizer: the names of the nodes *)

Lemma prefix_append (a b : string) : beginsWith a (a ++ b) = true.
Proof.
  induction a as [|c a IH]; simpl; [reflexivity|].
  now rewrite Ascii.eqb_refl, IH.
Qed.

Lemma prefix_trans (a b c : string) :
  beginsWith a b = true -> beginsWith b c = true -> beginsWith a c = true.
Proof.
  revert b c. induction a as [|x a IH]; intros b c; simpl; [reflexivity|].
  destruct b as [|y b]; [discriminate|]. rewrite andb_true_iff. intros [Hxy Hab].
  apply Ascii.eqb_eq in Hxy. subst y.
  destruct c as [|z c]; simpl; [discriminate|].
  rewrite !andb_true_iff. intros [Hxz Hbc]. split; [assumption|]. now apply (IH b).
Qed.

Lemma prefix_extended (name suffix other : string) :
  beginsWith (name ++ suffix) other = true -> beginsWith name other = true.
Proof.
  apply prefix_trans, prefix_append.
Qed.

Lemma In_mapIndexed {A B : Type} (f : A -> nat -> B) (l : list A) (y : B) :
  forall start,
    In y (mapIndexed f l start) -> exists x index, In x l /\ y = f x index.
Proof.
  induction l as [|x l IH]; intros start; simpl; [intros []|].
  intros [<-|Hin].
  - exists x, start. split; [now left|reflexivity].
  - destruct (IH _ Hin) as (x' & index & Hx & Hy). exists x', index.
    split; [now right|assumption].
Qed.

Lemma parseSchema_names (schema : RawSchema.t) :
  forall name node,
    In node (nodes (parseSchema schema name)) ->
    beginsWith name (Schema.name node) = true.
Proof.
  induction schema as [type format enum nullable properties required items allOf
                         oneOf anyOf ref Hproperties Hitems HallOf HoneOf HanyOf]
    using rawSchema_ind.
  intros name node Hnode.
  set (schema := RawSchema.mk type format enum nullable properties required items allOf
                   oneOf anyOf ref) in *.
  assert (Hself : node = parseSchema schema name ->
                  beginsWith name (Schema.name node) = true).
  { intros ->. rewrite parseSchema_name. rewrite <- (append_empty_r name) at 2.
    apply prefix_append. }
  destruct (whenTruthy (RawSchema.ref schema)) as [reference|] eqn:Eref.
  { rewrite (parseSchema_reference _ _ _ Eref) in Hnode.
    destruct Hnode as [Hnode|[]]. apply Hself.
    now rewrite (parseSchema_reference _ _ _ Eref). }
  assert (Hmembers : forall suffix members member,
             rawOptionallyAll
               (fun raw => forall name node,
                    In node (nodes (parseSchema raw name)) ->
                    beginsWith name (Schema.name node) = true) members ->
             parsedMembers name suffix members = Some member ->
             forall child, In child member -> In node (nodes child) ->
             beginsWith name (Schema.name node) = true).
  { intros suffix members member Hall Eparsed child Hchild Hin.
    destruct members as [l|]; [|discriminate]. injection Eparsed as <-.
    apply In_mapIndexed in Hchild. destruct Hchild as (raw & index & Hraw & ->).
    cbn [rawOptionallyAll] in Hall. rewrite Forall_forall in Hall.
    apply (prefix_extended name (suffix ++ indexText index)).
    now apply (Hall raw Hraw). }
  apply nodes_children in Hnode.
  rewrite (parseSchema_plain _ _ Eref) in Hnode.
  cbn [Schema.properties Schema.items Schema.allOf Schema.oneOf Schema.anyOf] in Hnode.
  destruct Hnode as [Hnode|[(entry & Hentry & Hin)|[(child & Echild & Hin)
                    |[(l & member & El & Hmember & Hin)
                    |[(l & member & El & Hmember & Hin)
                    |(l & member & El & Hmember & Hin)]]]]].
  - apply Hself. now rewrite (parseSchema_plain _ _ Eref).
  - unfold parsedProperties in Hentry. cbn [RawSchema.properties schema] in Hentry.
    destruct properties as [entries|]; [|destruct Hentry].
    unfold assigned in Hentry. apply filter_In in Hentry. destruct Hentry as [Hentry _].
    apply in_map_iff in Hentry. destruct Hentry as (raw & <- & Hraw).
    cbn [snd] in Hin. cbn [rawOptionallyEntries] in Hproperties.
    rewrite Forall_forall in Hproperties.
    apply (prefix_extended name (capitalizeFirstLetter (fst raw))).
    now apply (Hproperties raw Hraw).
  - unfold parsedItems in Echild. cbn [RawSchema.items RawSchema.type schema] in Echild.
    destruct items as [raw|]; [|discriminate].
    destruct (formatIs type "array"); [|discriminate]. injection Echild as <-.
    apply (prefix_extended name "Item"). now apply Hitems.
  - now apply (Hmembers "AllOf" allOf l HallOf El member).
  - now apply (Hmembers "OneOf" oneOf l HoneOf El member).
  - now apply (Hmembers "AnyOf" anyOf l HanyOf El member).
Qed.

(** X14.  Every node of a parsed schema, at any depth, bears a name that
    begins with the name the schema was parsed under; in a parsed
    specification the name of every node of a component schema begins with
    the key of the component. *)
Theorem parsed_names_begin_with_root :
  (forall schema name node,
      In node (nodes (parseSchema schema name)) ->
      beginsWith name (Schema.name node) = true)
  /\ (forall spec key schema node,
        In (key, schema) (Spec.schemas (Spec.components (parseSwaggerSpec spec))) ->
        In node (nodes schema) ->
        beginsWith key (Schema.name node) = true).
Proof.
  split; [exact parseSchema_names|].
  intros spec key schema node Hentry Hnode.
  assert (Hnamed : forall entries,
             In (key, schema)
               (assigned (map (fun entry => (fst entry, parseSchema (snd entry) (fst entry)))
                            entries)) ->
             beginsWith key (Schema.name node) = true).
  { intros entries Hin. unfold assigned in Hin. apply filter_In in Hin.
    destruct Hin as [Hin _]. apply in_map_iff in Hin. destruct Hin as (raw & Heq & _).
    injection Heq as <- <-. now apply (parseSchema_names (snd raw)). }
  unfold parseSwaggerSpec in Hentry. cbv zeta in Hentry.
  cbn [Spec.components Spec.schemas] in Hentry.
  destruct (RawSpec.components spec) as [components|].
  - destruct (RawSpec.schemas components) as [schemas|]; [now apply (Hnamed schemas)|].
    destruct (RawSpec.definitions spec) as [definitions|]; [|destruct Hentry].
    now apply (Hnamed definitions).
  - destruct (RawSpec.definitions spec) as [definitions|]; [|destruct Hentry].
    now apply (Hnamed definitions).
Qed.

Lemma parsed_names_begin_with_root_witness :
  let schema :=
    Sample.rawObject
      [("owner", Sample.rawObject [("address", Sample.rawObject [])])] in
  map Schema.name (nodes (parseSchema schema "Pet"))
  = ["Pet"; "PetOwner"; "PetOwnerAddress"]
  /\ Forall (fun node => beginsWith "Pet" (Schema.name node) = true)
       (nodes (parseSchema schema "Pet")).
Proof.
  intros schema. split; [reflexivity|].
  apply Forall_forall. intros node Hnode.
  destruct parsed_names_begin_with_root as [Hnodes _].
  now apply (Hnodes schema "Pet").
Defined.

(** ** The normalizer: paths and keys *)

Lemma orText_not_empty (value : option string) (fallback : string) :
  fallback <> "" -> orText value fallback <> "".
Proof.
  intros Hfallback. unfold orText, whenTruthy.
  destruct value as [[|c s]|]; simpl; congruence.
Qed.

Lemma parseEndpoint_fields (path method : string) (operation : RawOperation.t) :
  Endpoint.path (parseEndpoint path method operation) = path
  /\ Endpoint.method (parseEndpoint path method operation) = method
  /\ (method <> "" -> Endpoint.operationId (parseEndpoint path method operation) <> "").
Proof.
  unfold parseEndpoint. cbv zeta.
  cbn [Endpoint.path Endpoint.method Endpoint.operationId].
  split; [reflexivity|]. split; [reflexivity|].
  intros Hmethod. apply orText_not_empty.
  destruct method; [contradiction|discriminate].
Qed.

Lemma parsePath_In (path : string) (pathItem : list (string * RawOperation.t))
    (endpoint : ApiEndpoint) :
  In endpoint (Path.endpoints (parsePath path pathItem)) ->
  exists method operation,
    In method methods /\ lookup method pathItem = Some operation
    /\ endpoint = parseEndpoint path method operation.
Proof.
  unfold parsePath. cbn [Path.endpoints]. intros Hin. apply in_flat_map in Hin.
  destruct Hin as (method & Hmethod & Hin).
  destruct (lookup method pathItem) as [operation|] eqn:Elookup; [|destruct Hin].
  destruct Hin as [<-|[]]. now exists method, operation.
Qed.

(** X15.  A path item yields one endpoint for each of [get], [post], [put],
    [delete], [patch], [options], [head] that it holds, in this order whatever
    the order of its keys, and none for any other key; each endpoint carries
    the path and an operation id that is not empty. *)
Theorem parsePath_endpoints (path : string) (pathItem : list (string * RawOperation.t)) :
  map Endpoint.method (Path.endpoints (parsePath path pathItem))
  = filter (fun method => isSome (lookup method pathItem)) methods
  /\ (forall endpoint,
        In endpoint (Path.endpoints (parsePath path pathItem)) ->
        Endpoint.path endpoint = path /\ Endpoint.operationId endpoint <> "").
Proof.
  split.
  - unfold parsePath. cbn [Path.endpoints].
    generalize methods as names.
    induction names as [|method rest IH]; [reflexivity|].
    change (flat_map ?f (method :: rest)) with (f method ++ flat_map f rest)%list.
    cbn beta. rewrite map_app. cbn [filter].
    destruct (lookup method pathItem) as [operation|]; cbn [map app isSome].
    + f_equal. exact IH.
    + exact IH.
  - intros endpoint Hin. apply parsePath_In in Hin.
    destruct Hin as (method & operation & Hmethod & _ & ->).
    destruct (parseEndpoint_fields path method operation) as (Hpath & _ & Hid).
    split; [exact Hpath|]. apply Hid. intros ->.
    simpl in Hmethod. repeat (destruct Hmethod as [Hmethod|Hmethod]; [discriminate|]).
    exact Hmethod.
Qed.

Lemma parsePath_endpoints_witness :
  let operation := RawOperation.mk None None None None None None None in
  let pathItem :=
    [("parameters", operation); ("delete", operation); ("trace", operation);
     ("get", operation)] in
  map Endpoint.method (Path.endpoints (parsePath "/pets/{id}" pathItem))
  = ["get"; "delete"]
  /\ map Endpoint.operationId (Path.endpoints (parsePath "/pets/{id}" pathItem))
     = ["getpetsid"; "deletepetsid"]
  /\ forall endpoint,
       In endpoint (Path.endpoints (parsePath "/pets/{id}" pathItem)) ->
       Endpoint.path endpoint = "/pets/{id}" /\ Endpoint.operationId endpoint <> "".
Proof.
  intros operation pathItem. split; [reflexivity|]. split; [reflexivity|].
  apply (parsePath_endpoints "/pets/{id}" pathItem).
Defined.

(** X16.  In a parsed specification every component schema bears its key as
    its name, no key is [__proto__], and every endpoint stored under a path
    carries that path and one of the seven methods. *)
Theorem parsed_keys_agree (spec : RawSpec.t) :
  (forall key schema,
      In (key, schema) (Spec.schemas (Spec.components (parseSwaggerSpec spec))) ->
      Schema.name schema = key /\ key <> "__proto__")
  /\ (forall path apiPath endpoint,
        In (path, apiPath) (Spec.paths (parseSwaggerSpec spec)) ->
        In endpoint (Path.endpoints apiPath) ->
        path <> "__proto__"
        /\ Endpoint.path endpoint = path
        /\ In (Endpoint.method endpoint) methods).
Proof.
  split.
  - intros key schema Hentry.
    assert (Hnamed : forall entries,
               In (key, schema)
                 (assigned
                    (map (fun entry => (fst entry, parseSchema (snd entry) (fst entry)))
                       entries)) ->
               Schema.name schema = key /\ key <> "__proto__").
    { intros entries Hin. unfold assigned in Hin. apply filter_In in Hin.
      destruct Hin as [Hin Hkey]. cbn [fst] in Hkey. split.
      - apply in_map_iff in Hin. destruct Hin as (raw & Heq & _).
        injection Heq as <- <-. apply parseSchema_name.
      - intros ->. discriminate. }
    unfold parseSwaggerSpec in Hentry. cbv zeta in Hentry.
    cbn [Spec.components Spec.schemas] in Hentry.
    destruct (RawSpec.components spec) as [components|].
    + destruct (RawSpec.schemas components) as [schemas|]; [now apply (Hnamed schemas)|].
      destruct (RawSpec.definitions spec) as [definitions|]; [|destruct Hentry].
      now apply (Hnamed definitions).
    + destruct (RawSpec.definitions spec) as [definitions|]; [|destruct Hentry].
      now apply (Hnamed definitions).
  - intros path apiPath endpoint Hentry Hendpoint.
    unfold parseSwaggerSpec in Hentry. cbv zeta in Hentry. cbn [Spec.paths] in Hentry.
    unfold assigned in Hentry. apply filter_In in Hentry.
    destruct Hentry as [Hentry Hkey]. cbn [fst] in Hkey.
    split; [intros ->; discriminate|].
    apply in_map_iff in Hentry. destruct Hentry as (raw & Heq & _).
    injection Heq as <- <-. apply parsePath_In in Hendpoint.
    destruct Hendpoint as (method & operation & Hmethod & _ & ->).
    destruct (parseEndpoint_fields (fst raw) method operation) as (Hpath & Hm & _).
    rewrite Hpath, Hm. now split.
Qed.

Lemma parsed_keys_agree_witness :
  let spec :=
    Sample.openapi (Sample.operationWithBody "addPet" (Sample.raw (Some "object")))
      [("Pet", Sample.rawObject []); ("__proto__", Sample.rawObject [])] in
  map fst (Spec.schemas (Spec.components (parseSwaggerSpec spec))) = ["Pet"]
  /\ forall key schema,
       In (key, schema) (Spec.schemas (Spec.components (parseSwaggerSpec spec))) ->
       Schema.name schema = key /\ key <> "__proto__".
Proof.
  intros spec. split; [reflexivity|].
  apply (parsed_keys_agree spec).
Defined.

(** ** The normalizer and the scalar table *)

Lemma toTsType_not_any (type : string) (format : option string) :
  Js.truthy type = true -> toTsType (Some type) format <> "any".
Proof.
  intros Htype. unfold toTsType. rewrite Htype. cbn [negb]. cbv zeta.
  repeat match goal with
         | |- context [if ?b then _ else _] => destruct b
         end; discriminate.
Qed.

(** X17.  After normalization the scalar table gives [any] only to a
    parameter that has no schema: the type of a parsed schema is never
    empty, so neither the type of a parameter with a schema nor the scalar
    fallback of the resolver is [any]. *)
Theorem any_only_without_schema :
  (forall param,
      parameterType (parseParameter param) = "any"
      <-> RawParameter.schema param = None)
  /\ (forall schema name,
        toTsType (Some (Schema.type (parseSchema schema name)))
          (Schema.format (parseSchema schema name)) <> "any").
Proof.
  split.
  - intros param. unfold parameterType, parseParameter. cbn [Param.schema].
    destruct (RawParameter.schema param) as [schema|]; split; try reflexivity.
    + intros Hany. exfalso. revert Hany. apply toTsType_not_any, parseSchema_type.
    + discriminate.
  - intros schema name. apply toTsType_not_any, parseSchema_type.
Qed.

(** ** The keys of an enumerated declaration *)

(** X18.  The key of an enum member holds word characters only, is as long
    as the value, and is the value itself when the value holds word
    characters only. *)
Theorem enum_key_shape (value : string) :
  let key := Js.replaceOutside Js.isWord "_"%char value in
  allChars Js.isWord key = true
  /\ String.length key = String.length value
  /\ (allChars Js.isWord value = true -> key = value).
Proof.
  cbv zeta. unfold Js.replaceOutside. induction value as [|c value IH]; simpl.
  - repeat split.
  - destruct IH as (Hword & Hlength & Hsame). split; [|split].
    + rewrite Hword, andb_true_r. destruct (Js.isWord c) eqn:E; [exact E|reflexivity].
    + now rewrite Hlength.
    + rewrite andb_true_iff. intros [Hc Hvalue]. now rewrite Hc, (Hsame Hvalue).
Qed.

Lemma enum_key_shape_witness :
  Js.replaceOutside Js.isWord "_"%char "in_stock" = "in_stock"
  /\ Js.replaceOutside Js.isWord "_"%char "in stock!" = "in_stock_".
Proof.
  split.
  - apply (enum_key_shape "in_stock"). reflexivity.
  - reflexivity.
Defined.
